(** * Verification of [ucsd_scraper/parse_prereqs.py]

    A shallow embedding of the prerequisite parser and of the graph edge
    compiler, with the properties stated in the specification.

    Modelling conventions.
    - A Python [str] is a [list ascii]; an [ascii] is read as the code
      point of the same number, so the model covers the texts whose code
      points are below 256 (ASCII and Latin-1).  On this range the
      character classes below agree with CPython's Unicode tables: [\s]
      and [str.strip] use [str.isspace], [\d] is [0-9], and [[A-Z]] under
      [re.IGNORECASE] is [[A-Za-z]].
    - [str | None] is [option str]; a tuple of codes is a list of codes.
    - The patterns of the module are sequences of greedily quantified
      character classes, optionally closed by [$]; [re_match] below is the
      backtracking matcher of [re] specialised to this fragment.
    - An expression that can raise returns in [result].
    - Of [scrape_catalog.py] and [validate_audit.py] the functions on
      texts and on lists of courses are embedded: a paragraph of a page
      is its [class] attribute and its text, the value of
      [get_text(separator=" ")]; the requests, the HTML parser and the
      files are outside the model. *)

From Stdlib Require Import Ascii String List Bool Arith Lia.
From stdpp Require Import base option list gmap strings.
Import ListNotations.

Local Open Scope char_scope.
Local Open Scope list_scope.

(** ** Python values *)

Abbreviation str := (list ascii).

(** A string literal as a [str]. *)
Definition lit (s : string) : str := list_ascii_of_string s.
Arguments lit s%_string.

Inductive exn := IndexError.

Inductive result (A : Type) :=
| Ok (a : A)
| Raise (e : exn).
Arguments Ok {A} a.
Arguments Raise {A} e.

Global Instance result_bind : MBind result := fun A B f m =>
  match m with
  | Ok a => f a
  | Raise e => Raise e
  end.

(** A [for] loop whose body can raise. *)
Fixpoint for_each {A S} (body : S -> A -> result S) (l : list A) (st : S)
  : result S :=
  match l with
  | [] => Ok st
  | x :: l' => st' ← body st x; for_each body l' st'
  end.

(** ** Character classes *)

Definition char_in (lo hi : nat) (c : ascii) : bool :=
  let n := nat_of_ascii c in ((lo <=? n) && (n <=? hi))%nat.

(** [[A-Z]] *)
Definition is_upper (c : ascii) : bool := char_in 65 90 c.
(** [[a-z]] *)
Definition is_lower (c : ascii) : bool := char_in 97 122 c.
(** [[A-Z]] under [re.IGNORECASE] *)
Definition is_alpha (c : ascii) : bool := is_upper c || is_lower c.
(** [\d] *)
Definition is_digit (c : ascii) : bool := char_in 48 57 c.
(** [\s], and the characters removed by [str.strip()] and separating the
    fields of [str.split()]: tab to carriage return, the four separators
    0x1c-0x1f, the space, NEL and the no-break space. *)
Definition is_space (c : ascii) : bool :=
  let n := nat_of_ascii c in
  char_in 9 13 c || char_in 28 32 c || (n =? 133)%nat || (n =? 160)%nat.
(** [[.,;]], also the argument of [rstrip(".,;")] *)
Definition is_punct (c : ascii) : bool :=
  Ascii.eqb c "." || Ascii.eqb c "," || Ascii.eqb c ";".
(** a literal character, and the same under [re.IGNORECASE] *)
Definition is_char (x : ascii) (c : ascii) : bool := Ascii.eqb c x.
Definition is_char_i (lower upper : ascii) (c : ascii) : bool :=
  Ascii.eqb c lower || Ascii.eqb c upper.

(** ** String methods *)

Fixpoint lstrip (p : ascii -> bool) (s : str) : str :=
  match s with
  | [] => []
  | c :: s' => if p c then lstrip p s' else s
  end.

Definition rstrip (p : ascii -> bool) (s : str) : str :=
  rev (lstrip p (rev s)).

(** [s.strip()] *)
Definition py_strip (s : str) : str := rstrip is_space (lstrip is_space s).

(** [s.rstrip(".,;")] *)
Definition rstrip_punct (s : str) : str := rstrip is_punct s.

(** [";" in s] *)
Definition contains (x : ascii) (s : str) : bool := existsb (Ascii.eqb x) s.

(** [s.split(x, 1)[0]]: the text before the first [x], or all of [s]. *)
Fixpoint before_first (x : ascii) (s : str) : str :=
  match s with
  | [] => []
  | c :: s' => if Ascii.eqb c x then [] else c :: before_first x s'
  end.

(** [s.split()]: the maximal runs of non-space characters.  [cur] is the
    field being read, reversed. *)
Fixpoint split_fields (cur : str) (s : str) : list str :=
  match s with
  | [] => match cur with [] => [] | _ => [rev cur] end
  | c :: s' =>
      if is_space c
      then match cur with
           | [] => split_fields [] s'
           | _ => rev cur :: split_fields [] s'
           end
      else split_fields (c :: cur) s'
  end.

Definition py_split (s : str) : list str := split_fields [] s.

(** [l[0]] *)
Definition index0 {A} (l : list A) : result A :=
  match l with
  | [] => Raise IndexError
  | x :: _ => Ok x
  end.

(** [l[-1]] *)
Definition index_last {A} (l : list A) : result A :=
  match rev l with
  | [] => Raise IndexError
  | x :: _ => Ok x
  end.

(** ** Regular expressions *)

(** A character class with a greedy quantifier [{lo,hi}]; [hi = None] is
    unbounded. *)
Record atom := Atom { cls : ascii -> bool; lo : nat; hi : option nat }.

Record regex := Regex { atoms : list atom; dollar : bool }.

Definition one (p : ascii -> bool) : atom := Atom p 1 (Some 1).
Definition plus (p : ascii -> bool) : atom := Atom p 1 None.
Definition star (p : ascii -> bool) : atom := Atom p 0 None.
Definition opt (p : ascii -> bool) : atom := Atom p 0 (Some 1).

(** Length of the longest prefix of [s] inside the class. *)
Fixpoint run_length (p : ascii -> bool) (s : str) : nat :=
  match s with
  | [] => 0
  | c :: s' => if p c then S (run_length p s') else 0
  end.

(** Number of characters a greedy quantifier takes first. *)
Definition greedy (a : atom) (s : str) : nat :=
  match hi a with
  | Some h => Nat.min h (run_length (cls a) s)
  | None => run_length (cls a) s
  end.

(** Try [k], [k-1], ..., [lo] repetitions and keep the first success. *)
Fixpoint backtrack {R} (try : nat -> option R) (lo k : nat) : option R :=
  if (k <? lo)%nat then None
  else match try k with
       | Some r => Some r
       | None => match k with
                 | 0 => None
                 | S k' => backtrack try lo k'
                 end
       end.

(** [$]: the end of the string, or just before a final newline. *)
Definition at_end (s : str) : bool :=
  match s with
  | [] => true
  | [c] => Ascii.eqb c "010"
  | _ => false
  end.

(** The length of the match of the atoms at the start of [s], if any. *)
Fixpoint match_atoms (r : list atom) (dollar : bool) (s : str) : option nat :=
  match r with
  | [] => if dollar then (if at_end s then Some 0 else None) else Some 0
  | a :: r' =>
      backtrack
        (fun k => option_map (Nat.add k) (match_atoms r' dollar (drop k s)))
        (lo a) (greedy a s)
  end.

(** [r.match(s)]: a match anchored at the start of [s]. *)
Definition re_match (r : regex) (s : str) : option nat :=
  match_atoms (atoms r) (dollar r) s.

Definition cons_gap (c : ascii) (x : list (str * str) * str)
  : list (str * str) * str :=
  match x with
  | ([], tl) => ([], c :: tl)
  | ((g, m) :: ms, tl) => ((c :: g, m) :: ms, tl)
  end.

(** The leftmost non-overlapping matches of [r] in [s], each with the text
    between the previous match and itself, and the text after the last
    match.  [skip] counts the characters of [s] still inside the previous
    match.  The patterns of this module match no empty string, so a match
    of length 0 does not occur. *)
Fixpoint scan (r : regex) (skip : nat) (s : str) : list (str * str) * str :=
  match s with
  | [] => ([], [])
  | c :: s' =>
      match skip with
      | S k => scan r k s'
      | 0 =>
          match re_match r s with
          | Some (S n) =>
              let '(ms, tl) := scan r n s' in (([], take (S n) s) :: ms, tl)
          | _ => cons_gap c (scan r 0 s')
          end
      end
  end.

(** [m.group(0) for m in r.finditer(s)] *)
Definition finditer (r : regex) (s : str) : list str :=
  map snd (fst (scan r 0 s)).

(** [r.split(s)] *)
Definition re_split (r : regex) (s : str) : list str :=
  map fst (fst (scan r 0 s)) ++ [snd (scan r 0 s)].

(** [r.sub(repl, s)] for a replacement without group references *)
Definition re_sub (r : regex) (repl : str) (s : str) : str :=
  concat (map (fun gm => fst gm ++ repl) (fst (scan r 0 s))) ++ snd (scan r 0 s).

(** ** The module [parse_prereqs] *)

(** [[A-Z]{2,4} \d+[A-Z]*] *)
Definition COURSE_CODE_RE : regex :=
  Regex [Atom is_upper 2 (Some 4); one (is_char " "); plus is_digit;
         star is_upper] false.

(** [^\d+[A-Z]?$] with [re.IGNORECASE]; the pattern is only used through
    [match], which anchors it at the start. *)
Definition STANDALONE_NUM_RE : regex :=
  Regex [plus is_digit; opt is_alpha] true.

(** [[.,;]+$] *)
Definition TRAILING_PUNCT_RE : regex := Regex [plus is_punct] true.

(** [\s+] *)
Definition WHITESPACE_RE : regex := Regex [plus is_space] false.

(** [\s+and\s+] with [re.IGNORECASE] *)
Definition AND_RE : regex :=
  Regex [plus is_space; one (is_char_i "a" "A"); one (is_char_i "n" "N");
         one (is_char_i "d" "D"); plus is_space] false.

Definition is_nil {A} (l : list A) : bool :=
  match l with [] => true | _ => false end.

(** [x in l] for a list of strings *)
Definition str_in (x : str) (l : list str) : bool :=
  bool_decide (x ∈ l).

(** The two normalizations of a match in the loop of
    [extract_course_codes]: [strip()], then [re.sub(r"[.,;]+$", "", code)]. *)
Definition normalize_code (m : str) : str :=
  let code := py_strip m in
  re_sub TRAILING_PUNCT_RE [] code.

(** The body of the loop of [extract_course_codes]. *)
Definition extract_step (codes : list str) (m : str) : list str :=
  let code := normalize_code m in
  if negb (is_nil code) && negb (str_in code codes)
  then codes ++ [code]
  else codes.

Definition extract_course_codes (text : str) : list str :=
  fold_left extract_step (finditer COURSE_CODE_RE text) [].

(** The state of the loop over the AND-segments: [result] and
    [last_dept]. *)
Abbreviation parse_state := (list (list str) * option str)%type.

(** The truth value of [last_dept]: neither [None] nor empty. *)
Definition truthy (last_dept : option str) : bool :=
  match last_dept with
  | Some (_ :: _) => true
  | _ => false
  end.

(** One iteration of the loop over [and_segments]. *)
Definition parse_segment (st : parse_state) (segment : str)
  : result parse_state :=
  let '(result, last_dept) := st in
  let segment := py_strip segment in
  if is_nil segment then Ok (result, last_dept)
  else
    let codes := extract_course_codes segment in
    let codes :=
      if is_nil codes && truthy last_dept
         && bool_decide (is_Some (re_match STANDALONE_NUM_RE (rstrip_punct segment)))
      then
        let short := py_strip (rstrip_punct segment) in
        [default [] last_dept ++ " "%char :: short]
      else codes in
    if is_nil codes then Ok (result, last_dept)
    else
      last_code ← index_last codes;
      dept ← index0 (py_split last_code);
      Ok (result ++ [codes], Some dept).

Definition parse_prereq_raw (raw : option str) : result (list (list str)) :=
  match raw with
  | None => Ok []
  | Some raw =>
      if is_nil raw || is_nil (py_strip raw) then Ok []
      else
        let text := py_strip raw in
        let text :=
          if contains ";" text then py_strip (before_first ";" text)
          else text in
        let text := re_sub WHITESPACE_RE [" "%char] text in
        let and_segments := re_split AND_RE text in
        st ← for_each parse_segment and_segments ([], None);
        Ok (fst st)
  end.

(** A course record: the keys read by this module. *)
Record Course := {
  code : str;
  prereq_raw : option str;
  prereq_structured : option (list (list str))
}.

Record Edge := { source : str; target : str; or_group_index : nat }.

Global Instance Edge_eq_dec : EqDecision Edge.
Proof. solve_decision. Defined.

(** [enumerate(l)], counting from [i] *)
Fixpoint enumerate_from {A} (i : nat) (l : list A) : list (nat * A) :=
  match l with
  | [] => []
  | x :: l' => (i, x) :: enumerate_from (S i) l'
  end.

Definition enumerate {A} (l : list A) : list (nat * A) := enumerate_from 0 l.

(** [{c["code"]: c for c in courses}] *)
Definition code_index (courses : list Course) : gmap str Course :=
  fold_left (fun m c => <[code c := c]> m) courses ∅.

(** [source in code_to_course] *)
Definition known (code_to_course : gmap str Course) (source : str) : bool :=
  bool_decide (is_Some (code_to_course !! source)).

Definition build_prereq_edges (courses : list Course) : list Edge :=
  let code_to_course := code_index courses in
  fold_left
    (fun edges course =>
       let target := code course in
       let structured := default [] (prereq_structured course) in
       fold_left
         (fun edges '(or_group_index, or_tuple) =>
            fold_left
              (fun edges source =>
                 if known code_to_course source
                 then edges ++ [Build_Edge source target or_group_index]
                 else edges)
              or_tuple edges)
         (enumerate structured) edges)
    courses [].

(** ** Specification-side notions *)

(** The CourseCode grammar of the data model: 2 to 4 uppercase letters, a
    space, one or more digits, trailing uppercase letters. *)
Definition is_course_code (s : str) : bool :=
  let d := run_length is_upper s in
  (2 <=? d)%nat && (d <=? 4)%nat &&
  match drop d s with
  | sp :: t =>
      let n := run_length is_digit t in
      Ascii.eqb sp " " && (1 <=? n)%nat && forallb is_upper (drop n t)
  | [] => false
  end.

(** The grammar the parser's codes do satisfy: as [is_course_code], but
    the suffix may also be one lowercase letter. *)
Definition is_parsed_code (s : str) : bool :=
  let d := run_length is_upper s in
  (2 <=? d)%nat && (d <=? 4)%nat &&
  match drop d s with
  | sp :: t =>
      let n := run_length is_digit t in
      Ascii.eqb sp " " && (1 <=? n)%nat &&
      (forallb is_upper (drop n t)
       || match drop n t with [c] => is_lower c | _ => false end)
  | [] => false
  end.

(** The department prefix of a code: the text before its space. *)
Definition dept_prefix (code : str) : str := before_first " " code.

(** The matches of the code pattern in [text], normalized as the loop of
    [extract_course_codes] does, without the empty ones. *)
Definition normalized_matches (text : str) : list str :=
  List.filter (fun code => negb (is_nil code))
    (map normalize_code (finditer COURSE_CODE_RE text)).

(** The first occurrences of the elements of [l], in order: the head is
    kept and its later occurrences are removed from the rest. *)
Fixpoint first_occurrences (l : list str) : list str :=
  match l with
  | [] => []
  | x :: l' =>
      x :: List.filter (fun y => negb (bool_decide (y = x))) (first_occurrences l')
  end.

(** The structure of a course, [[]] when absent. *)
Definition structure_of (c : Course) : list (list str) :=
  default [] (prereq_structured c).

(** [e] is an edge into [t] with index [i]. *)
Definition in_group (t : str) (i : nat) (e : Edge) : bool :=
  bool_decide (target e = t) && (or_group_index e =? i)%nat.

(** The sources of the edges into [t] with index [i], in emission order. *)
Definition group_sources (edges : list Edge) (t : str) (i : nat) : list str :=
  map source (List.filter (in_group t i) edges).

(** The edges of one OrGroup, and of one course. *)
Definition group_edges (m : gmap str Course) (t : str) (i : nat)
    (g : list str) : list Edge :=
  map (fun s => Build_Edge s t i) (List.filter (known m) g).

Definition course_edges_from (m : gmap str Course) (c : Course) (k : nat)
    (st : list (list str)) : list Edge :=
  flat_map (fun ig => group_edges m (code c) (fst ig) (snd ig))
    (enumerate_from k st).

Definition course_edges (m : gmap str Course) (c : Course) : list Edge :=
  course_edges_from m c 0 (structure_of c).

(** [s] is a key of the catalog. *)
Definition is_key (courses : list Course) (s : str) : bool :=
  bool_decide (s ∈ map code courses).

(** The parts of a code found by the code pattern. *)
Definition extracted_code (code : str) : Prop :=
  exists d ds x,
    code = d ++ " "%char :: ds ++ x
    /\ 2 <= length d <= 4 /\ forallb is_upper d = true
    /\ 1 <= length ds /\ forallb is_digit ds = true
    /\ forallb is_upper x = true.

(** The parts of a code of the parser's result, found or synthesized. *)
Definition parsed_code (code : str) : Prop :=
  exists d ds x,
    code = d ++ " "%char :: ds ++ x
    /\ 2 <= length d <= 4 /\ forallb is_upper d = true
    /\ 1 <= length ds /\ forallb is_digit ds = true
    /\ (forallb is_upper x = true \/ exists c, x = [c] /\ is_lower c = true).

(** The invariant of the loop over the AND-segments: the groups hold
    codes, and [last_dept] is the department of the last code appended. *)
Definition parse_inv (st : parse_state) : Prop :=
  Forall (Forall parsed_code) (fst st)
  /\ match last (fst st) with
     | None => snd st = None
     | Some g =>
         exists code, last g = Some code /\ snd st = Some (dept_prefix code)
     end.

(** The steps of [parse_prereq_raw] after the truncation at the first
    semicolon. *)
Definition parse_clause (text : str) : result (list (list str)) :=
  let text := re_sub WHITESPACE_RE [" "%char] text in
  let and_segments := re_split AND_RE text in
  st ← for_each parse_segment and_segments ([], None);
  Ok (fst st).

(** An absent or blank raw value. *)
Definition is_blank (raw : option str) : bool :=
  match raw with
  | None => true
  | Some s => forallb is_space s
  end.

(** ** The module [validate_audit] *)

(** [sep.join(l)] *)
Fixpoint join (sep : str) (l : list str) : str :=
  match l with
  | [] => []
  | x :: l' =>
      match l' with
      | [] => x
      | _ => x ++ sep ++ join sep l'
      end
  end.

(** [normalize(s)], for a string or [None]: [str(s)] is then [s]. *)
Definition normalize (s : option str) : str :=
  match s with
  | None => []
  | Some s => py_strip (join [" "%char] (py_split s))
  end.

(** [re.sub(r"\s+", " ", s)] *)
Abbreviation collapse := (re_sub WHITESPACE_RE [" "%char]).

(** A word: a non-empty text without whitespace. *)
Definition is_word (w : str) : Prop :=
  w <> [] /\ forallb (fun c => negb (is_space c)) w = true.

(** ** [parse_prereqs.main] *)

(** The body of the enrichment loop:
    [c["prereq_structured"] = parse_prereq_raw(c.get("prereq_raw"))]. *)
Definition enrich (c : Course) : result Course :=
  structured ← parse_prereq_raw (prereq_raw c);
  Ok {| code := code c;
        prereq_raw := prereq_raw c;
        prereq_structured := Some structured |}.

(** The enrichment loop over [courses]. *)
Fixpoint enrich_all (courses : list Course) : result (list Course) :=
  match courses with
  | [] => Ok []
  | c :: cs => c' ← enrich c; cs' ← enrich_all cs; Ok (c' :: cs')
  end.

(** The data [main] writes: the enriched courses and their edges. *)
Definition main_outputs (courses : list Course)
  : result (list Course * list Edge) :=
  enriched ← enrich_all courses;
  Ok (enriched, build_prereq_edges enriched).

(** [sum(1 for c in courses if c.get("prereq_structured"))] *)
Definition with_structured (courses : list Course) : nat :=
  length (List.filter (fun c => negb (is_nil (structure_of c))) courses).

(** [any(x)] for a list of tuples; [any(None)] raises [TypeError], which
    is [None] here. *)
Definition py_any (x : option (list (list str))) : option bool :=
  match x with
  | None => None
  | Some groups => Some (existsb (fun g => negb (is_nil g)) groups)
  end.

(** [sum(1 for c in courses if any(c.get("prereq_structured")))] *)
Fixpoint with_edges (courses : list Course) : option nat :=
  match courses with
  | [] => Some 0
  | c :: cs =>
      match py_any (prereq_structured c), with_edges cs with
      | Some b, Some n => Some ((if b then 1 else 0) + n)
      | _, _ => None
      end
  end.

(** ** [scrape_catalog.main] *)

(** The body of the loop that collects the courses of all departments:
    a course is appended unless its code is in [seen]. *)
Definition collect_course {A} (code_of : A -> str)
    (st : gset str * list A) (c : A) : gset str * list A :=
  let '(seen, all_courses) := st in
  if bool_decide (code_of c ∈ seen) then (seen, all_courses)
  else ({[code_of c]} ∪ seen, all_courses ++ [c]).

(** [all_courses] after the loop over the departments; [scraped] holds
    the list returned by [scrape_department] for each department link. *)
Definition collect_departments {A} (code_of : A -> str)
    (scraped : list (list A)) : list A :=
  snd (fold_left
         (fun st courses => fold_left (collect_course code_of) courses st)
         scraped (∅, [])).

(** The first course of each code, in order: the head is kept and the
    later courses with its code are removed from the rest. *)
Fixpoint first_by_code {A} (code_of : A -> str) (l : list A) : list A :=
  match l with
  | [] => []
  | x :: l' =>
      x :: List.filter (fun y => negb (bool_decide (code_of y = code_of x)))
             (first_by_code code_of l')
  end.

(** ** Writing a structure back as a sentence *)

(** The codes of a group joined by " or ", the groups joined by " and ". *)
Definition show_group (g : list str) : str := join (lit " or ") g.

Definition show_structure (st : list (list str)) : str :=
  join (lit " and ") (map show_group st).

(** The number of a code: the text after its space. *)
Definition number_part (code : str) : str :=
  drop (S (length (dept_prefix code))) code.

(** The words of a code, of a group and of a structure. *)
Definition code_words (code : str) : list str :=
  [dept_prefix code; number_part code].

Fixpoint group_words (g : list str) : list str :=
  match g with
  | [] => []
  | code :: g' =>
      match g' with
      | [] => code_words code
      | _ => code_words code ++ lit "or" :: group_words g'
      end
  end.

(** The word "and" in any case. *)
Definition and_like (w : str) : bool :=
  match w with
  | [a; n; d] => is_char_i "a" "A" a && is_char_i "n" "N" n && is_char_i "d" "D" d
  | _ => false
  end.

(** Each word preceded by one space. *)
Definition spaced_words (ws : list str) : str :=
  concat (map (cons " "%char) ws).

(** [p] put in front of the first piece. *)
Definition prepend (p : str) (pieces : list str) : list str :=
  match pieces with
  | piece :: pieces' => (p ++ piece) :: pieces'
  | [] => [p]
  end.

Fixpoint structure_words (st : list (list str)) : list str :=
  match st with
  | [] => []
  | g :: st' =>
      match st' with
      | [] => group_words g
      | _ => group_words g ++ lit "and" :: structure_words st'
      end
  end.

(** A code of the CourseCode grammar whose department is not the word
    "AND". *)
Definition plain_code (code : str) : Prop :=
  is_course_code code = true /\ dept_prefix code <> lit "AND".

(** A structure as the parser returns them: non-empty groups of plain
    codes, without a repeated code in a group. *)
Definition well_formed_structure (st : list (list str)) : Prop :=
  Forall (fun g => g <> [] /\ NoDup g /\ Forall plain_code g) st.

(** ** Patterns with groups *)

(** The patterns of the scraper also have a lazy quantifier and an
    optional group.  An item is a class with a greedy or a lazy
    quantifier, or an optional group [(?: ... )?] of greedy atoms. *)
Inductive item :=
| Greedy (a : atom)
| Lazy (a : atom)
| Optional (body : list atom).

(** Try [k], [k+1], ..., [k+n] repetitions and keep the first success. *)
Fixpoint forward {R} (try : nat -> option R) (k n : nat) : option R :=
  match try k with
  | Some r => Some r
  | None =>
      match n with
      | 0 => None
      | S n' => forward try (S k) n'
      end
  end.

(** The atoms of a group, then the continuation [k] on the number of
    characters taken so far and on the rest of the text. *)
Fixpoint match_then {R} (r : list atom) (n : nat) (s : str)
    (k : nat -> str -> option R) : option R :=
  match r with
  | [] => k n s
  | a :: r' =>
      backtrack (fun j => match_then r' (n + j) (drop j s) k)
        (lo a) (greedy a s)
  end.

(** The match of the items at the start of [s], if any: the number of
    characters taken by each item.  A greedy quantifier tries the longest
    repetition first, a lazy one the shortest, an optional group its body
    before nothing. *)
Fixpoint match_items (r : list item) (s : str) : option (list nat) :=
  match r with
  | [] => Some []
  | Greedy a :: r' =>
      backtrack (fun k => cons k <$> match_items r' (drop k s))
        (lo a) (greedy a s)
  | Lazy a :: r' =>
      if (greedy a s <? lo a)%nat then None
      else forward (fun k => cons k <$> match_items r' (drop k s))
             (lo a) (greedy a s - lo a)
  | Optional body :: r' =>
      match match_then body 0 s (fun n s' => cons n <$> match_items r' s') with
      | Some lens => Some lens
      | None => cons 0 <$> match_items r' s
      end
  end.

(** [re.search]: the leftmost position with a match, [i] characters
    after the start of the text, and the match there. *)
Fixpoint search_from (r : list item) (i : nat) (s : str)
  : option (nat * list nat) :=
  match match_items r s with
  | Some lens => Some (i, lens)
  | None =>
      match s with
      | [] => None
      | _ :: s' => search_from r (S i) s'
      end
  end.

Definition re_search (r : list item) (s : str) : option (nat * list nat) :=
  search_from r 0 s.

(** The text matched by the items [i], ..., [i+n-1] of a match that
    starts at [start] in [text]: a group of the pattern. *)
Definition group_text (text : str) (start : nat) (lens : list nat)
    (i n : nat) : str :=
  take (sum_list (take n (drop i lens)))
       (drop (start + sum_list (take i lens)) text).

(** [.]: every character but the newline. *)
Definition not_newline (c : ascii) : bool := negb (Ascii.eqb c "010").

(** ** The module [scrape_catalog] *)

Module scrape_catalog.

(** The dict of a course: built by [parse_course_header], completed by
    the loop of [scrape_department]. *)
Record course := {
  code : str;
  title : str;
  units : N;
  description : str;
  prereq_raw : option str
}.

(** A call that returns or raises [ValueError]. *)
Inductive raising (A : Type) :=
| Return (a : A)
| ValueError.
Arguments Return {A} a.
Arguments ValueError {A}.

Global Instance raising_bind : MBind raising := fun A B f m =>
  match m with
  | Return a => f a
  | ValueError => ValueError
  end.

Definition digit_value (c : ascii) : N := N.of_nat (nat_of_ascii c - 48).

(** [int(ds)] for a match [ds] of [\d+].  CPython, from version 3.11,
    raises [ValueError] on more than 4300 digits. *)
Definition py_int (ds : str) : raising N :=
  if (4300 <? length ds)%nat then ValueError
  else Return (fold_left (fun n c => 10 * n + digit_value c)%N ds 0%N).

(** [^([A-Z]{2,4} \d+[A-Z]?)\.\s+(.+?)\s+\((\d+)(?:[–\-]\d+)?\)], used
    through [re.match].  Of the two dashes of the class [[–\-]] the hyphen
    is in the range of the model; the en dash is U+2013. *)
Definition HEADER_RE : list item :=
  [Greedy (Atom is_upper 2 (Some 4)); Greedy (one (is_char " "));
   Greedy (plus is_digit); Greedy (opt is_upper);
   Greedy (one (is_char "."));
   Greedy (plus is_space);
   Lazy (plus not_newline);
   Greedy (plus is_space);
   Greedy (one (is_char "("));
   Greedy (plus is_digit);
   Optional [one (is_char "-"); plus is_digit];
   Greedy (one (is_char ")"))].

(** [parse_course_header(block)]; [block_text] is the value of
    [block.get_text(separator=" ")].  The groups 1, 2 and 3 are the items
    0 to 3, the item 6 and the item 9. *)
Definition parse_course_header (block_text : str) : raising (option course) :=
  let text := py_strip block_text in
  match match_items HEADER_RE text with
  | None => Return None
  | Some lens =>
      let code := group_text text 0 lens 0 4 in
      let title := group_text text 0 lens 6 1 in
      let units := group_text text 0 lens 9 1 in
      units ← py_int units;
      Return (Some {| code := py_strip code;
                      title := py_strip title;
                      units := units;
                      description := [];
                      prereq_raw := None |})
  end.

(** [Prerequisites?\s*:\s*(.+)] with [re.IGNORECASE] *)
Definition PREREQ_RE : list item :=
  map Greedy
    [one (is_char_i "p" "P"); one (is_char_i "r" "R");
     one (is_char_i "e" "E"); one (is_char_i "r" "R");
     one (is_char_i "e" "E"); one (is_char_i "q" "Q");
     one (is_char_i "u" "U"); one (is_char_i "i" "I");
     one (is_char_i "s" "S"); one (is_char_i "i" "I");
     one (is_char_i "t" "T"); one (is_char_i "e" "E");
     opt (is_char_i "s" "S");
     star is_space; one (is_char ":"); star is_space;
     plus not_newline].

(** [parse_course_body(block)]; [block_text] is the value of
    [block.get_text(separator=" ")].  Group 1 is the item 16, and
    [prereq_m.start()] is the position of the match. *)
Definition parse_course_body (block_text : str) : str * option str :=
  let text := py_strip block_text in
  match re_search PREREQ_RE text with
  | Some (start, lens) =>
      let prereq_raw := py_strip (group_text text start lens 16 1) in
      (py_strip (take start text), Some prereq_raw)
  | None => (text, None)
  end.

(** An element of [soup.select("main p")]: the value of [p.get("class")],
    [None] without the attribute, and of [p.get_text(separator=" ")]. *)
Record block := {
  class_attr : option (list str);
  get_text : str
}.

(** The state of the loop of [scrape_department]: [courses] and
    [current_header]. *)
Abbreviation scrape_state := (list course * option course)%type.

(** One iteration of the loop over the paragraphs.  A header dict is not
    empty, so [current_header] is true when it is not [None]. *)
Definition scrape_block (st : scrape_state) (p : block) : raising scrape_state :=
  let '(courses, current_header) := st in
  let classes := default [] (class_attr p) in
  if str_in (lit "course-name") classes then
    current_header ← parse_course_header (get_text p);
    Return (courses, current_header)
  else
    match current_header with
    | Some header =>
        if str_in (lit "course-descriptions") classes then
          let '(description, prereq_raw) := parse_course_body (get_text p) in
          Return (courses ++ [{| code := code header;
                                 title := title header;
                                 units := units header;
                                 description := description;
                                 prereq_raw := prereq_raw |}],
                  None)
        else Return (courses, current_header)
    | None => Return (courses, current_header)
    end.

Fixpoint scrape_blocks (ps : list block) (st : scrape_state)
  : raising scrape_state :=
  match ps with
  | [] => Return st
  | p :: ps' => st' ← scrape_block st p; scrape_blocks ps' st'
  end.

(** The courses [scrape_department] returns for a page whose paragraphs
    under [main] are [ps]; [fetch_live_courses] of [validate_audit] is the
    same loop. *)
Definition scrape_department (ps : list block) : raising (list course) :=
  st ← scrape_blocks ps ([], None);
  Return (fst st).

(** The loop of [main] over [dept_links]: the departments are scraped
    in order and their courses collected; [pages] holds the paragraphs
    of each department page.  [all_courses] is what [main] writes to
    [OUT_FILE]. *)
Fixpoint scrape_departments (pages : list (list block))
  : raising (list (list course)) :=
  match pages with
  | [] => Return []
  | ps :: pages' =>
      courses ← scrape_department ps;
      rest ← scrape_departments pages';
      Return (courses :: rest)
  end.

Definition main (pages : list (list block)) : raising (list course) :=
  scraped ← scrape_departments pages;
  Return (collect_departments code scraped).

End scrape_catalog.

(** ** The pairing of headers and bodies *)

(** [name in classes] *)
Definition has_class (name : str) (p : scrape_catalog.block) : bool :=
  str_in name (default [] (scrape_catalog.class_attr p)).

(** The paragraphs the two branches of the loop of [scrape_department]
    are for. *)
Definition is_name (p : scrape_catalog.block) : bool :=
  has_class (lit "course-name") p.

Definition is_description (p : scrape_catalog.block) : bool :=
  negb (is_name p) && has_class (lit "course-descriptions") p.

(** The header [h] completed by the body [pd]. *)
Definition complete (h : scrape_catalog.course) (pd : scrape_catalog.block)
  : scrape_catalog.course :=
  {| scrape_catalog.code := scrape_catalog.code h;
     scrape_catalog.title := scrape_catalog.title h;
     scrape_catalog.units := scrape_catalog.units h;
     scrape_catalog.description :=
       fst (scrape_catalog.parse_course_body (scrape_catalog.get_text pd));
     scrape_catalog.prereq_raw :=
       snd (scrape_catalog.parse_course_body (scrape_catalog.get_text pd)) |}.

(** [pn] is a name paragraph with the header [h], and no name or
    description paragraph is among [mid], the paragraphs after it. *)
Definition open_header (pn : scrape_catalog.block)
    (mid : list scrape_catalog.block) (h : scrape_catalog.course) : Prop :=
  is_name pn = true
  /\ scrape_catalog.parse_course_header (scrape_catalog.get_text pn)
     = scrape_catalog.Return (Some h)
  /\ forallb (fun p => negb (is_name p) && negb (is_description p)) mid = true.

(** The course [c] is a parsed header of the page [ps] with the first
    description paragraph after it, no other name paragraph being in
    between. *)
Definition paired (ps : list scrape_catalog.block) (c : scrape_catalog.course)
  : Prop :=
  exists ps1 pn mid pd ps2 h,
    ps = ps1 ++ pn :: mid ++ pd :: ps2
    /\ open_header pn mid h
    /\ is_description pd = true
    /\ c = complete h pd.

(** A course of [courses.json], written by the scraper, as
    [parse_prereqs.main] loads it: without [prereq_structured]. *)
Definition load_course (c : scrape_catalog.course) : Course :=
  {| code := scrape_catalog.code c;
     prereq_raw := scrape_catalog.prereq_raw c;
     prereq_structured := None |}.

(** ** What a match is *)

(** The repetitions [ks] are admissible for the atoms [r] on [s]: each
    atom takes a number of characters of its class within its bounds. *)
Fixpoint atoms_fit (r : list atom) (ks : list nat) (s : str) : Prop :=
  match r, ks with
  | [], [] => True
  | a :: r', k :: ks' => lo a <= k <= greedy a s /\ atoms_fit r' ks' (drop k s)
  | _, _ => False
  end.

(** The same for items, whatever the order in which the matcher tries
    the repetitions. *)
Fixpoint fits (r : list item) (lens : list nat) (s : str) : Prop :=
  match r, lens with
  | [], [] => True
  | Greedy a :: r', k :: lens' | Lazy a :: r', k :: lens' =>
      lo a <= k <= greedy a s /\ fits r' lens' (drop k s)
  | Optional body :: r', k :: lens' =>
      (k = 0 \/ exists ks, atoms_fit body ks s /\ k = sum_list ks)
      /\ fits r' lens' (drop k s)
  | _, _ => False
  end.

(** The letters of a code after its digits. *)
Definition suffix_letters (code : str) : str :=
  lstrip is_digit (number_part code).

(** ** [validate_audit.main] *)

Module validate_audit.

(** [{c["code"]: c for c in courses}]: a later course replaces an
    earlier one of the same code. *)
Definition by_code (courses : list scrape_catalog.course)
  : gmap str scrape_catalog.course :=
  fold_left (fun m c => <[scrape_catalog.code c := c]> m) courses ∅.

(** [{c["code"] for c in live}] *)
Definition codes_of (live : list scrape_catalog.course) : gset str :=
  list_to_set (map scrape_catalog.code live).

(** The three comparisons of a live course [e] with our course [o].
    The units are numbers on both sides, so their [str] differ when they
    do. *)
Definition title_differs (e o : scrape_catalog.course) : bool :=
  negb (bool_decide (normalize (Some (scrape_catalog.title e))
                     = normalize (Some (scrape_catalog.title o)))).

Definition units_differ (e o : scrape_catalog.course) : bool :=
  negb (bool_decide (scrape_catalog.units e = scrape_catalog.units o)).

Definition prereq_differs (e o : scrape_catalog.course) : bool :=
  negb (bool_decide (normalize (scrape_catalog.prereq_raw e)
                     = normalize (scrape_catalog.prereq_raw o))).

(** The numbers of a department page: [len(missing)],
    [len(title_mismatch)], [len(units_mismatch)] and
    [len(prereq_mismatch)]. *)
Record counts := {
  missing : nat;
  title_mismatch : nat;
  units_mismatch : nat;
  prereq_mismatch : nat
}.

(** The body of the loop over the department pages, for the courses
    [live] of a page.  A code of [our_codes_on_page] is a key of both
    dicts, so the two lookups succeed. *)
Definition audit_page (our_by_code : gmap str scrape_catalog.course)
    (live : list scrape_catalog.course) : counts :=
  let expected_codes := codes_of live in
  let expected_by_code := by_code live in
  let missing := expected_codes ∖ dom our_by_code in
  let our_codes_on_page := expected_codes ∩ dom our_by_code in
  let mismatches
        (differs : scrape_catalog.course -> scrape_catalog.course -> bool) :=
    length (List.filter
              (fun code =>
                 match expected_by_code !! code, our_by_code !! code with
                 | Some e, Some o => differs e o
                 | _, _ => false
                 end)
              (elements our_codes_on_page)) in
  {| missing := size missing;
     title_mismatch := mismatches title_differs;
     units_mismatch := mismatches units_differ;
     prereq_mismatch := mismatches prereq_differs |}.

(** The totals over the pages, and [len(extra_in_ours)]; [lives] holds
    the courses [fetch_live_courses] returns for each department page. *)
Definition totals (our_courses : list scrape_catalog.course)
    (lives : list (list scrape_catalog.course)) : counts * nat :=
  let our_by_code := by_code our_courses in
  let pages := map (audit_page our_by_code) lives in
  let all_expected_codes : gset str := ⋃ (map codes_of lives) in
  let extra_in_ours := dom our_by_code ∖ all_expected_codes in
  ({| missing := sum_list (map missing pages);
      title_mismatch := sum_list (map title_mismatch pages);
      units_mismatch := sum_list (map units_mismatch pages);
      prereq_mismatch := sum_list (map prereq_mismatch pages) |},
   size extra_in_ours).

(** The value [main] returns, the exit status of the audit. *)
Definition main (our_courses : list scrape_catalog.course)
    (lives : list (list scrape_catalog.course)) : nat :=
  let '(total, extra_in_ours) := totals our_courses lives in
  if bool_decide (missing total = 0 /\ extra_in_ours = 0
                  /\ title_mismatch total = 0 /\ units_mismatch total = 0)
  then 0 else 1.

End validate_audit.

(** ** Characters *)

Ltac all_chars c :=
  destruct c as [[] [] [] [] [] [] [] []]; vm_compute; intuition congruence.

Lemma upper_facts c :
  is_upper c = true ->
  is_space c = false /\ is_punct c = false /\ is_digit c = false
  /\ Ascii.eqb c " " = false /\ Ascii.eqb c "010" = false
  /\ is_alpha c = true.
Proof. all_chars c. Qed.

Lemma digit_facts c :
  is_digit c = true ->
  is_space c = false /\ is_punct c = false /\ is_upper c = false
  /\ Ascii.eqb c " " = false /\ Ascii.eqb c "010" = false
  /\ is_alpha c = false.
Proof. all_chars c. Qed.

Lemma alpha_facts c :
  is_alpha c = true ->
  is_space c = false /\ is_punct c = false /\ is_digit c = false
  /\ Ascii.eqb c "010" = false /\ (is_upper c = true \/ is_lower c = true).
Proof. all_chars c. Qed.

Lemma lower_facts c :
  is_lower c = true -> is_upper c = false /\ is_alpha c = true.
Proof. all_chars c. Qed.

Ltac list_eq :=
  repeat (rewrite <- ?app_assoc; simpl); try done.

Ltac list_len :=
  repeat (rewrite ?length_app; simpl); try lia.

(** ** Stripping *)

Lemma lstrip_all p s : forallb p s = true -> lstrip p s = [].
Proof.
  induction s as [|c s IH]; simpl; [done|].
  intros [Hc Hs]%andb_prop. rewrite Hc. auto.
Qed.

Lemma lstrip_stop p x c y :
  p c = false -> lstrip p (x ++ c :: y) = lstrip p x ++ c :: y.
Proof.
  intros Hc. induction x as [|a x IH]; simpl.
  - by rewrite Hc.
  - destruct (p a); [apply IH | done].
Qed.

Lemma lstrip_idem p s : lstrip p (lstrip p s) = lstrip p s.
Proof.
  induction s as [|c s IH]; simpl; [done|].
  destruct (p c) eqn:Hc; [done|]. simpl. by rewrite Hc.
Qed.

Lemma lstrip_suffix p s : exists pre, s = pre ++ lstrip p s.
Proof.
  induction s as [|c s [pre IH]]; simpl; [by exists []|].
  destruct (p c); [|by exists []].
  exists (c :: pre). simpl. by rewrite <- IH.
Qed.

Lemma rstrip_prefix p s : exists suf, s = rstrip p s ++ suf.
Proof.
  unfold rstrip. destruct (lstrip_suffix p (rev s)) as [pre H].
  exists (rev pre). rewrite <- rev_app_distr, <- H. by rewrite rev_involutive.
Qed.

Lemma rstrip_stop p x c y :
  p c = false -> rstrip p (x ++ c :: y) = x ++ c :: rstrip p y.
Proof.
  intros Hc. unfold rstrip.
  rewrite rev_app_distr. simpl. rewrite <- app_assoc. simpl.
  rewrite lstrip_stop by done.
  rewrite rev_app_distr. simpl. rewrite rev_involutive.
  by rewrite <- app_assoc.
Qed.

Lemma py_strip_blank s : forallb is_space s = true -> py_strip s = [].
Proof. intros H. unfold py_strip. by rewrite lstrip_all. Qed.

Lemma contains_app x s t :
  contains x (s ++ t) = contains x s || contains x t.
Proof. unfold contains. apply existsb_app. Qed.

Lemma contains_lstrip x p s : contains x s = false -> contains x (lstrip p s) = false.
Proof.
  destruct (lstrip_suffix p s) as [pre H]. intros Hs.
  rewrite H, contains_app in Hs. by apply orb_false_elim in Hs as [_ ?].
Qed.

Lemma contains_rstrip x p s : contains x s = false -> contains x (rstrip p s) = false.
Proof.
  destruct (rstrip_prefix p s) as [suf H]. intros Hs.
  rewrite H, contains_app in Hs. by apply orb_false_elim in Hs as [? _].
Qed.

Lemma before_first_app x s t :
  contains x s = false -> before_first x (s ++ x :: t) = s.
Proof.
  induction s as [|c s IH]; simpl.
  - intros _. by rewrite Ascii.eqb_refl.
  - intros [Hc Hs]%orb_false_elim. rewrite Ascii.eqb_sym, Hc.
    by rewrite IH.
Qed.

(** ** The matcher *)

Lemma backtrack_Some {R} (try : nat -> option R) lo k r :
  backtrack try lo k = Some r -> exists j, lo <= j <= k /\ try j = Some r.
Proof.
  induction k as [|k IH]; simpl.
  - destruct (Nat.ltb_spec 0 lo); [done|].
    destruct (try 0) eqn:E; [|done]. intros [= ->]. exists 0. split; [lia|done].
  - destruct (Nat.ltb_spec (S k) lo); [done|].
    destruct (try (S k)) eqn:E.
    + intros [= ->]. exists (S k). split; [lia|done].
    + intros (j & Hj & Hr)%IH. exists j. split; [lia|done].
Qed.

Lemma backtrack_first {R} (try : nat -> option R) lo k r :
  lo <= k -> try k = Some r -> backtrack try lo k = Some r.
Proof.
  intros Hk Hr. destruct k; simpl.
  - destruct (Nat.ltb_spec 0 lo); [lia|]. by rewrite Hr.
  - destruct (Nat.ltb_spec (S k) lo); [lia|]. by rewrite Hr.
Qed.

Lemma backtrack_below {R} (try : nat -> option R) lo k :
  k < lo -> backtrack try lo k = None.
Proof.
  intros Hk. destruct k; simpl.
  - destruct (Nat.ltb_spec 0 lo); [done|lia].
  - destruct (Nat.ltb_spec (S k) lo); [done|lia].
Qed.

Lemma run_length_take p s j :
  j <= run_length p s -> forallb p (take j s) = true /\ length (take j s) = j.
Proof.
  revert j. induction s as [|c s IH]; intros j; simpl.
  - intros Hj. assert (j = 0) as -> by lia. done.
  - destruct (p c) eqn:Hc.
    + destruct j as [|j]; simpl; [done|]. intros Hj.
      destruct (IH j) as [H1 H2]; [lia|]. rewrite Hc, H1, H2. done.
    + intros Hj. assert (j = 0) as -> by lia. done.
Qed.

Lemma run_length_all p d s :
  forallb p d = true -> run_length p (d ++ s) = length d + run_length p s.
Proof.
  induction d as [|c d IH]; simpl; [done|].
  intros [Hc Hd]%andb_prop. rewrite Hc. by rewrite IH.
Qed.

Lemma run_length_all_nil p d :
  forallb p d = true -> run_length p d = length d.
Proof.
  intros H. rewrite <- (app_nil_r d) at 1. rewrite run_length_all by done.
  simpl. lia.
Qed.

Lemma run_length_stop p d c s :
  forallb p d = true -> p c = false -> run_length p (d ++ c :: s) = length d.
Proof.
  intros Hd Hc. rewrite run_length_all by done. simpl. rewrite Hc. lia.
Qed.

Lemma greedy_le_run a s : greedy a s <= run_length (cls a) s.
Proof. unfold greedy. destruct (hi a); lia. Qed.

Lemma greedy_le_hi a s h : hi a = Some h -> greedy a s <= h.
Proof. unfold greedy. intros ->. lia. Qed.

(** What a successful match of a quantified class followed by [r] is made
    of. *)
Lemma match_atoms_cons a r d s n :
  match_atoms (a :: r) d s = Some n ->
  exists pre rest m,
    s = pre ++ rest /\ lo a <= length pre
    /\ (forall h, hi a = Some h -> length pre <= h)
    /\ forallb (cls a) pre = true
    /\ match_atoms r d rest = Some m /\ n = length pre + m.
Proof.
  simpl. intros (j & [Hlo Hhi] & Hj)%backtrack_Some.
  destruct (match_atoms r d (drop j s)) as [m|] eqn:Hm; [|done].
  injection Hj as <-.
  pose proof (greedy_le_run a s) as Hrun.
  destruct (run_length_take (cls a) s j) as [Hall Hlen]; [lia|].
  exists (take j s), (drop j s), m.
  rewrite take_drop, Hlen. repeat split; try done.
  intros h Hh. pose proof (greedy_le_hi a s h Hh). lia.
Qed.

Lemma match_atoms_nil d s n :
  match_atoms [] d s = Some n -> n = 0 /\ (d = true -> at_end s = true).
Proof.
  simpl. destruct d.
  - destruct (at_end s); [|done]. by intros [= <-].
  - intros [= <-]. done.
Qed.

(** A pattern whose first class needs one character does not match a text
    that starts outside the class, nor the empty text. *)
Lemma match_atoms_no_start a r d c s :
  1 <= lo a -> cls a c = false -> match_atoms (a :: r) d (c :: s) = None.
Proof.
  intros Hlo Hc. simpl. apply backtrack_below.
  pose proof (greedy_le_run a (c :: s)) as H. simpl in H. rewrite Hc in H. lia.
Qed.

Lemma forallb_one_char x l :
  forallb (is_char x) l = true -> length l = 1 -> l = [x].
Proof.
  destruct l as [|c [|??]]; simpl; try done.
  rewrite andb_true_r. unfold is_char. by intros ->%Ascii.eqb_eq.
Qed.

(** A match of the code pattern is a department, a space, a number and
    uppercase letters. *)
Lemma course_code_match s n :
  re_match COURSE_CODE_RE s = Some n ->
  exists d ds x rest,
    s = (d ++ " "%char :: ds ++ x) ++ rest
    /\ n = length (d ++ " "%char :: ds ++ x)
    /\ 2 <= length d <= 4 /\ forallb is_upper d = true
    /\ 1 <= length ds /\ forallb is_digit ds = true
    /\ forallb is_upper x = true.
Proof.
  unfold re_match. simpl atoms. simpl dollar.
  intros (d & r1 & n1 & -> & Hd1 & Hd2 & Hd & H1 & ->)%match_atoms_cons.
  apply match_atoms_cons in H1 as (sp & r2 & n2 & -> & Hs1 & Hs2 & Hsp & H2 & ->).
  apply match_atoms_cons in H2 as (ds & r3 & n3 & -> & Hn1 & _ & Hds & H3 & ->).
  apply match_atoms_cons in H3 as (x & rest & n4 & -> & _ & _ & Hx & H4 & ->).
  apply match_atoms_nil in H4 as [-> _].
  simpl in *. specialize (Hd2 4 eq_refl). specialize (Hs2 1 eq_refl).
  apply forallb_one_char in Hsp as ->; [|lia].
  exists d, ds, x, rest. repeat split; try done; try lia.
  - list_eq.
  - list_len.
Qed.

(** ** The grammar *)

Lemma code_shape d ds x :
  forallb is_upper d = true -> forallb is_digit ds = true ->
  match x with c :: _ => is_digit c = false | [] => True end ->
  run_length is_upper (d ++ " "%char :: ds ++ x) = length d
  /\ drop (length d) (d ++ " "%char :: ds ++ x) = " "%char :: ds ++ x
  /\ run_length is_digit (ds ++ x) = length ds
  /\ drop (length ds) (ds ++ x) = x.
Proof.
  intros Hd Hds Hx. repeat split.
  - by apply run_length_stop.
  - apply drop_app_length.
  - destruct x as [|c x].
    + rewrite app_nil_r. by apply run_length_all_nil.
    + by apply run_length_stop.
  - apply drop_app_length.
Qed.

Lemma upper_head_not_digit x :
  forallb is_upper x = true ->
  match x with c :: _ => is_digit c = false | [] => True end.
Proof.
  destruct x as [|c x]; simpl; [done|].
  intros [Hc _]%andb_prop. by apply upper_facts in Hc as (_ & _ & ? & _).
Qed.

Lemma extracted_is_course_code code :
  extracted_code code -> is_course_code code = true.
Proof.
  intros (d & ds & x & -> & [Hd1 Hd2] & Hd & Hn & Hds & Hx).
  destruct (code_shape d ds x Hd Hds (upper_head_not_digit x Hx))
    as (E1 & E2 & E3 & E4).
  unfold is_course_code. rewrite E1, E2, E3, E4, Hx.
  assert ((2 <=? length d)%nat = true) as -> by (apply Nat.leb_le; lia).
  assert ((length d <=? 4)%nat = true) as -> by (apply Nat.leb_le; lia).
  assert ((1 <=? length ds)%nat = true) as -> by (apply Nat.leb_le; lia).
  done.
Qed.

Lemma parsed_is_parsed_code code :
  parsed_code code -> is_parsed_code code = true.
Proof.
  intros (d & ds & x & -> & [Hd1 Hd2] & Hd & Hn & Hds & Hx).
  assert (match x with c :: _ => is_digit c = false | [] => True end) as Hx'.
  { destruct Hx as [Hx | (c & -> & Hc)]; [by apply upper_head_not_digit|].
    apply lower_facts in Hc as [_ Hc]. by apply alpha_facts in Hc as (_ & _ & ? & _). }
  destruct (code_shape d ds x Hd Hds Hx') as (E1 & E2 & E3 & E4).
  unfold is_parsed_code. rewrite E1, E2, E3, E4.
  assert ((forallb is_upper x
           || match x with [c] => is_lower c | _ => false end) = true) as ->.
  { destruct Hx as [-> | (c & -> & ->)]; [done|]. apply orb_true_r. }
  assert ((2 <=? length d)%nat = true) as -> by (apply Nat.leb_le; lia).
  assert ((length d <=? 4)%nat = true) as -> by (apply Nat.leb_le; lia).
  assert ((1 <=? length ds)%nat = true) as -> by (apply Nat.leb_le; lia).
  done.
Qed.

(** The checkers accept nothing else. *)
Lemma code_parts_of_runs s sp t :
  drop (run_length is_upper s) s = sp :: t -> Ascii.eqb sp " " = true ->
  s = take (run_length is_upper s) s
        ++ " "%char :: take (run_length is_digit t) t
        ++ drop (run_length is_digit t) t
  /\ length (take (run_length is_upper s) s) = run_length is_upper s
  /\ forallb is_upper (take (run_length is_upper s) s) = true
  /\ length (take (run_length is_digit t) t) = run_length is_digit t
  /\ forallb is_digit (take (run_length is_digit t) t) = true.
Proof.
  intros Hdrop ->%Ascii.eqb_eq.
  destruct (run_length_take is_upper s (run_length is_upper s)) as [H1 H2];
    [done|].
  destruct (run_length_take is_digit t (run_length is_digit t)) as [H3 H4];
    [done|].
  repeat split; try done.
  by rewrite take_drop, <- Hdrop, take_drop.
Qed.

Lemma is_course_code_extracted code :
  is_course_code code = true -> extracted_code code.
Proof.
  unfold is_course_code.
  intros [[Hd1 Hd2]%andb_prop H]%andb_prop.
  apply Nat.leb_le in Hd1, Hd2.
  destruct (drop (run_length is_upper code) code) as [|sp t] eqn:Hdrop; [done|].
  apply andb_prop in H as [[Hsp Hn]%andb_prop Hx]. apply Nat.leb_le in Hn.
  destruct (code_parts_of_runs code sp t Hdrop Hsp) as (E & L1 & U & L2 & D).
  eexists _, _, _. split; [exact E|]. rewrite L1, L2. done.
Qed.

Lemma is_parsed_code_parsed code :
  is_parsed_code code = true -> parsed_code code.
Proof.
  unfold is_parsed_code.
  intros [[Hd1 Hd2]%andb_prop H]%andb_prop.
  apply Nat.leb_le in Hd1, Hd2.
  destruct (drop (run_length is_upper code) code) as [|sp t] eqn:Hdrop; [done|].
  apply andb_prop in H as [[Hsp Hn]%andb_prop Hx]. apply Nat.leb_le in Hn.
  destruct (code_parts_of_runs code sp t Hdrop Hsp) as (E & L1 & U & L2 & D).
  eexists _, _, _. split; [exact E|]. rewrite L1, L2.
  repeat split; try done.
  apply orb_prop in Hx as [Hx | Hx]; [by left|right].
  destruct (drop (run_length is_digit t) t) as [|c [|??]]; try done.
  by exists c.
Qed.

Lemma extracted_parsed code : extracted_code code -> parsed_code code.
Proof.
  intros (d & ds & x & H). exists d, ds, x. intuition.
Qed.

(** ** Scanning *)

Lemma cons_gap_matches c X : map snd (fst (cons_gap c X)) = map snd (fst X).
Proof. destruct X as [[|[g m] ms] tl]; done. Qed.

(** Every text reported by [scan] is a match of the pattern at its place. *)
Lemma scan_matches r s skip :
  Forall (fun m => exists t n, re_match r t = Some n /\ m = take n t)
    (map snd (fst (scan r skip s))).
Proof.
  revert skip. induction s as [|c s IH]; intros skip; simpl; [constructor|].
  destruct skip as [|k]; [|apply IH].
  destruct (re_match r (c :: s)) as [[|n]|] eqn:E.
  - rewrite cons_gap_matches. apply IH.
  - specialize (IH n). destruct (scan r n s) as [ms tl]. simpl in *.
    constructor; [|done]. exists (c :: s), (S n). done.
  - rewrite cons_gap_matches. apply IH.
Qed.

Lemma finditer_matches r s :
  Forall (fun m => exists t n, re_match r t = Some n /\ m = take n t)
    (finditer r s).
Proof. apply scan_matches. Qed.

(** A text without any character of the first class has no match. *)
Lemma scan_no_match a r d s :
  1 <= lo a -> forallb (fun c => negb (cls a c)) s = true ->
  scan (Regex (a :: r) d) 0 s = ([], s).
Proof.
  intros Hlo. induction s as [|c s IH]; simpl; [done|].
  intros [Hc Hs]%andb_prop. apply negb_true_iff in Hc.
  unfold re_match. simpl atoms. simpl dollar.
  rewrite match_atoms_no_start by done. by rewrite IH.
Qed.

Lemma re_sub_trailing_id s :
  forallb (fun c => negb (is_punct c)) s = true ->
  re_sub TRAILING_PUNCT_RE [] s = s.
Proof.
  intros H. unfold re_sub, TRAILING_PUNCT_RE.
  rewrite (scan_no_match (plus is_punct) [] true s); [done|simpl; lia|done].
Qed.

Lemma lstrip_id p s :
  match s with c :: _ => p c = false | [] => True end -> lstrip p s = s.
Proof. destruct s as [|c s]; simpl; [done|]. by intros ->. Qed.

Lemma rstrip_none p s :
  forallb (fun c => negb (p c)) s = true -> rstrip p s = s.
Proof.
  intros H. unfold rstrip. rewrite lstrip_id; [apply rev_involutive|].
  destruct (rev s) as [|c t] eqn:E; [done|].
  rewrite forallb_forall in H. apply negb_true_iff, H.
  apply in_rev. rewrite E. by left.
Qed.

Lemma forallb_impl (p q : ascii -> bool) s :
  (forall c, p c = true -> q c = true) ->
  forallb p s = true -> forallb q s = true.
Proof.
  intros Hpq. rewrite !forallb_forall. auto.
Qed.

(** The loop of [extract_course_codes] leaves a parsed code as it is. *)
Lemma normalize_parsed code :
  parsed_code code ->
  py_strip code = code /\ re_sub TRAILING_PUNCT_RE [] code = code.
Proof.
  intros (d & ds & x & -> & [Hd1 Hd2] & Hd & Hn & Hds & Hx).
  assert (forallb (fun c => negb (is_space c)) (ds ++ x) = true
          /\ forallb (fun c => negb (is_punct c)) (ds ++ x) = true) as [Hs Hp].
  { rewrite !forallb_app.
    assert (forall c, is_digit c = true ->
              negb (is_space c) = true /\ negb (is_punct c) = true) as Hdig.
    { intros c (-> & -> & _)%digit_facts. done. }
    assert (forall c, is_alpha c = true ->
              negb (is_space c) = true /\ negb (is_punct c) = true) as Halp.
    { intros c (-> & -> & _)%alpha_facts. done. }
    assert (forallb is_alpha x = true) as Hx'.
    { destruct Hx as [Hx | (c & -> & Hc)].
      - revert Hx. apply forallb_impl. intros c Hc. by apply upper_facts in Hc as (_&_&_&_&_&?).
      - simpl. apply lower_facts in Hc as [_ ->]. done. }
    split; apply andb_true_intro; split.
    - revert Hds. apply forallb_impl. intros c Hc. by apply Hdig.
    - revert Hx'. apply forallb_impl. intros c Hc. by apply Halp.
    - revert Hds. apply forallb_impl. intros c Hc. by apply Hdig.
    - revert Hx'. apply forallb_impl. intros c Hc. by apply Halp. }
  split.
  - unfold py_strip. rewrite lstrip_id.
    + destruct ds as [|n ds]; [simpl in Hn; lia|].
      simpl in Hs. apply andb_prop in Hs as [Hn0 Hs].
      replace (d ++ " "%char :: (n :: ds) ++ x) with ((d ++ [" "%char]) ++ n :: ds ++ x)
        by list_eq.
      rewrite rstrip_stop by by apply negb_true_iff.
      by rewrite rstrip_none.
    + destruct d as [|a d]; [simpl in Hd1; lia|]. simpl in *.
      apply andb_prop in Hd as [Ha _]. by apply upper_facts in Ha as (? & _).
  - apply re_sub_trailing_id. rewrite forallb_app. simpl.
    rewrite Hp, andb_true_r.
    revert Hd. apply forallb_impl. intros c (_ & -> & _)%upper_facts. done.
Qed.

(** ** Extraction *)

Lemma str_in_spec x l : str_in x l = true <-> x ∈ l.
Proof. unfold str_in. apply bool_decide_eq_true. Qed.

Lemma str_in_app x l k : str_in x (l ++ k) = str_in x l || str_in x k.
Proof.
  apply eq_true_iff_eq. rewrite orb_true_iff, !str_in_spec.
  apply elem_of_app.
Qed.

Lemma str_in_singleton x y : str_in x [y] = bool_decide (x = y).
Proof.
  apply eq_true_iff_eq. rewrite str_in_spec, bool_decide_eq_true.
  apply list_elem_of_singleton.
Qed.

Lemma filter_filter_and {A} (f g : A -> bool) l :
  List.filter f (List.filter g l) = List.filter (fun y => f y && g y) l.
Proof.
  induction l as [|x l IH]; simpl; [done|].
  destruct (g x); simpl; rewrite ?andb_true_r, ?andb_false_r.
  - destruct (f x); by rewrite IH.
  - done.
Qed.

Lemma filter_true {A} (f : A -> bool) l :
  (forall y, f y = true) -> List.filter f l = l.
Proof.
  intros H. induction l as [|x l IH]; simpl; [done|]. by rewrite H, IH.
Qed.

(** The loop without the normalization: a code is appended unless it is
    already collected. *)
Lemma add_new_first_occurrences l acc :
  fold_left (fun codes code => if str_in code codes then codes else codes ++ [code])
    l acc
  = acc ++ List.filter (fun y => negb (str_in y acc)) (first_occurrences l).
Proof.
  revert acc. induction l as [|x l IH]; intros acc; simpl.
  - by rewrite app_nil_r.
  - rewrite filter_filter_and. destruct (str_in x acc) eqn:Hx; simpl.
    + rewrite IH. f_equal. apply List.filter_ext. intros y.
      destruct (str_in y acc) eqn:Hy; simpl; [done|].
      symmetry. apply negb_true_iff, bool_decide_eq_false. intros ->. congruence.
    + rewrite IH, <- app_assoc. simpl. do 2 f_equal.
      apply List.filter_ext. intros y.
      by rewrite str_in_app, str_in_singleton, negb_orb.
Qed.

Lemma extract_fold ms acc :
  fold_left extract_step ms acc
  = fold_left (fun codes code => if str_in code codes then codes else codes ++ [code])
      (List.filter (fun code => negb (is_nil code)) (map normalize_code ms)) acc.
Proof.
  revert acc. induction ms as [|m ms IH]; intros acc; simpl; [done|].
  rewrite IH. unfold extract_step.
  destruct (is_nil (normalize_code m)); simpl; [done|].
  by destruct (str_in (normalize_code m) acc).
Qed.

Lemma extract_first_occurrences text :
  extract_course_codes text = first_occurrences (normalized_matches text).
Proof.
  unfold extract_course_codes. rewrite extract_fold, add_new_first_occurrences.
  simpl. by apply filter_true.
Qed.

Lemma first_occurrences_elem x l : x ∈ first_occurrences l <-> x ∈ l.
Proof.
  induction l as [|y l IH]; simpl; [done|].
  rewrite !elem_of_cons, <- IH, !list_elem_of_In, filter_In.
  rewrite negb_true_iff, bool_decide_eq_false.
  destruct (decide (x = y)); intuition.
Qed.

Lemma first_occurrences_NoDup l : NoDup (first_occurrences l).
Proof.
  induction l as [|y l IH]; simpl; constructor.
  - rewrite list_elem_of_In, filter_In, negb_true_iff, bool_decide_eq_false.
    intuition.
  - apply NoDup_ListNoDup, List.NoDup_filter. by apply NoDup_ListNoDup.
Qed.

Lemma take_app_exact {A} (l k : list A) : take (length l) (l ++ k) = l.
Proof. by rewrite take_app_length. Qed.

(** Every match of the code pattern has the parts of a code. *)
Lemma finditer_codes text :
  Forall extracted_code (finditer COURSE_CODE_RE text).
Proof.
  eapply Forall_impl; [apply finditer_matches|].
  intros m (t & n & Hm & ->).
  apply course_code_match in Hm
    as (d & ds & x & rest & -> & -> & Hd & Hd' & Hn & Hds & Hx).
  rewrite take_app_exact. by exists d, ds, x.
Qed.

Lemma normalized_matches_codes text :
  Forall extracted_code (normalized_matches text).
Proof.
  unfold normalized_matches. apply Forall_forall. intros code.
  rewrite list_elem_of_In, filter_In, in_map_iff.
  intros [(m & <- & Hm) _].
  pose proof (finditer_codes text) as H. rewrite Forall_forall in H.
  apply list_elem_of_In, H in Hm.
  unfold normalize_code.
  destruct (normalize_parsed m (extracted_parsed m Hm)) as [-> ->]. done.
Qed.

Lemma extract_course_codes_codes text :
  Forall extracted_code (extract_course_codes text).
Proof.
  rewrite extract_first_occurrences. apply Forall_forall. intros code.
  rewrite first_occurrences_elem.
  pose proof (normalized_matches_codes text) as H. rewrite Forall_forall in H.
  apply H.
Qed.

(** ** Departments and shorthand *)

Lemma split_fields_run d cur s :
  forallb (fun c => negb (is_space c)) d = true ->
  split_fields cur (d ++ s) = split_fields (rev d ++ cur) s.
Proof.
  revert cur. induction d as [|c d IH]; intros cur; simpl; [done|].
  intros [Hc Hd]%andb_prop. apply negb_true_iff in Hc. rewrite Hc.
  rewrite IH by done. by rewrite <- app_assoc.
Qed.

Lemma py_split_dept d tl :
  1 <= length d -> forallb (fun c => negb (is_space c)) d = true ->
  py_split (d ++ " "%char :: tl) = d :: py_split tl.
Proof.
  intros Hlen Hd. unfold py_split. rewrite split_fields_run by done.
  rewrite app_nil_r. simpl.
  destruct (rev d) as [|c r] eqn:E.
  - apply (f_equal (@length ascii)) in E. rewrite length_rev in E.
    simpl in E. lia.
  - by rewrite <- E, rev_involutive.
Qed.

Lemma upper_no_space d :
  forallb is_upper d = true -> forallb (fun c => negb (is_space c)) d = true.
Proof. apply forallb_impl. intros c (-> & _)%upper_facts. done. Qed.

Lemma upper_no_blank d :
  forallb is_upper d = true -> contains " " d = false.
Proof.
  induction d as [|c d IH]; [done|].
  change (forallb is_upper (c :: d)) with (is_upper c && forallb is_upper d).
  change (contains " " (c :: d)) with (Ascii.eqb " " c || contains " " d).
  intros [Hc Hd]%andb_prop. apply upper_facts in Hc as (_ & _ & _ & Hc & _).
  rewrite Ascii.eqb_sym, Hc. by apply IH.
Qed.

(** The department of a code, as the loop reads it and as the text before
    the space. *)
Lemma dept_of_code d tl :
  1 <= length d -> forallb is_upper d = true ->
  dept_prefix (d ++ " "%char :: tl) = d
  /\ index0 (py_split (d ++ " "%char :: tl)) = Ok d.
Proof.
  intros Hlen Hd. split.
  - apply before_first_app. by apply upper_no_blank.
  - rewrite py_split_dept; [done|done|]. by apply upper_no_space.
Qed.

Lemma parsed_code_dept code :
  parsed_code code ->
  2 <= length (dept_prefix code) <= 4
  /\ forallb is_upper (dept_prefix code) = true
  /\ index0 (py_split code) = Ok (dept_prefix code).
Proof.
  intros (d & ds & x & -> & Hd1 & Hd & _).
  destruct (dept_of_code d (ds ++ x)) as [-> ->]; [lia|done|done].
Qed.

Lemma at_end_inv s : at_end s = true -> s = [] \/ s = ["010"%char].
Proof.
  destruct s as [|c [|??]]; simpl; try done; [by left|].
  intros ->%Ascii.eqb_eq. by right.
Qed.

(** A text matched by the shorthand pattern is a number, at most one
    letter, and at most a final newline. *)
Lemma standalone_match s n :
  re_match STANDALONE_NUM_RE s = Some n ->
  exists ds l nl,
    s = ds ++ l ++ nl /\ 1 <= length ds /\ forallb is_digit ds = true
    /\ length l <= 1 /\ forallb is_alpha l = true
    /\ (nl = [] \/ nl = ["010"%char]).
Proof.
  unfold re_match. simpl atoms. simpl dollar.
  intros (ds & r1 & n1 & -> & Hn & _ & Hds & H1 & ->)%match_atoms_cons.
  apply match_atoms_cons in H1 as (l & nl & n2 & -> & _ & Hl & Hal & H2 & ->).
  apply match_atoms_nil in H2 as [_ Hend].
  exists ds, l, nl. repeat split; try done.
  - by apply (Hl 1).
  - by apply at_end_inv, Hend.
Qed.

(** The shorthand pattern matches a number followed by at most one
    letter. *)
Lemma standalone_match_shorthand ds l :
  1 <= length ds -> forallb is_digit ds = true ->
  length l <= 1 -> forallb is_alpha l = true ->
  re_match STANDALONE_NUM_RE (ds ++ l) = Some (length ds + length l).
Proof.
  intros Hn Hds Hl Hal. unfold re_match. simpl atoms. simpl dollar.
  assert (run_length is_digit (ds ++ l) = length ds) as Hrun.
  { destruct l as [|c l].
    - rewrite app_nil_r. by apply run_length_all_nil.
    - simpl in Hal. apply andb_prop in Hal as [Hc _].
      apply alpha_facts in Hc as (_ & _ & Hc & _). by apply run_length_stop. }
  cbn [match_atoms]. apply backtrack_first.
  - simpl. unfold greedy. simpl. lia.
  - assert (greedy (plus is_digit) (ds ++ l) = length ds) as -> by done.
    rewrite drop_app_length.
    destruct l as [|c [|??]]; [| |simpl in Hl; lia].
    + simpl. by rewrite Nat.add_0_r.
    + simpl in Hal. rewrite andb_true_r in Hal.
      unfold greedy. simpl. rewrite Hal. done.
Qed.

Lemma rstrip_drop p x c : p c = true -> rstrip p (x ++ [c]) = rstrip p x.
Proof.
  intros Hc. unfold rstrip. rewrite rev_app_distr. simpl. by rewrite Hc.
Qed.

(** [strip()] of a text matched by the shorthand pattern. *)
Lemma standalone_strip ds l nl :
  1 <= length ds -> forallb is_digit ds = true -> forallb is_alpha l = true ->
  nl = [] \/ nl = ["010"%char] ->
  py_strip (ds ++ l ++ nl) = ds ++ l.
Proof.
  intros Hn Hds Hal Hnl.
  assert (forallb (fun c => negb (is_space c)) (ds ++ l) = true) as Hs.
  { rewrite forallb_app. apply andb_true_intro. split.
    - revert Hds. apply forallb_impl. intros c (-> & _)%digit_facts. done.
    - revert Hal. apply forallb_impl. intros c (-> & _)%alpha_facts. done. }
  unfold py_strip. rewrite lstrip_id.
  - rewrite app_assoc. destruct Hnl as [-> | ->].
    + rewrite app_nil_r. by apply rstrip_none.
    + rewrite rstrip_drop by done. by apply rstrip_none.
  - destruct ds as [|c ds]; [simpl in Hn; lia|]. simpl in *.
    apply andb_prop in Hds as [Hc _]. by apply digit_facts in Hc as (? & _).
Qed.

(** ** The loop over the segments *)

Lemma index_last_last {A} (l : list A) x : last l = Some x -> index_last l = Ok x.
Proof.
  intros [l' ->]%last_Some. unfold index_last. by rewrite rev_app_distr.
Qed.

Lemma for_each_app {A S} (body : S -> A -> result S) l k st :
  for_each body (l ++ k) st = (st' ← for_each body l st; for_each body k st').
Proof.
  revert st. induction l as [|x l IH]; intros st; simpl; [done|].
  destruct (body st x); simpl; [apply IH|done].
Qed.

Lemma alpha_suffix l :
  length l <= 1 -> forallb is_alpha l = true ->
  forallb is_upper l = true \/ exists c, l = [c] /\ is_lower c = true.
Proof.
  destruct l as [|c [|??]]; simpl; [by left| |lia].
  rewrite andb_true_r. intros _ Hc.
  apply alpha_facts in Hc as (_ & _ & _ & _ & [Hc|Hc]).
  - left. by rewrite Hc.
  - right. by exists c.
Qed.

(** The department of the last code appended, when the invariant holds and
    [last_dept] is set. *)
Lemma parse_inv_dept res d :
  parse_inv (res, Some d) ->
  exists g code,
    last res = Some g /\ last g = Some code /\ d = dept_prefix code
    /\ 2 <= length d <= 4 /\ forallb is_upper d = true.
Proof.
  intros [Hres Hld]. simpl in *.
  destruct (last res) as [g|] eqn:Hg; [|done].
  destruct Hld as (code & Hcode & [= ->]).
  assert (parsed_code code) as Hp.
  { rewrite Forall_forall in Hres.
    apply last_Some_elem_of, Hres in Hg. rewrite Forall_forall in Hg.
    by apply Hg, last_Some_elem_of. }
  apply parsed_code_dept in Hp as (? & ? & _).
  by exists g, code.
Qed.

(** The state after a segment that bears codes. *)
Lemma parse_inv_append res codes code :
  Forall (Forall parsed_code) res -> Forall parsed_code codes ->
  last codes = Some code ->
  (last_code ← index_last codes;
   dept ← index0 (py_split last_code);
   Ok (res ++ [codes], Some dept))
  = Ok (res ++ [codes], Some (dept_prefix code))
  /\ parse_inv (res ++ [codes], Some (dept_prefix code)).
Proof.
  intros Hres Hcodes Hlast.
  rewrite (index_last_last _ _ Hlast). simpl.
  assert (parsed_code code) as Hp.
  { rewrite Forall_forall in Hcodes. by apply Hcodes, last_Some_elem_of. }
  apply parsed_code_dept in Hp as (_ & _ & ->). simpl.
  split; [done|]. split; simpl.
  - apply Forall_app. split; [done|]. by constructor.
  - rewrite last_snoc. by exists code.
Qed.

(** The shorthand rule of the loop, as the source tests it. *)
Lemma shorthand_rule_true ld s :
  truthy ld && bool_decide (is_Some (re_match STANDALONE_NUM_RE s)) = true ->
  exists d ds l nl,
    ld = Some d /\ 1 <= length d
    /\ s = ds ++ l ++ nl /\ 1 <= length ds /\ forallb is_digit ds = true
    /\ length l <= 1 /\ forallb is_alpha l = true
    /\ (nl = [] \/ nl = ["010"%char]).
Proof.
  intros [Htr Hm]%andb_prop. apply bool_decide_eq_true in Hm as [n Hm].
  apply standalone_match in Hm as (ds & l & nl & H).
  destruct ld as [[|a d]|]; try done.
  exists (a :: d), ds, l, nl. split; [done|]. split; [simpl; lia|done].
Qed.

(** One iteration keeps the invariant and does not raise. *)
Lemma parse_segment_inv st seg :
  parse_inv st -> exists st', parse_segment st seg = Ok st' /\ parse_inv st'.
Proof.
  destruct st as [res ld]. intros Hinv. unfold parse_segment.
  destruct (is_nil (py_strip seg)); [by eexists|].
  pose proof (extract_course_codes_codes (py_strip seg)) as Hcodes.
  destruct (extract_course_codes (py_strip seg)) as [|c0 cs].
  - cbn [is_nil andb].
    destruct (truthy ld && bool_decide _) eqn:Hcond; [|by eexists].
    apply shorthand_rule_true
      in Hcond as (d & ds & l & nl & -> & Hd & Hs & Hn & Hds & Hl & Hal & Hnl).
    rewrite Hs, standalone_strip by done.
    destruct (parse_inv_dept res d Hinv) as (g & code & Hg & Hcode & -> & Hlen & Hup).
    set (new := dept_prefix code ++ " "%char :: ds ++ l).
    assert (parsed_code new) as Hnew.
    { exists (dept_prefix code), ds, l. repeat split; try done; try lia.
      by apply alpha_suffix. }
    destruct (parse_inv_append res [new] new)
      as [Heq Hinv']; [apply Hinv|by constructor|done|].
    exists (res ++ [[new]], Some (dept_prefix new)). split; [|done].
    cbn [default is_nil]. fold new. exact Heq.
  - cbn [is_nil andb].
    destruct (last (c0 :: cs)) as [code|] eqn:Hlast.
    2:{ by apply last_None in Hlast. }
    destruct (parse_inv_append res (c0 :: cs) code) as [Heq Hinv'];
      [apply Hinv| |done|].
    { eapply Forall_impl; [exact Hcodes|]. apply extracted_parsed. }
    by eexists.
Qed.

Lemma for_each_parse_inv segs st :
  parse_inv st ->
  exists st', for_each parse_segment segs st = Ok st' /\ parse_inv st'.
Proof.
  revert st. induction segs as [|seg segs IH]; intros st Hinv; simpl.
  - by exists st.
  - destruct (parse_segment_inv st seg Hinv) as (st1 & -> & Hinv1). simpl.
    by apply IH.
Qed.

Lemma parse_inv_init : parse_inv ([], None).
Proof. split; simpl; [constructor|done]. Qed.

(** ** The edge compiler *)

Lemma fold_left_flat {A B} (step : list B -> A -> list B) (f : A -> list B) l acc :
  (forall acc x, step acc x = acc ++ f x) ->
  fold_left step l acc = acc ++ flat_map f l.
Proof.
  intros Hstep. revert acc. induction l as [|x l IH]; intros acc; simpl.
  - by rewrite app_nil_r.
  - by rewrite IH, Hstep, <- app_assoc.
Qed.

(** The three nested loops as a concatenation. *)
Lemma build_prereq_edges_flat cs :
  build_prereq_edges cs = flat_map (course_edges (code_index cs)) cs.
Proof.
  unfold build_prereq_edges.
  rewrite (fold_left_flat _ (course_edges (code_index cs))); [done|].
  intros acc c. unfold course_edges, course_edges_from, enumerate, structure_of.
  apply fold_left_flat. intros acc' [i g]. unfold group_edges. simpl.
  rewrite (fold_left_flat _
             (fun s => if known (code_index cs) s
                       then [Build_Edge s (code c) i] else [])).
  - f_equal. induction g as [|s g IH]; simpl; [done|].
    destruct (known (code_index cs) s); simpl; by rewrite IH.
  - intros acc'' s. destruct (known (code_index cs) s); [done|].
    by rewrite app_nil_r.
Qed.

Lemma code_index_lookup (cs : list Course) (m : gmap str Course) (s : str) :
  is_Some (fold_left (fun m c => <[code c := c]> m) cs m !! s)
  <-> is_Some (m !! s) \/ s ∈ map code cs.
Proof.
  revert m. induction cs as [|c cs IH]; intros m; simpl.
  - rewrite elem_of_nil. tauto.
  - rewrite IH, elem_of_cons, lookup_insert_is_Some.
    destruct (decide (code c = s)); intuition congruence.
Qed.

(** The keys of [code_to_course] are the codes of the courses. *)
Lemma known_is_key cs s : known (code_index cs) s = is_key cs s.
Proof.
  unfold known, is_key, code_index. apply bool_decide_ext.
  rewrite code_index_lookup, lookup_empty.
  split; [intros [[? ?]|?]; done | by right].
Qed.

Lemma filter_flat_map {A B} (f : B -> bool) (g : A -> list B) l :
  List.filter f (flat_map g l) = flat_map (fun x => List.filter f (g x)) l.
Proof.
  induction l as [|x l IH]; simpl; [done|].
  by rewrite List.filter_app, IH.
Qed.

Lemma flat_map_nil {A B} (f : A -> list B) l :
  (forall x, x ∈ l -> f x = []) -> flat_map f l = [].
Proof.
  induction l as [|x l IH]; intros H; simpl; [done|].
  rewrite H by left. apply IH. intros y Hy. apply H. by right.
Qed.

Lemma filter_group_edges m t i t' i' g :
  List.filter (in_group t i) (group_edges m t' i' g)
  = if bool_decide (t' = t) && (i' =? i)%nat then group_edges m t' i' g else [].
Proof.
  unfold group_edges.
  induction (List.filter (known m) g) as [|s l IH]; simpl.
  - by destruct (_ && _).
  - rewrite IH. unfold in_group. simpl.
    by destruct (bool_decide (t' = t) && (i' =? i)%nat).
Qed.

Lemma filter_course_edges_other m c t i k st :
  code c <> t -> List.filter (in_group t i) (course_edges_from m c k st) = [].
Proof.
  intros Hne. unfold course_edges_from. rewrite filter_flat_map.
  apply flat_map_nil. intros [i' g] _. simpl.
  rewrite filter_group_edges. by rewrite bool_decide_eq_false_2.
Qed.

Lemma filter_course_edges_same m c i k st :
  List.filter (in_group (code c) i) (course_edges_from m c k st)
  = if (k <=? i)%nat then group_edges m (code c) i (nth (i - k) st []) else [].
Proof.
  unfold course_edges_from. rewrite filter_flat_map.
  revert k. induction st as [|g st IH]; intros k.
  - simpl. destruct (k <=? i)%nat; [|done]. by destruct (i - k).
  - cbn [enumerate_from flat_map fst snd].
    rewrite filter_group_edges, IH, bool_decide_eq_true_2 by done.
    cbn [andb].
    destruct (Nat.eqb_spec k i) as [->|Hne].
    + rewrite Nat.leb_refl, Nat.sub_diag.
      destruct (Nat.leb_spec (S i) i); [lia|]. by rewrite app_nil_r.
    + destruct (Nat.leb_spec (S k) i), (Nat.leb_spec k i); try lia; [|done].
      by replace (i - k) with (S (i - S k)) by lia.
Qed.

(** With unique codes, the edges into a course with a given index come
    from that course's group of this index. *)
Lemma filter_edges_of_course m cs c i :
  NoDup (map code cs) -> c ∈ cs ->
  List.filter (in_group (code c) i) (flat_map (course_edges m) cs)
  = group_edges m (code c) i (nth i (structure_of c) []).
Proof.
  intros Hnd Hc. rewrite filter_flat_map.
  induction cs as [|a cs IH]; [by apply elem_of_nil in Hc|].
  simpl in Hnd. apply NoDup_cons in Hnd as [Ha Hnd]. simpl.
  apply elem_of_cons in Hc as [<- | Hc].
  - unfold course_edges at 1. rewrite filter_course_edges_same. simpl.
    rewrite Nat.sub_0_r, flat_map_nil; [by rewrite app_nil_r|].
    intros c' Hc'. apply filter_course_edges_other. intros Heq.
    apply Ha. rewrite <- Heq. by apply list_elem_of_fmap_2.
  - unfold course_edges at 1. rewrite filter_course_edges_other.
    + by apply IH.
    + intros Heq. apply Ha. rewrite Heq. by apply list_elem_of_fmap_2.
Qed.

Lemma group_edges_sources m t i g :
  map source (group_edges m t i g) = List.filter (known m) g.
Proof.
  unfold group_edges. rewrite map_map. simpl. apply map_id.
Qed.

Lemma group_sources_spec cs c i :
  NoDup (map code cs) -> c ∈ cs ->
  group_sources (build_prereq_edges cs) (code c) i
  = List.filter (is_key cs) (nth i (structure_of c) []).
Proof.
  intros Hnd Hc. unfold group_sources.
  rewrite build_prereq_edges_flat, filter_edges_of_course by done.
  rewrite group_edges_sources. apply List.filter_ext. apply known_is_key.
Qed.

Lemma in_enumerate_from {A} (st : list A) k i g :
  In (i, g) (enumerate_from k st) <-> k <= i /\ st !! (i - k) = Some g.
Proof.
  revert k. induction st as [|g0 st IH]; intros k; simpl.
  - split; [done|]. by intros [_ ?].
  - rewrite IH. split.
    + intros [[= <- <-] | [Hk Hg]].
      * rewrite Nat.sub_diag. done.
      * split; [lia|]. by replace (i - k) with (S (i - S k)) by lia.
    + intros [Hk Hg]. destruct (decide (k = i)) as [->|Hne].
      * rewrite Nat.sub_diag in Hg. left. by injection Hg as ->.
      * right. split; [lia|].
        by replace (i - k) with (S (i - S k)) in Hg by lia.
Qed.

Lemma in_group_edges m t i g e :
  In e (group_edges m t i g)
  <-> target e = t /\ or_group_index e = i
      /\ In (source e) g /\ known m (source e) = true.
Proof.
  unfold group_edges. rewrite in_map_iff. split.
  - intros (s & <- & [Hs Hk]%filter_In). done.
  - intros (<- & <- & Hs & Hk). exists (source e). split; [by destruct e|].
    by apply filter_In.
Qed.

Lemma in_build_prereq_edges cs e :
  e ∈ build_prereq_edges cs
  <-> exists c g,
        c ∈ cs /\ target e = code c
        /\ structure_of c !! or_group_index e = Some g
        /\ source e ∈ g /\ is_key cs (source e) = true.
Proof.
  rewrite build_prereq_edges_flat, list_elem_of_In, in_flat_map.
  unfold course_edges, course_edges_from. split.
  - intros (c & Hc & [[i g] [Hig He]]%in_flat_map).
    apply in_enumerate_from in Hig as [_ Hg]. rewrite Nat.sub_0_r in Hg.
    apply in_group_edges in He as (Ht & Hi & Hs & Hk). simpl in *. subst i.
    exists c, g. rewrite <- known_is_key, !list_elem_of_In. done.
  - intros (c & g & Hc & Ht & Hg & Hs & Hk). exists c.
    split; [by apply list_elem_of_In|].
    apply in_flat_map. exists (or_group_index e, g). split.
    + apply in_enumerate_from. split; [lia|by rewrite Nat.sub_0_r].
    + apply in_group_edges. simpl. rewrite known_is_key, <- list_elem_of_In. done.
Qed.

(** The copies of an edge are the occurrences of its source in its
    group. *)
Lemma count_in_group edges s t i :
  length (List.filter (fun e => bool_decide (e = Build_Edge s t i)) edges)
  = length (List.filter (fun x => bool_decide (x = s)) (group_sources edges t i)).
Proof.
  unfold group_sources. induction edges as [|[s' t' i'] edges IH]; [done|].
  cbn [List.filter]. unfold in_group at 1. cbn [target or_group_index].
  destruct (decide (t' = t)) as [->|Ht].
  - rewrite (bool_decide_eq_true_2 (t = t)) by done. cbn [andb].
    destruct (Nat.eqb_spec i' i) as [->|Hi].
    + cbn [map List.filter source].
      destruct (decide (s' = s)) as [->|Hs].
      * rewrite !bool_decide_eq_true_2 by done. simpl. by rewrite IH.
      * rewrite !bool_decide_eq_false_2; [done|done|congruence].
    + rewrite bool_decide_eq_false_2; [done|congruence].
  - rewrite (bool_decide_eq_false_2 (t' = t)) by done. cbn [andb].
    rewrite bool_decide_eq_false_2; [done|congruence].
Qed.

(** ** Truncation *)

Lemma parse_prereq_raw_clause raw :
  parse_prereq_raw (Some raw)
  = if is_nil raw || is_nil (py_strip raw) then Ok []
    else parse_clause
           (if contains ";" (py_strip raw)
            then py_strip (before_first ";" (py_strip raw))
            else py_strip raw).
Proof. done. Qed.

Lemma py_strip_nil_or raw :
  is_nil raw || is_nil (py_strip raw) = is_nil (py_strip raw).
Proof. by destruct raw. Qed.

Lemma parse_truncates x y :
  contains ";" x = false ->
  parse_prereq_raw (Some (x ++ ";"%char :: y)) = parse_prereq_raw (Some x).
Proof.
  intros Hx. rewrite !parse_prereq_raw_clause, !py_strip_nil_or.
  assert (py_strip (x ++ ";"%char :: y)
          = lstrip is_space x ++ ";"%char :: rstrip is_space y) as ->.
  { unfold py_strip. rewrite lstrip_stop by done. by rewrite rstrip_stop. }
  assert (is_nil (lstrip is_space x ++ ";"%char :: rstrip is_space y) = false)
    as -> by by destruct (lstrip is_space x).
  rewrite contains_app.
  assert (contains ";" (";"%char :: rstrip is_space y) = true) as -> by done.
  rewrite orb_true_r, before_first_app by by apply contains_lstrip.
  assert (py_strip (lstrip is_space x) = py_strip x) as ->.
  { unfold py_strip. by rewrite lstrip_idem. }
  assert (contains ";" (py_strip x) = false) as ->.
  { unfold py_strip. by apply contains_rstrip, contains_lstrip. }
  by destruct (py_strip x).
Qed.

(** ** Long uppercase runs *)

Lemma backtrack_all_None {R} (try : nat -> option R) lo k :
  (forall j, lo <= j <= k -> try j = None) -> backtrack try lo k = None.
Proof.
  induction k as [|k IH]; intros H; simpl.
  - destruct (Nat.ltb_spec 0 lo); [done|]. by rewrite H by lia.
  - destruct (Nat.ltb_spec (S k) lo); [done|]. rewrite H by lia.
    apply IH. intros j Hj. apply H. lia.
Qed.

(** The patterns of the module match no empty text. *)
Lemma match_atoms_nonempty a r d s n :
  1 <= lo a -> match_atoms (a :: r) d s = Some n -> 1 <= n.
Proof.
  intros Hlo (pre & rest & m & _ & Hpre & _ & _ & _ & ->)%match_atoms_cons. lia.
Qed.

Lemma module_patterns_nonempty r s n :
  r ∈ [COURSE_CODE_RE; STANDALONE_NUM_RE; TRAILING_PUNCT_RE; WHITESPACE_RE;
       AND_RE] ->
  re_match r s = Some n -> 1 <= n.
Proof.
  intros Hr. unfold re_match.
  repeat (apply elem_of_cons in Hr as [-> | Hr];
          [apply match_atoms_nonempty; simpl; lia|]).
  by apply elem_of_nil in Hr.
Qed.

Lemma scan_skip r s k : length s <= k -> scan r k s = ([], []).
Proof.
  revert k. induction s as [|c s IH]; intros k Hk; simpl; [done|].
  destruct k as [|k]; simpl in Hk; [lia|]. apply IH. lia.
Qed.

Lemma drop_in_run (p : ascii -> bool) (u rest : str) (j : nat) :
  forallb p u = true -> j < length u ->
  exists c tl, drop j (u ++ rest) = c :: tl /\ p c = true.
Proof.
  revert j. induction u as [|a u IH]; intros j; simpl; [lia|].
  intros [Ha Hu]%andb_prop Hj. destruct j as [|j]; simpl.
  - by exists a, (u ++ rest).
  - apply IH; [done|lia].
Qed.

(** Inside an uppercase run of five letters or more, the code pattern
    does not match at the start of the run: four letters are taken and no
    space follows. *)
Lemma course_code_no_match_long u rest :
  forallb is_upper u = true -> 5 <= length u ->
  re_match COURSE_CODE_RE (u ++ rest) = None.
Proof.
  intros Hu Hlen. unfold re_match. simpl atoms. simpl dollar.
  cbn [match_atoms]. apply backtrack_all_None. intros j [_ Hj].
  assert (j <= 4) as Hj4 by (etrans; [exact Hj|]; by apply greedy_le_hi).
  destruct (drop_in_run is_upper u rest j Hu) as (c & tl & -> & Hc); [lia|].
  apply upper_facts in Hc as (_ & _ & _ & Hc & _).
  pose proof (match_atoms_no_start (one (is_char " "))
                [plus is_digit; star is_upper] false c tl) as Hno.
  cbn [match_atoms] in Hno. rewrite Hno; [done|simpl; lia|done].
Qed.

(** The code pattern matches a department, a space and a number that end
    the text. *)
Lemma course_code_match_exact d ds :
  2 <= length d <= 4 -> forallb is_upper d = true ->
  1 <= length ds -> forallb is_digit ds = true ->
  re_match COURSE_CODE_RE (d ++ " "%char :: ds)
  = Some (length d + (1 + (length ds + 0))).
Proof.
  intros Hd Hup Hn Hds. unfold re_match. simpl atoms. simpl dollar.
  assert (run_length is_upper (d ++ " "%char :: ds) = length d) as Hrun
    by by apply run_length_stop.
  assert (run_length (is_char " ") (" "%char :: ds) = 1) as Hsp.
  { destruct ds as [|c ds]; [done|]. simpl in Hds.
    apply andb_prop in Hds as [Hc _].
    apply digit_facts in Hc as (_ & _ & _ & Hc & _).
    change (S (run_length (is_char " ") (c :: ds)) = 1).
    simpl. unfold is_char. by rewrite Hc. }
  assert (greedy (Atom is_upper 2 (Some 4)) (d ++ " "%char :: ds) = length d)
    as G1.
  { unfold greedy. cbn [hi cls]. rewrite Hrun. lia. }
  assert (greedy (one (is_char " ")) (" "%char :: ds) = 1) as G2.
  { unfold greedy. cbn [hi cls one]. by rewrite Hsp. }
  assert (greedy (plus is_digit) ds = length ds) as G3.
  { unfold greedy. cbn [hi cls plus]. by apply run_length_all_nil. }
  cbn [match_atoms]. rewrite G1.
  apply backtrack_first; [cbn [lo]; lia|].
  rewrite drop_app_length, G2.
  rewrite (backtrack_first _ _ 1 (1 + (length ds + 0))); [done|done|].
  change (drop 1 (" "%char :: ds)) with ds. rewrite G3.
  rewrite (backtrack_first _ _ (length ds) (length ds + 0)); [done|done|].
  by rewrite drop_all.
Qed.

Lemma scan_long_run pre d ds :
  forallb is_upper pre = true ->
  length d = 4 -> forallb is_upper d = true ->
  1 <= length ds -> forallb is_digit ds = true ->
  scan COURSE_CODE_RE 0 (pre ++ d ++ " "%char :: ds)
  = ([(pre, d ++ " "%char :: ds)], []).
Proof.
  intros Hpre Hd Hup Hn Hds. induction pre as [|a pre IH].
  - destruct d as [|c d]; [simpl in Hd; lia|].
    cbn [app scan].
    change (c :: d ++ " "%char :: ds) with ((c :: d) ++ " "%char :: ds).
    rewrite course_code_match_exact by (done || lia).
    rewrite Hd. cbn [Nat.add].
    rewrite scan_skip by (list_len; simpl in Hd; lia).
    by rewrite take_ge by (list_len; simpl in Hd; lia).
  - change ((a :: pre) ++ d ++ " "%char :: ds)
      with (a :: pre ++ d ++ " "%char :: ds).
    cbn [scan].
    replace (a :: pre ++ d ++ " "%char :: ds)
      with ((a :: pre ++ d) ++ " "%char :: ds) by list_eq.
    rewrite course_code_no_match_long.
    + simpl in Hpre. apply andb_prop in Hpre as [_ Hpre]. by rewrite IH.
    + simpl. simpl in Hpre. rewrite forallb_app.
      apply andb_prop in Hpre as [-> ->]. by rewrite Hup.
    + list_len.
Qed.

(** The step of the loop on a shorthand segment. *)
Lemma parse_segment_shorthand res d seg ds l :
  extract_course_codes (py_strip seg) = [] ->
  rstrip_punct (py_strip seg) = ds ++ l ->
  1 <= length ds -> forallb is_digit ds = true ->
  length l <= 1 -> forallb is_alpha l = true ->
  1 <= length d -> forallb is_upper d = true ->
  parse_segment (res, Some d) seg
  = Ok (res ++ [[d ++ " "%char :: ds ++ l]], Some d).
Proof.
  intros Hex Hseg Hn Hds Hl Hal Hd Hup.
  unfold parse_segment. cbv zeta.
  assert (is_nil (py_strip seg) = false) as ->.
  { destruct (py_strip seg); [|done]. destruct ds; [simpl in Hn; lia|done]. }
  rewrite Hex, Hseg. cbn [is_nil andb].
  rewrite standalone_match_shorthand by done.
  assert (truthy (Some d) = true) as ->.
  { destruct d; [simpl in Hd; lia|done]. }
  rewrite bool_decide_eq_true_2 by by eexists. cbn [andb default is_nil].
  assert (py_strip (ds ++ l) = ds ++ l) as ->.
  { rewrite <- (app_nil_r (ds ++ l)) at 1. rewrite <- app_assoc.
    apply standalone_strip; try done. by left. }
  unfold index_last, id. cbn [rev app mbind result_bind].
  destruct (dept_of_code d (ds ++ l) Hd Hup) as [_ ->].
  done.
Qed.

(** * Properties of the specification *)

(** ** Parsing examples *)

(** C1 fails of the code: on the sentence of the module docstring the
    parser does not return the two groups that the docstring gives for
    it; the clause after the semicolon is not kept. *)
Lemma semicolon_clause_not_kept :
  parse_prereq_raw (Some (lit "ECON 100A or ECON 120A or ECE 109; and MATH 20A"))
  <> Ok [[lit "ECON 100A"; lit "ECON 120A"; lit "ECE 109"]; [lit "MATH 20A"]].
Proof. intros H. vm_compute in H. discriminate H. Qed.

(** C1, what the code returns instead: on "ECON 100A or ECON 120A or
    ECE 109; and MATH 20A" the parser returns the single group of the
    three codes before the semicolon, the same result as on the text
    before the semicolon.  The truncation at the first semicolon drops
    the group that the example of the module docstring keeps. *)
Theorem semicolon_example_first_clause :
  parse_prereq_raw (Some (lit "ECON 100A or ECON 120A or ECE 109; and MATH 20A"))
  = Ok [[lit "ECON 100A"; lit "ECON 120A"; lit "ECE 109"]]
  /\ parse_prereq_raw (Some (lit "ECON 100A or ECON 120A or ECE 109; and MATH 20A"))
     = parse_prereq_raw (Some (lit "ECON 100A or ECON 120A or ECE 109")).
Proof. split; vm_compute; reflexivity. Qed.

(** C10: an uppercase run longer than four letters is not rejected; the
    code is formed from its last four letters:
    [extract_course_codes("ABCDE 101") = ["BCDE 101"]], and likewise for
    every such run followed by a space and a number. *)
Theorem long_department_suffix :
  extract_course_codes (lit "ABCDE 101") = [lit "BCDE 101"]
  /\ forall pre d ds : str,
       1 <= length pre -> forallb is_upper pre = true ->
       length d = 4 -> forallb is_upper d = true ->
       1 <= length ds -> forallb is_digit ds = true ->
       extract_course_codes (pre ++ d ++ " "%char :: ds) = [d ++ " "%char :: ds].
Proof.
  split; [by vm_compute|].
  intros pre d ds _ Hpre Hd Hup Hn Hds.
  unfold extract_course_codes, finditer.
  rewrite scan_long_run by done. cbn [fst map snd fold_left].
  unfold extract_step, normalize_code.
  assert (parsed_code (d ++ " "%char :: ds)) as Hp.
  { exists d, ds, []. rewrite app_nil_r. repeat split; try done; try lia.
    by left. }
  destruct (normalize_parsed _ Hp) as [-> ->].
  by destruct d.
Qed.

Lemma long_department_suffix_witness :
  extract_course_codes (lit "AB" ++ lit "CDEF" ++ " "%char :: lit "7")
  = [lit "CDEF" ++ " "%char :: lit "7"].
Proof.
  apply (proj2 long_department_suffix (lit "AB") (lit "CDEF") (lit "7"));
    (reflexivity || (simpl; lia)).
Defined.

(** ** The extractor *)

(** C8: the list returned by [extract_course_codes] has no repeated code;
    it is the list of the first occurrences of the normalized matches, in
    the order of the text. *)
Theorem extract_no_duplicates (text : str) :
  NoDup (extract_course_codes text)
  /\ extract_course_codes text = first_occurrences (normalized_matches text)
  /\ (forall code, code ∈ extract_course_codes text <-> code ∈ normalized_matches text).
Proof.
  rewrite extract_first_occurrences. split; [|split].
  - apply first_occurrences_NoDup.
  - done.
  - intros code. apply first_occurrences_elem.
Qed.

(** ** The parser *)

(** C7: [parse_prereq_raw] returns the empty structure, without raising,
    when its input is [None], the empty string or a string of whitespace
    only. *)
Theorem empty_absent_law (raw : option str) :
  is_blank raw = true -> parse_prereq_raw raw = Ok [].
Proof.
  destruct raw as [s|]; [|done]. intros Hs.
  rewrite parse_prereq_raw_clause, py_strip_nil_or.
  by rewrite (py_strip_blank s Hs).
Qed.

Lemma empty_absent_law_witness :
  is_blank (Some (lit "   ")) = true
  /\ parse_prereq_raw (Some (lit "   ")) = Ok [].
Proof.
  split; [reflexivity|]. apply (empty_absent_law (Some (lit "   "))).
  reflexivity.
Defined.

(** C4: the text at and after the first semicolon has no effect on the
    result; in particular "A and B; ignored clause" parses as "A and B"
    for all texts A and B without a semicolon. *)
Theorem truncation_law (A B x y : str) :
  contains ";" A = false -> contains ";" B = false ->
  contains ";" x = false ->
  parse_prereq_raw (Some (A ++ lit " and " ++ B ++ lit "; ignored clause"))
  = parse_prereq_raw (Some (A ++ lit " and " ++ B))
  /\ parse_prereq_raw (Some (x ++ ";"%char :: y)) = parse_prereq_raw (Some x).
Proof.
  intros HA HB Hx. split; [|by apply parse_truncates].
  replace (A ++ lit " and " ++ B ++ lit "; ignored clause")
    with ((A ++ lit " and " ++ B) ++ ";"%char :: lit " ignored clause")
    by list_eq.
  apply parse_truncates. rewrite !contains_app, HA, HB. done.
Qed.

Lemma truncation_law_witness :
  parse_prereq_raw (Some (lit "CSE 12 and CSE 15L; ignored clause"))
  = parse_prereq_raw (Some (lit "CSE 12 and CSE 15L"))
  /\ parse_prereq_raw (Some (lit "MATH 20A; not with MATH 10A and MATH 10B"))
     = parse_prereq_raw (Some (lit "MATH 20A")).
Proof.
  apply (truncation_law (lit "CSE 12") (lit "CSE 15L") (lit "MATH 20A")
           (lit " not with MATH 10A and MATH 10B")); reflexivity.
Defined.

(** C3: the shorthand carry-over.  "ECON 1 and 3." and "ECON 1 and 3 and
    7A" parse as stated; in general a segment without codes that, once
    stripped of its trailing punctuation, is a number followed by at most
    one letter yields one code, made of the department prefix of the last
    code appended so far, a space and the shorthand. *)
Theorem shorthand_carry_over :
  parse_prereq_raw (Some (lit "ECON 1 and 3."))
  = Ok [[lit "ECON 1"]; [lit "ECON 3"]]
  /\ parse_prereq_raw (Some (lit "ECON 1 and 3 and 7A"))
     = Ok [[lit "ECON 1"]; [lit "ECON 3"]; [lit "ECON 7A"]]
  /\ forall (segs : list str) (seg : str) (res : list (list str))
       (ld : option str) (ds l : str),
       for_each parse_segment segs ([], None) = Ok (res, ld) ->
       res <> [] ->
       extract_course_codes (py_strip seg) = [] ->
       rstrip_punct (py_strip seg) = ds ++ l ->
       1 <= length ds -> forallb is_digit ds = true ->
       length l <= 1 -> forallb is_alpha l = true ->
       exists g code,
         last res = Some g /\ last g = Some code
         /\ for_each parse_segment (segs ++ [seg]) ([], None)
            = Ok (res ++ [[dept_prefix code ++ " "%char :: ds ++ l]], ld).
Proof.
  split; [by vm_compute|]. split; [by vm_compute|].
  intros segs seg res ld ds l Hrun Hres Hex Hseg Hn Hds Hl Hal.
  destruct (for_each_parse_inv segs _ parse_inv_init) as (st & Hst & Hinv).
  rewrite Hrun in Hst. injection Hst as <-.
  assert (exists d, ld = Some d) as [d ->].
  { destruct Hinv as [_ Hld]. simpl in Hld.
    destruct (last res) eqn:E; [|by apply last_None in E].
    destruct Hld as (? & _ & ->). by eexists. }
  destruct (parse_inv_dept res d Hinv) as (g & code & Hg & Hcode & -> & Hlen & Hup).
  exists g, code. split; [done|]. split; [done|].
  rewrite for_each_app, Hrun.
  cbn [mbind result_bind for_each].
  rewrite (parse_segment_shorthand res (dept_prefix code) seg ds l)
    by (done || lia).
  done.
Qed.

Lemma shorthand_carry_over_witness :
  exists g code,
    last [[lit "MATH 20A"; lit "MATH 18"]] = Some g /\ last g = Some code
    /\ for_each parse_segment ([lit "MATH 20A or MATH 18"] ++ [lit " 31B, "])
         ([], None)
       = Ok ([[lit "MATH 20A"; lit "MATH 18"]]
             ++ [[dept_prefix code ++ " "%char :: lit "31" ++ lit "B"]],
             Some (lit "MATH")).
Proof.
  apply (proj2 (proj2 shorthand_carry_over)
           [lit "MATH 20A or MATH 18"] (lit " 31B, ")
           [[lit "MATH 20A"; lit "MATH 18"]] (Some (lit "MATH"))
           (lit "31") (lit "B")).
  - vm_compute. reflexivity.
  - discriminate.
  - vm_compute. reflexivity.
  - vm_compute. reflexivity.
  - simpl. lia.
  - reflexivity.
  - simpl. lia.
  - reflexivity.
Defined.

(** C9: [parse_prereq_raw] returns a structure on every input, absent or
    not, and never raises; a segment without codes that does not match the
    shorthand rule leaves the result as it is; and
    [parse_prereq_raw("consent of instructor") = []]. *)
Theorem parse_never_raises :
  (forall raw : option str, exists r, parse_prereq_raw raw = Ok r)
  /\ (forall (st : parse_state) (seg : str),
        extract_course_codes (py_strip seg) = [] ->
        truthy (snd st) = false
        \/ re_match STANDALONE_NUM_RE (rstrip_punct (py_strip seg)) = None ->
        parse_segment st seg = Ok st)
  /\ parse_prereq_raw (Some (lit "consent of instructor")) = Ok [].
Proof.
  split; [|split; [|by vm_compute]].
  - intros [raw|]; [|by exists []].
    rewrite parse_prereq_raw_clause.
    destruct (is_nil raw || is_nil (py_strip raw)); [by exists []|].
    unfold parse_clause. cbv zeta.
    match goal with
    | |- context [for_each parse_segment ?segs _] =>
        destruct (for_each_parse_inv segs _ parse_inv_init) as (st & -> & _)
    end.
    by exists (fst st).
  - intros [res ld] seg Hex Hno. unfold parse_segment. cbv zeta.
    destruct (is_nil (py_strip seg)); [done|].
    rewrite Hex. cbn [is_nil andb snd] in *.
    assert (truthy ld
            && bool_decide
                 (is_Some (re_match STANDALONE_NUM_RE (rstrip_punct (py_strip seg))))
            = false) as ->; [|done].
    destruct Hno as [-> | ->]; [done|].
    rewrite bool_decide_eq_false_2; [apply andb_false_r|].
    by intros [? ?].
Qed.

Lemma parse_never_raises_witness :
  parse_segment ([[lit "CSE 12"]], Some (lit "CSE")) (lit "consent of instructor")
  = Ok ([[lit "CSE 12"]], Some (lit "CSE")).
Proof.
  apply (proj1 (proj2 parse_never_raises)
           ([[lit "CSE 12"]], Some (lit "CSE")) (lit "consent of instructor")).
  - vm_compute. reflexivity.
  - right. vm_compute. reflexivity.
Defined.

(** C5, as stated, fails: "ECON 1 and 3a" yields the code "ECON 3a", whose
    suffix is a lowercase letter, outside the CourseCode grammar. *)
Lemma lowercase_shorthand_code :
  parse_prereq_raw (Some (lit "ECON 1 and 3a"))
  = Ok [[lit "ECON 1"]; [lit "ECON 3a"]]
  /\ ~ Forall (Forall (fun code => is_course_code code = true))
         [[lit "ECON 1"]; [lit "ECON 3a"]].
Proof.
  split; [by vm_compute|].
  intros H. apply Forall_cons in H as [_ H]. apply Forall_cons in H as [H _].
  apply Forall_cons in H as [H _]. vm_compute in H. discriminate H.
Qed.

(** C5, amended: for a sentence of code points below 256, the texts of
    this development, every code in the result of [parse_prereq_raw] is
    2 to 4 uppercase letters A-Z, one space, one or more digits 0-9 and
    then either uppercase letters or a single lowercase letter, with no
    trailing punctuation; the codes returned by [extract_course_codes]
    on such a text satisfy the CourseCode grammar itself.  Beyond this
    range the [\d] of the patterns also matches the other decimal digits
    of Unicode. *)
Theorem parsed_codes_grammar (raw : option str) (r : list (list str)) :
  parse_prereq_raw raw = Ok r ->
  Forall (Forall (fun code => is_parsed_code code = true)) r
  /\ forall text,
       Forall (fun code => is_course_code code = true) (extract_course_codes text).
Proof.
  intros Hr. split.
  - assert (Forall (Forall parsed_code) r) as H.
    { destruct raw as [raw|]; [|injection Hr as <-; constructor].
      rewrite parse_prereq_raw_clause in Hr.
      destruct (is_nil raw || is_nil (py_strip raw));
        [injection Hr as <-; constructor|].
      unfold parse_clause in Hr. cbv zeta in Hr.
      match type of Hr with
      | context [for_each parse_segment ?segs _] =>
          destruct (for_each_parse_inv segs _ parse_inv_init) as (st & Hst & Hinv)
      end.
      rewrite Hst in Hr. injection Hr as <-. apply Hinv. }
    eapply Forall_impl; [exact H|]. intros g Hg.
    eapply Forall_impl; [exact Hg|]. apply parsed_is_parsed_code.
  - intros text. eapply Forall_impl; [apply extract_course_codes_codes|].
    apply extracted_is_course_code.
Qed.

Lemma parsed_codes_grammar_witness :
  Forall (Forall (fun code => is_parsed_code code = true))
    [[lit "ECON 1"]; [lit "ECON 3a"]].
Proof.
  apply (parsed_codes_grammar (Some (lit "ECON 1 and 3a"))).
  vm_compute. reflexivity.
Defined.

(** ** The edge compiler *)

(** C6: an edge is emitted exactly when its source occurs in the group of
    its index in the structure of a course with its target as code, and
    its source is a key of the catalog; unknown codes yield no edge: the
    catalog of CSE 12, with structure [[("CSE 8B", "CSE 99")]], and CSE 8B
    yields the single edge from CSE 8B to CSE 12 with index 0. *)
Theorem edge_filtering :
  (forall (cs : list Course) (e : Edge),
      e ∈ build_prereq_edges cs
      <-> exists c g,
            c ∈ cs /\ target e = code c
            /\ structure_of c !! or_group_index e = Some g
            /\ source e ∈ g /\ is_key cs (source e) = true)
  /\ (forall raw12 raw8b st8b,
        st8b = None \/ st8b = Some [] ->
        build_prereq_edges
          [ Build_Course (lit "CSE 12") raw12
              (Some [[lit "CSE 8B"; lit "CSE 99"]]);
            Build_Course (lit "CSE 8B") raw8b st8b ]
        = [ Build_Edge (lit "CSE 8B") (lit "CSE 12") 0 ]).
Proof.
  split; [apply in_build_prereq_edges|].
  intros raw12 raw8b st8b [-> | ->]; vm_compute; reflexivity.
Qed.

Lemma edge_filtering_witness :
  build_prereq_edges
    [ Build_Course (lit "CSE 12") (Some (lit "CSE 8B or CSE 99"))
        (Some [[lit "CSE 8B"; lit "CSE 99"]]);
      Build_Course (lit "CSE 8B") None (Some []) ]
  = [ Build_Edge (lit "CSE 8B") (lit "CSE 12") 0 ].
Proof.
  apply (proj2 edge_filtering). right. reflexivity.
Defined.

(** Uniqueness of the codes matters: two records with one code send their
    edges to the same target, and the groups of the two are mixed. *)
Example duplicate_codes_mix_groups :
  let c := Build_Course (lit "CSE 12") None (Some [[lit "CSE 12"]]) in
  group_sources (build_prereq_edges [c; c]) (code c) 0
  = [lit "CSE 12"; lit "CSE 12"].
Proof. vm_compute. reflexivity. Qed.

(** C2: in a catalog with unique codes, for every course the sources of
    its edges, grouped by [or_group_index] and read in emission order, are
    its [prereq_structured] with each OrGroup restricted to the keys of the
    catalog, in the original order; every index is one of its structure;
    and an edge is emitted as many times as its source occurs in the
    group: nothing is deduplicated. *)
Theorem edge_grouping_reconstruction (cs : list Course) (c : Course) :
  NoDup (map code cs) -> c ∈ cs ->
  map (group_sources (build_prereq_edges cs) (code c))
    (seq 0 (length (structure_of c)))
  = map (List.filter (is_key cs)) (structure_of c)
  /\ (forall i,
        group_sources (build_prereq_edges cs) (code c) i
        = List.filter (is_key cs) (nth i (structure_of c) []))
  /\ (forall e,
        e ∈ build_prereq_edges cs -> target e = code c ->
        or_group_index e < length (structure_of c))
  /\ (forall s i,
        is_key cs s = true ->
        length (List.filter (fun e => bool_decide (e = Build_Edge s (code c) i))
                  (build_prereq_edges cs))
        = length (List.filter (fun x => bool_decide (x = s))
                    (nth i (structure_of c) []))).
Proof.
  intros Hnd Hc.
  assert (forall i,
             group_sources (build_prereq_edges cs) (code c) i
             = List.filter (is_key cs) (nth i (structure_of c) [])) as Hgrp.
  { intros i. by apply group_sources_spec. }
  split; [|split; [done|split]].
  - apply list_eq. intros i. rewrite !list_lookup_fmap.
    destruct (decide (i < length (structure_of c))) as [Hi|Hi].
    + rewrite lookup_seq_lt by done. simpl. rewrite Hgrp.
      destruct (lookup_lt_is_Some_2 (structure_of c) i Hi) as [g Hg].
      rewrite Hg. simpl. f_equal. f_equal.
      by apply nth_lookup_Some with (d := []) in Hg.
    + rewrite lookup_seq_ge by lia.
      by rewrite lookup_ge_None_2 by lia.
  - intros e He Ht.
    destruct (decide (or_group_index e < length (structure_of c))); [done|].
    assert (source e ∈ group_sources (build_prereq_edges cs) (code c)
              (or_group_index e)) as Hin.
    { unfold group_sources. apply list_elem_of_fmap_2.
      apply list_elem_of_In, filter_In. split; [by apply list_elem_of_In|].
      unfold in_group. rewrite bool_decide_eq_true_2 by done.
      by rewrite Nat.eqb_refl. }
    rewrite Hgrp, nth_overflow in Hin by lia. by apply elem_of_nil in Hin.
  - intros s i Hs. rewrite count_in_group, Hgrp, filter_filter_and.
    f_equal. apply List.filter_ext. intros x.
    destruct (decide (x = s)) as [->|Hne].
    + by rewrite bool_decide_eq_true_2, Hs by done.
    + by rewrite bool_decide_eq_false_2 by done.
Qed.

Lemma edge_grouping_reconstruction_witness :
  map (group_sources
         (build_prereq_edges
            [ Build_Course (lit "CSE 12") None
                (Some [[lit "CSE 8B"; lit "CSE 99"; lit "CSE 8B"]; [lit "MATH 20A"]]);
              Build_Course (lit "CSE 8B") None None ])
         (lit "CSE 12"))
    (seq 0 2)
  = [[lit "CSE 8B"; lit "CSE 8B"]; []].
Proof.
  refine (proj1 (edge_grouping_reconstruction
                   [ Build_Course (lit "CSE 12") None
                       (Some [[lit "CSE 8B"; lit "CSE 99"; lit "CSE 8B"];
                              [lit "MATH 20A"]]);
                     Build_Course (lit "CSE 8B") None None ]
                   (Build_Course (lit "CSE 12") None
                      (Some [[lit "CSE 8B"; lit "CSE 99"; lit "CSE 8B"];
                             [lit "MATH 20A"]])) _ _)).
  - apply (bool_decide_unpack _). vm_compute. exact I.
  - left.
Defined.

(** * Further properties of the code *)

(** ** The pieces of a scan *)

Lemma forallb_take (q : ascii -> bool) (s : str) n :
  forallb q s = true -> forallb q (take n s) = true.
Proof.
  intros H. rewrite <- (take_drop n s), forallb_app in H.
  by apply andb_prop in H as [? _].
Qed.

(** The gaps, the matches and the rest of a scan are made of characters of
    the text. *)
Lemma scan_forall (q : ascii -> bool) r s k :
  forallb q s = true ->
  Forall (fun gm => forallb q (fst gm) = true /\ forallb q (snd gm) = true)
    (fst (scan r k s))
  /\ forallb q (snd (scan r k s)) = true.
Proof.
  revert k. induction s as [|c s IH]; intros k Hs; [by split; [constructor|]|].
  cbn [scan]. pose proof Hs as Hcs. simpl in Hs. apply andb_prop in Hs as [Hc Hs].
  destruct k as [|k]; [|by apply IH].
  assert (forall X,
             Forall (fun gm => forallb q (fst gm) = true /\ forallb q (snd gm) = true)
               (fst X)
             /\ forallb q (snd X) = true ->
             Forall (fun gm => forallb q (fst gm) = true /\ forallb q (snd gm) = true)
               (fst (cons_gap c X))
             /\ forallb q (snd (cons_gap c X)) = true) as Hgap.
  { intros [[|[g m] ms] tl] [H1 H2]; simpl in *.
    - split; [constructor|]. by rewrite Hc.
    - apply Forall_cons in H1 as [[Hg Hm] H1]. split; [|done].
      constructor; [|done]. simpl. by rewrite Hc. }
  destruct (re_match r (c :: s)) as [[|n]|].
  - by apply Hgap, IH.
  - destruct (IH n Hs) as [H1 H2]. destruct (scan r n s) as [ms tl].
    simpl in *. split; [|done]. constructor; [|done]. simpl. split; [done|].
    destruct n; simpl; rewrite Hc; [done|]. by apply forallb_take.
  - by apply Hgap, IH.
Qed.

Lemma finditer_forall (q : ascii -> bool) r s :
  forallb q s = true -> Forall (fun m => forallb q m = true) (finditer r s).
Proof.
  intros Hs. destruct (scan_forall q r s 0 Hs) as [H _].
  unfold finditer. apply Forall_fmap. eapply Forall_impl; [exact H|].
  by intros gm [_ ?].
Qed.

Lemma re_split_forall (q : ascii -> bool) r s :
  forallb q s = true -> Forall (fun piece => forallb q piece = true) (re_split r s).
Proof.
  intros Hs. destruct (scan_forall q r s 0 Hs) as [H1 H2].
  unfold re_split. apply Forall_app. split; [|by constructor].
  apply Forall_fmap. eapply Forall_impl; [exact H1|]. by intros gm [? _].
Qed.

Lemma re_sub_forall (q : ascii -> bool) r repl s :
  forallb q repl = true -> forallb q s = true ->
  forallb q (re_sub r repl s) = true.
Proof.
  intros Hr Hs. destruct (scan_forall q r s 0 Hs) as [H1 H2].
  unfold re_sub. rewrite forallb_app, H2, andb_true_r.
  induction H1 as [|gm ms [Hg _] _ IH]; simpl; [done|].
  by rewrite !forallb_app, Hg, Hr, IH.
Qed.

Lemma lstrip_forall (q : ascii -> bool) p s :
  forallb q s = true -> forallb q (lstrip p s) = true.
Proof.
  destruct (lstrip_suffix p s) as [pre H]. intros Hs.
  rewrite H, forallb_app in Hs. by apply andb_prop in Hs as [_ ?].
Qed.

Lemma rstrip_forall (q : ascii -> bool) p s :
  forallb q s = true -> forallb q (rstrip p s) = true.
Proof.
  destruct (rstrip_prefix p s) as [suf H]. intros Hs.
  rewrite H, forallb_app in Hs. by apply andb_prop in Hs as [? _].
Qed.

Lemma py_strip_forall (q : ascii -> bool) s :
  forallb q s = true -> forallb q (py_strip s) = true.
Proof. intros H. by apply rstrip_forall, lstrip_forall. Qed.

Lemma before_first_forall (q : ascii -> bool) x s :
  forallb q s = true -> forallb q (before_first x s) = true.
Proof.
  induction s as [|c s IH]; simpl; [done|].
  intros [Hc Hs]%andb_prop. destruct (Ascii.eqb c x); simpl; [done|].
  by rewrite Hc, IH.
Qed.

(** Every match reported by [scan] is a piece of the text. *)
Lemma scan_infix r s k :
  Forall (fun m => exists pre post, s = pre ++ m ++ post)
    (map snd (fst (scan r k s))).
Proof.
  revert k. induction s as [|c s IH]; intros k; [constructor|].
  cbn [scan].
  assert (forall j,
             Forall (fun m => exists pre post, c :: s = pre ++ m ++ post)
               (map snd (fst (scan r j s)))) as Hs.
  { intros j. eapply Forall_impl; [apply (IH j)|].
    intros m (pre & post & ->). by exists (c :: pre), post. }
  destruct k as [|k]; [|apply Hs].
  destruct (re_match r (c :: s)) as [[|n]|].
  - rewrite cons_gap_matches. apply Hs.
  - specialize (Hs n). destruct (scan r n s) as [ms tl]. simpl in *.
    constructor; [|done].
    exists [], (drop n s). simpl. by rewrite take_drop.
  - rewrite cons_gap_matches. apply Hs.
Qed.

(** ** The groups of a parsed structure *)

(** What one iteration of the loop can do to its state. *)
Lemma parse_segment_cases res ld seg st' :
  parse_segment (res, ld) seg = Ok st' ->
  st' = (res, ld)
  \/ exists codes dept,
       st' = (res ++ [codes], Some dept) /\ codes <> []
       /\ (codes = extract_course_codes (py_strip seg)
           \/ exists code, codes = [code]).
Proof.
  unfold parse_segment. cbv zeta.
  destruct (is_nil (py_strip seg)); [intros [= <-]; by left|].
  destruct (is_nil (extract_course_codes (py_strip seg)) && truthy ld
            && bool_decide _).
  - cbn [is_nil]. unfold index_last. cbn [rev app mbind result_bind].
    destruct (index0 _) as [dept|]; cbn [mbind result_bind]; [|done].
    intros [= <-]. right. eexists _, dept. split; [done|]. split; [done|].
    right. by eexists.
  - destruct (extract_course_codes (py_strip seg)) as [|c0 cs] eqn:E;
      cbn [is_nil]; [intros [= <-]; by left|].
    destruct (index_last (c0 :: cs)) as [lc|]; cbn [mbind result_bind]; [|done].
    destruct (index0 _) as [dept|]; cbn [mbind result_bind]; [|done].
    intros [= <-]. right. exists (c0 :: cs), dept. split; [done|].
    split; [done|]. by left.
Qed.

Lemma for_each_invariant {A S} (body : S -> A -> result S) (P : S -> Prop) l st st' :
  (forall st x st', body st x = Ok st' -> P st -> P st') ->
  for_each body l st = Ok st' -> P st -> P st'.
Proof.
  intros Hbody. revert st. induction l as [|x l IH]; intros st; simpl.
  - by intros [= <-].
  - destruct (body st x) as [st1|] eqn:E; cbn [mbind result_bind]; [|done].
    intros Hl Hst. eapply IH; [exact Hl|]. by eapply Hbody.
Qed.

Lemma extract_course_codes_NoDup text : NoDup (extract_course_codes text).
Proof. rewrite extract_first_occurrences. apply first_occurrences_NoDup. Qed.

Lemma parse_segment_groups st seg st' :
  parse_segment st seg = Ok st' ->
  Forall (fun g => g <> [] /\ NoDup g) (fst st) ->
  Forall (fun g => g <> [] /\ NoDup g) (fst st').
Proof.
  destruct st as [res ld].
  intros [-> | (codes & dept & -> & Hne & Hcodes)]%parse_segment_cases Hres;
    [done|].
  simpl in *. apply Forall_app. split; [done|]. constructor; [|constructor].
  split; [done|]. destruct Hcodes as [-> | [code ->]].
  - apply extract_course_codes_NoDup.
  - apply NoDup_singleton.
Qed.

(** The result of [parse_prereq_raw], through the loop. *)
Lemma parse_prereq_raw_loop raw :
  exists segs st,
    for_each parse_segment segs ([], None) = Ok st
    /\ parse_inv st
    /\ parse_prereq_raw raw = Ok (fst st).
Proof.
  destruct raw as [raw|].
  2:{ exists [], ([], None). split; [done|]. split; [apply parse_inv_init|done]. }
  rewrite parse_prereq_raw_clause.
  destruct (is_nil raw || is_nil (py_strip raw)).
  { exists [], ([], None). split; [done|]. split; [apply parse_inv_init|done]. }
  unfold parse_clause. cbv zeta.
  match goal with
  | |- context [for_each parse_segment ?segs _] =>
      destruct (for_each_parse_inv segs _ parse_inv_init) as (st & Hst & Hinv);
      exists segs, st
  end.
  by rewrite Hst.
Qed.

Lemma parse_groups raw :
  exists r,
    parse_prereq_raw raw = Ok r /\ Forall (fun g => g <> [] /\ NoDup g) r.
Proof.
  destruct (parse_prereq_raw_loop raw) as (segs & st & Hst & _ & ->).
  exists (fst st). split; [done|].
  eapply (for_each_invariant parse_segment
            (fun st => Forall (fun g => g <> [] /\ NoDup g) (fst st)));
    [|exact Hst|by constructor].
  intros st0 x st1. apply parse_segment_groups.
Qed.

(** X1: every OrGroup of a parsed structure holds at least one code: a
    segment without codes appends nothing. *)
Theorem parsed_groups_nonempty (raw : option str) :
  exists r, parse_prereq_raw raw = Ok r /\ Forall (fun g => g <> []) r.
Proof.
  destruct (parse_groups raw) as (r & Hr & H). exists r. split; [done|].
  eapply Forall_impl; [exact H|]. by intros g [? _].
Qed.

(** X2: no OrGroup of a parsed structure holds a code twice. *)
Theorem parsed_groups_no_duplicates (raw : option str) :
  exists r, parse_prereq_raw raw = Ok r /\ Forall (fun g => NoDup g) r.
Proof.
  destruct (parse_groups raw) as (r & Hr & H). exists r. split; [done|].
  eapply Forall_impl; [exact H|]. by intros g [_ ?].
Qed.

(** ** Surrounding whitespace *)

Lemma lstrip_head_stop p s c t : lstrip p s = c :: t -> p c = false.
Proof.
  induction s as [|a s IH]; simpl; [done|].
  destruct (p a) eqn:Ha; [done|]. by intros [= <- <-].
Qed.

Lemma rstrip_idem p s : rstrip p (rstrip p s) = rstrip p s.
Proof. unfold rstrip. by rewrite rev_involutive, lstrip_idem. Qed.

Lemma py_strip_idem s : py_strip (py_strip s) = py_strip s.
Proof.
  unfold py_strip. set (u := lstrip is_space s).
  destruct (rstrip is_space u) as [|c t] eqn:E; [done|].
  rewrite lstrip_id; [by rewrite <- E, rstrip_idem|].
  destruct (rstrip_prefix is_space u) as [suf Hu]. rewrite E in Hu.
  by apply (lstrip_head_stop is_space s c (t ++ suf)).
Qed.

Lemma lstrip_blank_app p ws s :
  forallb p ws = true -> lstrip p (ws ++ s) = lstrip p s.
Proof.
  induction ws as [|c ws IH]; simpl; [done|].
  intros [-> Hws]%andb_prop. auto.
Qed.

Lemma rstrip_app_blank p s ws :
  forallb p ws = true -> rstrip p (s ++ ws) = rstrip p s.
Proof.
  intros Hws. unfold rstrip. rewrite rev_app_distr, lstrip_blank_app; [done|].
  rewrite forallb_forall in *. intros c Hc. by apply Hws, in_rev.
Qed.

Lemma py_strip_surrounded ws1 s ws2 :
  forallb is_space ws1 = true -> forallb is_space ws2 = true ->
  py_strip (ws1 ++ s ++ ws2) = py_strip s.
Proof.
  intros H1 H2. unfold py_strip. rewrite lstrip_blank_app by done.
  destruct (lstrip is_space s) as [|c t] eqn:E.
  - assert (forallb is_space s = true) as Hs.
    { clear -E. induction s as [|a s IH]; simpl in *; [done|].
      destruct (is_space a); [auto|done]. }
    rewrite lstrip_all; [done|]. by rewrite forallb_app, Hs, H2.
  - destruct (lstrip_suffix is_space s) as [pre Hs]. rewrite E in Hs.
    rewrite Hs at 1. rewrite <- app_assoc, lstrip_blank_app.
    + simpl. rewrite (lstrip_head_stop _ _ _ _ E).
      change (c :: t ++ ws2) with ((c :: t) ++ ws2).
      by apply rstrip_app_blank.
    + clear -Hs E. revert s Hs E. induction pre as [|a pre IH]; intros s Hs E; [done|].
      subst s. simpl in E. destruct (is_space a) eqn:Ha; simpl.
      * rewrite Ha. apply (IH (pre ++ c :: t)); done.
      * injection E as -> E. exfalso.
        assert (length (pre ++ c :: t) = length t) as Hl by by rewrite E.
        rewrite length_app in Hl. simpl in Hl. lia.
Qed.

Lemma parse_depends_on_strip raw :
  parse_prereq_raw (Some raw) = parse_prereq_raw (Some (py_strip raw)).
Proof.
  rewrite !parse_prereq_raw_clause, !py_strip_nil_or. by rewrite py_strip_idem.
Qed.

(** X3: whitespace around the sentence has no effect on the result. *)
Theorem surrounding_whitespace_ignored (ws1 raw ws2 : str) :
  forallb is_space ws1 = true -> forallb is_space ws2 = true ->
  parse_prereq_raw (Some (ws1 ++ raw ++ ws2)) = parse_prereq_raw (Some raw).
Proof.
  intros H1 H2.
  rewrite (parse_depends_on_strip (ws1 ++ raw ++ ws2)).
  rewrite (parse_depends_on_strip raw).
  by rewrite py_strip_surrounded.
Qed.

Lemma surrounding_whitespace_ignored_witness :
  parse_prereq_raw (Some (lit "  " ++ lit "CSE 12 and CSE 15L" ++ lit " "))
  = parse_prereq_raw (Some (lit "CSE 12 and CSE 15L")).
Proof.
  apply (surrounding_whitespace_ignored (lit "  ") (lit "CSE 12 and CSE 15L")
           (lit " ")); reflexivity.
Defined.

(** ** Texts without codes *)

Lemma forallb_negb_false (p : ascii -> bool) (w rest : str) :
  1 <= length w -> forallb p w = true ->
  forallb (fun c => negb (p c)) (w ++ rest) = false.
Proof.
  destruct w as [|c w]; simpl; [lia|].
  intros _ [-> _]%andb_prop. done.
Qed.

Lemma extracted_code_chars code :
  extracted_code code ->
  forallb (fun c => negb (is_upper c)) code = false
  /\ forallb (fun c => negb (is_digit c)) code = false.
Proof.
  intros (d & ds & x & -> & [Hd _] & Hup & Hn & Hds & _). split.
  - apply forallb_negb_false; [lia|done].
  - rewrite forallb_app. apply andb_false_intro2.
    change (" "%char :: ds ++ x) with ([" "%char] ++ ds ++ x).
    rewrite forallb_app. apply andb_false_intro2.
    by apply forallb_negb_false.
Qed.

(** A text without uppercase letters, or without digits, holds no code. *)
Lemma extract_nothing text :
  forallb (fun c => negb (is_upper c)) text = true
  \/ forallb (fun c => negb (is_digit c)) text = true ->
  extract_course_codes text = [].
Proof.
  intros H. unfold extract_course_codes.
  assert (finditer COURSE_CODE_RE text = []) as ->; [|done].
  pose proof (finditer_codes text) as Hcodes.
  destruct (finditer COURSE_CODE_RE text) as [|m ms] eqn:E; [done|].
  apply Forall_cons in Hcodes as [[Hu Hd]%extracted_code_chars _].
  destruct H as [H | H];
    apply (finditer_forall _ COURSE_CODE_RE) in H; rewrite E in H;
    apply Forall_cons in H as [H _]; congruence.
Qed.

(** Without a department, a segment without codes is dropped. *)
Lemma parse_segment_no_codes res seg :
  extract_course_codes (py_strip seg) = [] ->
  parse_segment (res, None) seg = Ok (res, None).
Proof.
  intros Hex. unfold parse_segment. cbv zeta.
  destruct (is_nil (py_strip seg)); [done|]. by rewrite Hex.
Qed.

Lemma for_each_no_codes segs :
  Forall (fun seg => extract_course_codes (py_strip seg) = []) segs ->
  for_each parse_segment segs ([], None) = Ok ([], None).
Proof.
  induction 1 as [|seg segs Hseg _ IH]; [done|].
  cbn [for_each]. by rewrite parse_segment_no_codes.
Qed.

Lemma parse_nothing (q : ascii -> bool) raw :
  q " "%char = true ->
  (forall s, forallb q s = true -> extract_course_codes s = []) ->
  forallb q raw = true -> parse_prereq_raw (Some raw) = Ok [].
Proof.
  intros Hsp Hq Hraw. rewrite parse_prereq_raw_clause.
  destruct (is_nil raw || is_nil (py_strip raw)); [done|].
  unfold parse_clause. cbv zeta. rewrite for_each_no_codes; [done|].
  eapply Forall_impl; [apply (re_split_forall q)|].
  - apply re_sub_forall; [by simpl; rewrite Hsp|].
    destruct (contains ";" (py_strip raw)).
    + by apply py_strip_forall, before_first_forall, py_strip_forall.
    + by apply py_strip_forall.
  - intros seg Hseg. by apply Hq, py_strip_forall.
Qed.

(** X4: a sentence of code points below 256 without any uppercase
    letter A-Z, or without any digit 0-9, has no course code and parses
    to the empty structure. *)
Theorem no_uppercase_or_no_digit_parses_empty (raw : str) :
  forallb (fun c => negb (is_upper c)) raw = true
  \/ forallb (fun c => negb (is_digit c)) raw = true ->
  extract_course_codes raw = [] /\ parse_prereq_raw (Some raw) = Ok [].
Proof.
  intros H. split; [by apply extract_nothing|].
  destruct H as [H | H].
  - apply (parse_nothing (fun c => negb (is_upper c))); [done| |done].
    intros s Hs. apply extract_nothing. by left.
  - apply (parse_nothing (fun c => negb (is_digit c))); [done| |done].
    intros s Hs. apply extract_nothing. by right.
Qed.

Lemma no_uppercase_or_no_digit_parses_empty_witness :
  extract_course_codes (lit "upper-division standing and cse 12") = []
  /\ parse_prereq_raw (Some (lit "upper-division standing and cse 12")) = Ok [].
Proof.
  apply (no_uppercase_or_no_digit_parses_empty
           (lit "upper-division standing and cse 12")).
  left. reflexivity.
Defined.

(** ** Codes are pieces of the text *)

(** X5: every code returned by [extract_course_codes] is a contiguous
    piece of the text: no code is assembled from separate places. *)
Theorem extracted_codes_are_substrings (text : str) :
  Forall (fun code => exists pre post, text = pre ++ code ++ post)
    (extract_course_codes text).
Proof.
  apply Forall_forall. intros code.
  rewrite extract_first_occurrences, first_occurrences_elem.
  unfold normalized_matches.
  rewrite list_elem_of_In, filter_In, in_map_iff.
  intros [(m & <- & Hm) _].
  pose proof (finditer_codes text) as Hcodes. rewrite Forall_forall in Hcodes.
  pose proof (scan_infix COURSE_CODE_RE text 0) as Hinfix.
  rewrite Forall_forall in Hinfix.
  apply list_elem_of_In in Hm.
  unfold normalize_code.
  destruct (normalize_parsed m (extracted_parsed m (Hcodes m Hm))) as [-> ->].
  by apply Hinfix.
Qed.

(** ** The graph *)

Lemma is_key_target cs c : c ∈ cs -> is_key cs (code c) = true.
Proof.
  intros Hc. apply bool_decide_eq_true. by apply list_elem_of_fmap_2.
Qed.

(** X6: the edge list has no dangling edge: the source and the target of
    every edge are codes of courses of the catalog. *)
Theorem edges_between_catalog_courses (cs : list Course) :
  Forall (fun e => is_key cs (source e) = true /\ is_key cs (target e) = true)
    (build_prereq_edges cs).
Proof.
  apply Forall_forall. intros e He.
  apply in_build_prereq_edges in He as (c & g & Hc & -> & _ & _ & Hs).
  split; [done|]. by apply is_key_target.
Qed.

Lemma is_key_mono cs cs' s :
  cs ⊆ cs' -> is_key cs s = true -> is_key cs' s = true.
Proof.
  intros Hsub. unfold is_key. rewrite !bool_decide_eq_true.
  intros (c & -> & Hc)%list_elem_of_fmap. by apply list_elem_of_fmap_2, Hsub.
Qed.

(** X7: a larger catalog keeps every edge: when every course of [cs] is
    also in [cs'], every edge built from [cs] is built from [cs']. *)
Theorem edges_monotone (cs cs' : list Course) :
  cs ⊆ cs' -> build_prereq_edges cs ⊆ build_prereq_edges cs'.
Proof.
  intros Hsub e (c & g & Hc & Ht & Hg & Hs & Hk)%in_build_prereq_edges.
  apply in_build_prereq_edges. exists c, g.
  split; [by apply Hsub|]. repeat split; try done.
  by apply (is_key_mono cs).
Qed.

Lemma edges_monotone_witness :
  build_prereq_edges
    [ Build_Course (lit "CSE 8B") None None;
      Build_Course (lit "CSE 12") None (Some [[lit "CSE 8B"; lit "CSE 11"]]) ]
  ⊆ build_prereq_edges
      [ Build_Course (lit "CSE 11") None None;
        Build_Course (lit "CSE 8B") None None;
        Build_Course (lit "CSE 12") None (Some [[lit "CSE 8B"; lit "CSE 11"]]) ].
Proof.
  apply edges_monotone. intros c Hc. by right.
Defined.

(** The smaller catalog of the example has an edge, and the larger one a
    second edge into the same group. *)
Example edges_monotone_example :
  build_prereq_edges
    [ Build_Course (lit "CSE 8B") None None;
      Build_Course (lit "CSE 12") None (Some [[lit "CSE 8B"; lit "CSE 11"]]) ]
  = [ {| source := lit "CSE 8B"; target := lit "CSE 12"; or_group_index := 0 |} ]
  /\ build_prereq_edges
       [ Build_Course (lit "CSE 11") None None;
         Build_Course (lit "CSE 8B") None None;
         Build_Course (lit "CSE 12") None (Some [[lit "CSE 8B"; lit "CSE 11"]]) ]
     = [ {| source := lit "CSE 8B"; target := lit "CSE 12"; or_group_index := 0 |};
         {| source := lit "CSE 11"; target := lit "CSE 12"; or_group_index := 0 |} ].
Proof. split; vm_compute; reflexivity. Qed.

(** ** Equations of the scanning functions *)

Lemma scan_skip_drop r k s : scan r k s = scan r 0 (drop k s).
Proof.
  revert k. induction s as [|c s IH]; intros k; [by destruct k|].
  destruct k as [|k]; [done|]. cbn [scan]. apply IH.
Qed.

Lemma scan_cons_nomatch r c s :
  re_match r (c :: s) = None \/ re_match r (c :: s) = Some 0 ->
  scan r 0 (c :: s) = cons_gap c (scan r 0 s).
Proof. cbn [scan]. by intros [-> | ->]. Qed.

Lemma scan_cons_match r c s n :
  re_match r (c :: s) = Some (S n) ->
  scan r 0 (c :: s)
  = (([], take (S n) (c :: s)) :: fst (scan r 0 (drop n s)),
     snd (scan r 0 (drop n s))).
Proof.
  intros H. cbn [scan]. rewrite H, scan_skip_drop.
  by destruct (scan r 0 (drop n s)).
Qed.

Lemma finditer_cons_nomatch r c s :
  re_match r (c :: s) = None \/ re_match r (c :: s) = Some 0 ->
  finditer r (c :: s) = finditer r s.
Proof.
  intros H. unfold finditer. rewrite scan_cons_nomatch by done.
  apply cons_gap_matches.
Qed.

Lemma finditer_cons_match r c s n :
  re_match r (c :: s) = Some (S n) ->
  finditer r (c :: s) = take (S n) (c :: s) :: finditer r (drop n s).
Proof. intros H. unfold finditer. by rewrite (scan_cons_match r c s n). Qed.

Lemma re_sub_cons_nomatch r repl c s :
  re_match r (c :: s) = None \/ re_match r (c :: s) = Some 0 ->
  re_sub r repl (c :: s) = c :: re_sub r repl s.
Proof.
  intros H. unfold re_sub. rewrite scan_cons_nomatch by done.
  by destruct (scan r 0 s) as [[|[g m] ms] tl].
Qed.

Lemma re_sub_cons_match r repl c s n :
  re_match r (c :: s) = Some (S n) ->
  re_sub r repl (c :: s) = repl ++ re_sub r repl (drop n s).
Proof.
  intros H. unfold re_sub. rewrite (scan_cons_match r c s n) by done.
  cbn [fst snd map concat app]. by rewrite <- app_assoc.
Qed.

Lemma re_split_cons_nomatch r c s :
  re_match r (c :: s) = None \/ re_match r (c :: s) = Some 0 ->
  re_split r (c :: s)
  = match re_split r s with
    | piece :: pieces => (c :: piece) :: pieces
    | [] => [[c]]
    end.
Proof.
  intros H. unfold re_split. rewrite scan_cons_nomatch by done.
  by destruct (scan r 0 s) as [[|[g m] ms] tl].
Qed.

Lemma re_split_cons_match r c s n :
  re_match r (c :: s) = Some (S n) ->
  re_split r (c :: s) = [] :: re_split r (drop n s).
Proof. intros H. unfold re_split. by rewrite (scan_cons_match r c s n). Qed.

Lemma re_split_not_nil r s : re_split r s <> [].
Proof. unfold re_split. by destruct (map fst _). Qed.

(** ** Collapsing whitespace *)

Lemma drop_run_lstrip p s : drop (run_length p s) s = lstrip p s.
Proof.
  induction s as [|c s IH]; simpl; [done|]. by destruct (p c).
Qed.

Lemma whitespace_match c s :
  is_space c = true ->
  re_match WHITESPACE_RE (c :: s) = Some (S (run_length is_space s)).
Proof.
  intros Hc. unfold re_match. simpl atoms. simpl dollar. cbn [match_atoms].
  assert (greedy (plus is_space) (c :: s) = S (run_length is_space s)) as ->.
  { unfold greedy. simpl. by rewrite Hc. }
  apply backtrack_first; [cbn [lo plus]; lia|].
  cbn [option_map]. by rewrite Nat.add_0_r.
Qed.

Lemma collapse_space c s :
  is_space c = true ->
  re_sub WHITESPACE_RE [" "%char] (c :: s)
  = " "%char :: re_sub WHITESPACE_RE [" "%char] (lstrip is_space s).
Proof.
  intros Hc.
  rewrite (re_sub_cons_match _ _ _ _ (run_length is_space s))
    by by apply whitespace_match.
  by rewrite drop_run_lstrip.
Qed.

Lemma collapse_char c s :
  is_space c = false ->
  re_sub WHITESPACE_RE [" "%char] (c :: s)
  = c :: re_sub WHITESPACE_RE [" "%char] s.
Proof.
  intros Hc. apply re_sub_cons_nomatch. left.
  by apply (match_atoms_no_start (plus is_space) [] false c s).
Qed.

(** ** Words *)

Lemma rstrip_cons p c s :
  rstrip p (c :: s) = if forallb p (c :: s) then [] else c :: rstrip p s.
Proof.
  unfold rstrip. cbn [rev forallb].
  destruct (forallb p s) eqn:Hs.
  - rewrite andb_true_r.
    assert (forallb p (rev s) = true) as Hr.
    { rewrite forallb_forall in *. intros a Ha. by apply Hs, in_rev. }
    rewrite <- (app_nil_l [c]) at 1. rewrite app_nil_l.
    destruct (p c) eqn:Hc.
    + rewrite lstrip_all; [done|]. by rewrite forallb_app, Hr; simpl; rewrite Hc.
    + rewrite (lstrip_stop p (rev s) c []) by done.
      rewrite !lstrip_all by done. done.
  - rewrite andb_false_r.
    assert (exists x a y, rev s = x ++ a :: y /\ p a = false
                          /\ forallb p x = true) as (x & a & y & Hrev & Ha & Hx).
    { assert (forallb p (rev s) = false) as Hr.
      { apply not_true_is_false. intros H. rewrite forallb_forall in H.
        apply not_true_iff_false in Hs. apply Hs, forallb_forall.
        intros b Hb. apply H. by apply in_rev in Hb. }
      clear -Hr. induction (rev s) as [|b l IH]; simpl in Hr; [done|].
      destruct (p b) eqn:Hb.
      - destruct (IH Hr) as (x & a & y & -> & Ha & Hx).
        exists (b :: x), a, y. simpl. by rewrite Hb, Hx.
      - by exists [], b, l. }
    rewrite Hrev, <- app_assoc. cbn [app].
    rewrite !lstrip_stop by done. rewrite !lstrip_all by done.
    cbn [app]. change (a :: y ++ [c]) with ((a :: y) ++ [c]).
    by rewrite rev_app_distr.
Qed.

Lemma lstrip_rstrip_comm p s : lstrip p (rstrip p s) = rstrip p (lstrip p s).
Proof.
  induction s as [|c s IH]; [done|].
  rewrite rstrip_cons. cbn [lstrip forallb].
  destruct (p c) eqn:Hc; cbn [andb].
  - destruct (forallb p s) eqn:Hs.
    + by rewrite (lstrip_all p s Hs).
    + cbn [lstrip]. by rewrite Hc.
  - cbn [lstrip]. rewrite Hc. rewrite rstrip_cons. cbn [forallb].
    by rewrite Hc.
Qed.

Lemma split_fields_nil cur s :
  split_fields cur s = [] -> cur = [] /\ forallb is_space s = true.
Proof.
  revert cur. induction s as [|c s IH]; intros cur; simpl.
  - by destruct cur.
  - destruct (is_space c).
    + destruct cur; [|done]. intros H. by apply IH in H as [_ ->].
    + intros H. by apply IH in H as [? _].
Qed.

Lemma py_split_blank s : forallb is_space s = true -> py_split s = [].
Proof.
  unfold py_split. induction s as [|c s IH]; simpl; [done|].
  intros [-> Hs]%andb_prop. auto.
Qed.

Lemma py_split_nil s : py_split s = [] -> forallb is_space s = true.
Proof. intros H. by apply split_fields_nil in H as [_ ?]. Qed.

Lemma py_split_space c s : is_space c = true -> py_split (c :: s) = py_split s.
Proof. intros Hc. unfold py_split. simpl. by rewrite Hc. Qed.

(** A word followed by the end or by whitespace is the first field. *)
Lemma py_split_word w r :
  is_word w ->
  r = [] \/ (exists c r', r = c :: r' /\ is_space c = true) ->
  py_split (w ++ r) = w :: py_split r.
Proof.
  intros [Hne Hw] Hr. unfold py_split. rewrite split_fields_run by done.
  rewrite app_nil_r.
  assert (rev w <> []) as Hrev.
  { intros H. apply Hne. by rewrite <- (rev_involutive w), H. }
  destruct Hr as [-> | (c & r' & -> & Hc)]; simpl.
  - destruct (rev w) eqn:E; [done|]. by rewrite <- E, rev_involutive.
  - rewrite Hc. destruct (rev w) eqn:E; [done|]. by rewrite <- E, rev_involutive.
Qed.

(** A text that starts outside the spaces starts with a word. *)
Lemma word_span c s :
  is_space c = false ->
  exists w r,
    c :: s = w ++ r /\ is_word w
    /\ (r = [] \/ exists c' r', r = c' :: r' /\ is_space c' = true).
Proof.
  revert c. induction s as [|a s IH]; intros c Hc.
  - exists [c], []. split; [done|]. split; [|by left].
    split; [done|]. simpl. by rewrite Hc.
  - destruct (is_space a) eqn:Ha.
    + exists [c], (a :: s). split; [done|]. split; [|right; by exists a, s].
      split; [done|]. simpl. by rewrite Hc.
    + destruct (IH a Ha) as (w & r & Hs & [_ Hw] & Hr).
      exists (c :: w), r. rewrite Hs. split; [done|]. split; [|done].
      split; [done|]. simpl. by rewrite Hc, Hw.
Qed.

Lemma rstrip_word_app w r :
  forallb (fun c => negb (is_space c)) w = true ->
  rstrip is_space (w ++ r) = w ++ rstrip is_space r.
Proof.
  induction w as [|c w IH]; [done|]. simpl.
  intros [Hc Hw]%andb_prop. apply negb_true_iff in Hc.
  rewrite rstrip_cons. cbn [forallb]. rewrite Hc. cbn [andb]. by rewrite IH.
Qed.

Lemma collapse_word_app w t :
  forallb (fun c => negb (is_space c)) w = true ->
  collapse (w ++ t) = w ++ collapse t.
Proof.
  induction w as [|c w IH]; [done|]. simpl.
  intros [Hc Hw]%andb_prop. apply negb_true_iff in Hc.
  rewrite collapse_char by done. by rewrite IH.
Qed.

Lemma join_cons sep x l : l <> [] -> join sep (x :: l) = x ++ sep ++ join sep l.
Proof. by destruct l. Qed.

Lemma py_strip_space c s : is_space c = true -> py_strip (c :: s) = py_strip s.
Proof. intros Hc. unfold py_strip. simpl. by rewrite Hc. Qed.

Lemma py_strip_nil_blank s : py_strip s = [] -> forallb is_space s = true.
Proof.
  unfold py_strip. induction s as [|c s IH]; [done|]. simpl.
  destruct (is_space c) eqn:Hc; [done|].
  rewrite rstrip_cons. simpl. by rewrite Hc.
Qed.

(** Joining the fields with one space is collapsing the whitespace of the
    stripped text. *)
Lemma join_split_collapse s :
  join [" "%char] (py_split s) = collapse (py_strip s).
Proof.
  remember (length s) as n eqn:Hn. revert s Hn.
  induction n as [n IH] using lt_wf_ind. intros [|c s] Hn; [done|].
  destruct (is_space c) eqn:Hc.
  { rewrite py_split_space, py_strip_space by done.
    apply (IH (length s)); [simpl in Hn; lia|done]. }
  destruct (word_span c s Hc) as (w & r & Hs & Hw & Hr). rewrite Hs.
  rewrite py_split_word by done.
  assert (py_strip (w ++ r) = w ++ rstrip is_space r) as ->.
  { unfold py_strip. rewrite <- Hs, lstrip_id by done. rewrite Hs.
    apply rstrip_word_app, Hw. }
  rewrite collapse_word_app by apply Hw.
  destruct Hr as [-> | (c' & r' & -> & Hc')]; [by rewrite app_nil_r|].
  rewrite py_split_space by done.
  assert (length r' < n) as Hlt.
  { apply (f_equal (@length ascii)) in Hs. rewrite length_app in Hs.
    simpl in *. destruct Hw as [Hne _]. destruct w; [done|]. simpl in Hs. lia. }
  destruct (py_split r') as [|f fs] eqn:Hsplit.
  - apply py_split_nil in Hsplit. rewrite rstrip_cons. cbn [forallb].
    rewrite Hc', Hsplit. cbn [andb join].
    change (collapse []) with (@nil ascii). by rewrite app_nil_r.
  - rewrite join_cons by done. f_equal.
    rewrite rstrip_cons. cbn [forallb]. rewrite Hc'. cbn [andb].
    destruct (forallb is_space r') eqn:Hblank.
    { by rewrite py_split_blank in Hsplit. }
    rewrite collapse_space by done. cbn [app]. f_equal.
    rewrite lstrip_rstrip_comm. fold (py_strip r').
    rewrite <- Hsplit. by apply (IH (length r')).
Qed.

Lemma lstrip_head_cases p s :
  lstrip p s = [] \/ exists c t, lstrip p s = c :: t /\ p c = false.
Proof.
  destruct (lstrip p s) as [|c t] eqn:E; [by left|right].
  exists c, t. split; [done|]. by apply (lstrip_head_stop p s c t).
Qed.

Lemma lstrip_collapse s :
  lstrip is_space (collapse s) = collapse (lstrip is_space s).
Proof.
  destruct s as [|c s]; [done|]. cbn [lstrip].
  destruct (is_space c) eqn:Hc.
  - rewrite collapse_space by done. cbn [lstrip].
    change (is_space " ") with true. cbn iota.
    destruct (lstrip_head_cases is_space s) as [-> | (a & t & -> & Ha)]; [done|].
    rewrite collapse_char by done. cbn [lstrip]. by rewrite Ha.
  - rewrite collapse_char by done. cbn [lstrip]. by rewrite Hc.
Qed.

Lemma collapse_blank_iff s :
  forallb is_space (collapse s) = forallb is_space s.
Proof.
  remember (length s) as n eqn:Hn. revert s Hn.
  induction n as [n IH] using lt_wf_ind. intros [|c s] Hn; [done|].
  destruct (is_space c) eqn:Hc.
  - rewrite collapse_space by done. cbn [forallb]. rewrite Hc.
    change (is_space " ") with true. cbn [andb].
    destruct (lstrip_suffix is_space s) as [pre Hpre].
    rewrite (IH (length (lstrip is_space s))); [| |done].
    + rewrite Hpre at 2. rewrite forallb_app.
      assert (forallb is_space pre = true) as ->; [|done].
      clear -Hpre. revert pre Hpre. induction s as [|a s IHs]; intros pre Hpre.
      * by destruct pre.
      * simpl in Hpre. destruct (is_space a) eqn:Ha.
        -- destruct pre as [|b pre].
           ++ simpl in Hpre. exfalso.
              destruct (lstrip_suffix is_space s) as [q Hq].
              rewrite <- Hpre in Hq. apply (f_equal (@length ascii)) in Hq.
              rewrite length_app in Hq. simpl in Hq. lia.
           ++ injection Hpre as <- Hpre. simpl. rewrite Ha. by apply IHs.
        -- destruct pre as [|b pre]; [done|]. exfalso.
           apply (f_equal (@length ascii)) in Hpre.
           simpl in Hpre. rewrite length_app in Hpre. simpl in Hpre. lia.
    + apply (f_equal (@length ascii)) in Hpre. rewrite length_app in Hpre.
      simpl in Hn. lia.
  - rewrite collapse_char by done. cbn [forallb]. by rewrite Hc.
Qed.

Lemma lstrip_length p s : length (lstrip p s) <= length s.
Proof.
  destruct (lstrip_suffix p s) as [pre H].
  apply (f_equal (@length ascii)) in H. rewrite length_app in H. lia.
Qed.

Lemma rstrip_collapse s :
  rstrip is_space (collapse s) = collapse (rstrip is_space s).
Proof.
  remember (length s) as n eqn:Hn. revert s Hn.
  induction n as [n IH] using lt_wf_ind. intros [|c s] Hn; [done|].
  simpl in Hn. rewrite (rstrip_cons is_space c s). cbn [forallb].
  destruct (is_space c) eqn:Hc; cbn [andb].
  - rewrite collapse_space by done. rewrite rstrip_cons. cbn [forallb].
    change (is_space " ") with true. cbn [andb].
    rewrite collapse_blank_iff.
    destruct (forallb is_space s) eqn:Hs.
    + by rewrite (lstrip_forall is_space is_space s Hs).
    + assert (forallb is_space (lstrip is_space s) = false) as ->.
      { destruct (forallb is_space (lstrip is_space s)) eqn:E; [|done].
        apply lstrip_all in E. rewrite lstrip_idem in E.
        assert (forallb is_space s = true) as Hs'; [|congruence].
        apply py_strip_nil_blank. unfold py_strip. by rewrite E. }
      rewrite collapse_space by done. f_equal.
      rewrite lstrip_rstrip_comm.
      apply (IH (length (lstrip is_space s))); [|done].
      pose proof (lstrip_length is_space s). lia.
  - rewrite collapse_char by done. rewrite rstrip_cons. cbn [forallb].
    rewrite Hc. cbn [andb]. rewrite collapse_char by done. f_equal.
    apply (IH (length s)); [lia|done].
Qed.

Lemma py_strip_collapse s : py_strip (collapse s) = collapse (py_strip s).
Proof. unfold py_strip. by rewrite lstrip_collapse, rstrip_collapse. Qed.

Lemma collapse_idem s : collapse (collapse s) = collapse s.
Proof.
  remember (length s) as n eqn:Hn. revert s Hn.
  induction n as [n IH] using lt_wf_ind. intros [|c s] Hn; [done|].
  simpl in Hn. destruct (is_space c) eqn:Hc.
  - rewrite collapse_space by done. rewrite collapse_space by done.
    f_equal. rewrite lstrip_collapse, lstrip_idem.
    apply (IH (length (lstrip is_space s))); [|done].
    pose proof (lstrip_length is_space s). lia.
  - rewrite collapse_char by done. rewrite collapse_char by done.
    f_equal. apply (IH (length s)); [lia|done].
Qed.

Lemma contains_lstrip_eq x s :
  is_space x = false -> contains x (lstrip is_space s) = contains x s.
Proof.
  intros Hx. induction s as [|c s IH]; [done|]. cbn [lstrip].
  destruct (is_space c) eqn:Hc; [|done].
  rewrite IH. change (contains x (c :: s)) with (Ascii.eqb x c || contains x s).
  destruct (Ascii.eqb_spec x c) as [->|]; [congruence|done].
Qed.

Lemma contains_collapse x s :
  is_space x = false -> contains x (collapse s) = contains x s.
Proof.
  intros Hx. remember (length s) as n eqn:Hn. revert s Hn.
  induction n as [n IH] using lt_wf_ind. intros [|c s] Hn; [done|].
  simpl in Hn. destruct (is_space c) eqn:Hc.
  - rewrite collapse_space by done.
    change (contains x (?a :: ?t)) with (Ascii.eqb x a || contains x t).
    rewrite (IH (length (lstrip is_space s))); [| |done].
    + rewrite contains_lstrip_eq by done.
      change (contains x (c :: s)) with (Ascii.eqb x c || contains x s).
      destruct (Ascii.eqb_spec x " "%char) as [->|]; [done|].
      destruct (Ascii.eqb_spec x c) as [->|]; [congruence|done].
    + pose proof (lstrip_length is_space s). lia.
  - rewrite collapse_char by done.
    change (contains x (c :: ?t)) with (Ascii.eqb x c || contains x t).
    by rewrite (IH (length s)) by (lia || done).
Qed.

Lemma collapse_app x c t :
  is_space c = false ->
  collapse (x ++ c :: t) = collapse x ++ collapse (c :: t).
Proof.
  intros Hc. remember (length x) as n eqn:Hn. revert x Hn.
  induction n as [n IH] using lt_wf_ind. intros [|a x] Hn; [done|].
  simpl in Hn. cbn [app]. destruct (is_space a) eqn:Ha.
  - rewrite !collapse_space by done. rewrite lstrip_stop by done.
    cbn [app]. f_equal. apply (IH (length (lstrip is_space x))); [|done].
    pose proof (lstrip_length is_space x). lia.
  - rewrite !(collapse_char a) by done. cbn [app]. f_equal.
    apply (IH (length x)); [lia|done].
Qed.

(** ** Normalization for comparison *)

Lemma rev_word cur :
  cur <> [] -> forallb (fun c => negb (is_space c)) cur = true ->
  is_word (rev cur).
Proof.
  intros Hne Hcur. split.
  - intros H. apply Hne. by rewrite <- (rev_involutive cur), H.
  - rewrite forallb_forall in *. intros b Hb. apply Hcur. by apply in_rev.
Qed.

Lemma split_fields_words cur s :
  forallb (fun c => negb (is_space c)) cur = true ->
  Forall is_word (split_fields cur s).
Proof.
  revert cur. induction s as [|c s IH]; intros cur Hcur; simpl.
  - destruct cur as [|a cur']; constructor; [|constructor].
    by apply rev_word.
  - destruct (is_space c) eqn:Hc.
    + destruct cur as [|a cur']; [by apply IH|].
      constructor; [by apply rev_word|by apply IH].
    + apply IH. simpl. by rewrite Hc.
Qed.

Lemma py_split_words s : Forall is_word (py_split s).
Proof. by apply split_fields_words. Qed.

Lemma normalize_collapse s : normalize (Some s) = collapse (py_strip s).
Proof.
  unfold normalize. by rewrite join_split_collapse, py_strip_collapse, py_strip_idem.
Qed.

Lemma collapse_nil_iff s : is_nil (collapse s) = is_nil s.
Proof.
  destruct s as [|c s]; [done|]. destruct (is_space c) eqn:Hc.
  - by rewrite collapse_space.
  - by rewrite collapse_char.
Qed.

Lemma parse_clause_collapse t : parse_clause (collapse t) = parse_clause t.
Proof. unfold parse_clause. cbv zeta. by rewrite collapse_idem. Qed.

Lemma contains_split x s :
  contains x s = true ->
  exists pre post, s = pre ++ x :: post /\ contains x pre = false.
Proof.
  induction s as [|c s IH]; [done|].
  change (contains x (c :: s)) with (Ascii.eqb x c || contains x s).
  destruct (Ascii.eqb_spec x c) as [<-|Hne].
  - intros _. by exists [], s.
  - intros (pre & post & -> & Hpre)%IH. exists (c :: pre), post.
    split; [done|].
    change (contains x (c :: pre)) with (Ascii.eqb x c || contains x pre).
    rewrite Hpre. by destruct (Ascii.eqb_spec x c).
Qed.

Lemma parse_normalize_some s :
  parse_prereq_raw (Some (normalize (Some s))) = parse_prereq_raw (Some s).
Proof.
  rewrite normalize_collapse, !parse_prereq_raw_clause, !py_strip_nil_or.
  rewrite py_strip_collapse, py_strip_idem, collapse_nil_iff.
  destruct (is_nil (py_strip s)); [done|].
  rewrite contains_collapse by done.
  destruct (contains ";" (py_strip s)) eqn:Hsemi.
  - apply contains_split in Hsemi as (pre & post & -> & Hpre).
    rewrite collapse_app by done. rewrite (collapse_char ";") by done.
    rewrite !before_first_app; [|done|by rewrite contains_collapse].
    by rewrite py_strip_collapse, parse_clause_collapse.
  - apply parse_clause_collapse.
Qed.

Lemma parse_normalize o :
  parse_prereq_raw (Some (normalize o)) = parse_prereq_raw o.
Proof. destruct o as [s|]; [apply parse_normalize_some|done]. Qed.

(** X8: [normalize] returns the empty string exactly on [None], on the
    empty string and on strings of whitespace only. *)
Theorem normalize_empty_iff_blank (o : option str) :
  normalize o = [] <-> is_blank o = true.
Proof.
  destruct o as [s|]; [|done]. rewrite normalize_collapse. simpl. split.
  - intros H. apply py_strip_nil_blank.
    destruct (py_strip s) as [|c t]; [done|].
    apply (f_equal is_nil) in H. by rewrite collapse_nil_iff in H.
  - intros H. by rewrite py_strip_blank.
Qed.

(** X9: [normalize] is idempotent: a normalized text is left as it is. *)
Theorem normalize_idempotent (o : option str) :
  normalize (Some (normalize o)) = normalize o.
Proof.
  destruct o as [s|]; [|done].
  rewrite !normalize_collapse.
  by rewrite py_strip_collapse, py_strip_idem, collapse_idem.
Qed.

(** X10: a normalized text is its words joined by single spaces, so the
    last [strip()] of [normalize] changes nothing: there is no whitespace
    at either end, and no whitespace other than one space between two
    words. *)
Theorem normalize_words (s : str) :
  normalize (Some s) = join [" "%char] (py_split s)
  /\ Forall is_word (py_split s).
Proof.
  split; [|apply py_split_words].
  by rewrite normalize_collapse, join_split_collapse.
Qed.

(** X11: normalizing a prerequisite text does not change its parse; two
    raw values that the audit compares equal, that is with equal
    [normalize], have the same structure. *)
Theorem normalize_preserves_parse (a b : option str) :
  normalize a = normalize b ->
  parse_prereq_raw (Some (normalize a)) = parse_prereq_raw a
  /\ parse_prereq_raw a = parse_prereq_raw b.
Proof.
  intros H. split; [apply parse_normalize|].
  by rewrite <- (parse_normalize a), <- (parse_normalize b), H.
Qed.

Lemma normalize_preserves_parse_witness :
  parse_prereq_raw (Some (lit " CSE  12 or  CSE 11;  and MATH 20A "))
  = parse_prereq_raw (Some (lit "CSE 12 or CSE 11; and  MATH 20A")).
Proof.
  apply (normalize_preserves_parse
           (Some (lit " CSE  12 or  CSE 11;  and MATH 20A "))
           (Some (lit "CSE 12 or CSE 11; and  MATH 20A"))).
  vm_compute. reflexivity.
Defined.

(** ** The enrichment of [parse_prereqs.main] *)

(** What the enrichment loop returns. *)
Lemma enrich_all_spec cs :
  exists cs',
    enrich_all cs = Ok cs'
    /\ Forall2
         (fun c c' =>
            code c' = code c /\ prereq_raw c' = prereq_raw c
            /\ exists st,
                 prereq_structured c' = Some st
                 /\ parse_prereq_raw (prereq_raw c) = Ok st
                 /\ Forall (fun g => g <> []) st)
         cs cs'.
Proof.
  induction cs as [|c cs (cs' & Hcs & IH)]; [by exists []|].
  destruct (parse_groups (prereq_raw c)) as (st & Hst & Hgroups).
  eexists (_ :: cs'). cbn [enrich_all]. unfold enrich. rewrite Hst.
  cbn [mbind result_bind]. rewrite Hcs. cbn [mbind result_bind].
  split; [done|]. constructor; [|done]. cbn [code prereq_raw prereq_structured].
  split; [done|]. split; [done|]. exists st. split; [done|]. split; [done|].
  eapply Forall_impl; [exact Hgroups|]. by intros g [? _].
Qed.

(** X12: the enrichment returns, course by course and in order, the
    course with its code and its [prereq_raw] kept and with
    [prereq_structured] set to the parse of [prereq_raw], whatever the
    field held before; enriching this output again returns it
    unchanged. *)
Theorem enrichment_idempotent (cs : list Course) :
  exists cs',
    enrich_all cs = Ok cs' /\ enrich_all cs' = Ok cs'
    /\ map code cs' = map code cs
    /\ Forall2
         (fun c c' =>
            code c' = code c /\ prereq_raw c' = prereq_raw c
            /\ exists st,
                 parse_prereq_raw (prereq_raw c) = Ok st
                 /\ prereq_structured c' = Some st)
         cs cs'.
Proof.
  destruct (enrich_all_spec cs) as (cs' & Hcs & H). exists cs'.
  split; [done|]. clear Hcs.
  induction H as [|c c' cs cs' Hc _ (IH1 & IH2 & IH3)];
    [by repeat split; constructor|].
  destruct Hc as (Hcode & Hraw & st & Hst & Hparse & _). split; [|split].
  - cbn [enrich_all]. unfold enrich. rewrite Hraw, Hparse.
    cbn [mbind result_bind]. rewrite IH1. cbn [mbind result_bind].
    do 2 f_equal. destruct c'. simpl in *. by subst.
  - simpl. by rewrite Hcode, IH2.
  - constructor; [|done]. split; [done|]. split; [done|]. by exists st.
Qed.

(** A course whose [prereq_structured] holds something else than the
    parse of its [prereq_raw]: the enrichment replaces it. *)
Example enrichment_replaces_structure :
  enrich_all
    [ Build_Course (lit "CSE 12") (Some (lit "CSE 8B or CSE 11"))
        (Some [[lit "MATH 20A"]]) ]
  = Ok [ Build_Course (lit "CSE 12") (Some (lit "CSE 8B or CSE 11"))
           (Some [[lit "CSE 8B"; lit "CSE 11"]]) ].
Proof. vm_compute. reflexivity. Qed.

(** X13: after the enrichment the two counts of [main] agree: a course
    has a non-empty structure exactly when one of its groups is non-empty,
    and [any] never meets [None]. *)
Theorem enriched_counts_agree (cs : list Course) :
  exists cs',
    enrich_all cs = Ok cs' /\ with_edges cs' = Some (with_structured cs').
Proof.
  destruct (enrich_all_spec cs) as (cs' & Hcs & H). exists cs'.
  split; [done|]. clear Hcs. induction H as [|c c' cs cs' Hc _ IH]; [done|].
  destruct Hc as (_ & _ & st & Hst & _ & Hne).
  cbn [with_edges]. rewrite Hst, IH. cbn [py_any].
  unfold with_structured. cbn [List.filter].
  assert (structure_of c' = st) as -> by (unfold structure_of; by rewrite Hst).
  f_equal. destruct st as [|g st]; [done|].
  apply Forall_cons in Hne as [Hg _]. by destruct g.
Qed.

Lemma Forall2_elem_of_l {A B} (R : A -> B -> Prop) l k x :
  Forall2 R l k -> x ∈ l -> exists y, y ∈ k /\ R x y.
Proof.
  induction 1 as [|a b l k Hab _ IH]; [by intros ?%elem_of_nil|].
  intros [-> | Hx]%elem_of_cons.
  - exists b. split; [by left|done].
  - destruct (IH Hx) as (y & Hy & Hxy). exists y. split; [by right|done].
Qed.

(** X14: for a catalog with unique codes, the edges [main] writes into a
    course are, group by group, the codes of its parsed [prereq_raw] that
    are codes of the catalog. *)
Theorem main_edges_of_parsed_text (cs : list Course) (c : Course) :
  NoDup (map code cs) -> c ∈ cs ->
  exists enriched edges st,
    main_outputs cs = Ok (enriched, edges)
    /\ parse_prereq_raw (prereq_raw c) = Ok st
    /\ forall i,
         group_sources edges (code c) i
         = List.filter (is_key cs) (nth i st []).
Proof.
  intros Hnd Hc. destruct (enrich_all_spec cs) as (cs' & Hcs & H).
  assert (map code cs' = map code cs) as Hcodes.
  { clear -H. induction H as [|a b l k (Hab & _) _ IH]; [done|].
    simpl. by rewrite Hab, IH. }
  destruct (Forall2_elem_of_l _ _ _ c H Hc)
    as (c' & Hc' & Hcode & _ & st & Hst & Hparse & _).
  exists cs', (build_prereq_edges cs'), st.
  unfold main_outputs. rewrite Hcs. cbn [mbind result_bind].
  split; [done|]. split; [done|]. intros i.
  rewrite <- Hcode, group_sources_spec; [|by rewrite Hcodes|done].
  unfold structure_of. rewrite Hst. cbn [default from_option id].
  apply List.filter_ext. intros s. unfold is_key. by rewrite Hcodes.
Qed.

Lemma main_edges_of_parsed_text_witness :
  exists enriched edges st,
    main_outputs
      [ Build_Course (lit "CSE 12") (Some (lit "CSE 8B or CSE 11")) None;
        Build_Course (lit "CSE 8B") None None ]
    = Ok (enriched, edges)
    /\ parse_prereq_raw (Some (lit "CSE 8B or CSE 11")) = Ok st
    /\ forall i,
         group_sources edges (lit "CSE 12") i
         = List.filter
             (is_key
                [ Build_Course (lit "CSE 12") (Some (lit "CSE 8B or CSE 11")) None;
                  Build_Course (lit "CSE 8B") None None ])
             (nth i st []).
Proof.
  refine (main_edges_of_parsed_text
            [ Build_Course (lit "CSE 12") (Some (lit "CSE 8B or CSE 11")) None;
              Build_Course (lit "CSE 8B") None None ]
            (Build_Course (lit "CSE 12") (Some (lit "CSE 8B or CSE 11")) None)
            _ _).
  - apply (bool_decide_unpack _). vm_compute. exact I.
  - left.
Defined.

(** ** The collection of [scrape_catalog.main] *)

Lemma fold_left_concat {A S} (step : S -> A -> S) (ls : list (list A)) st :
  fold_left (fun st l => fold_left step l st) ls st
  = fold_left step (concat ls) st.
Proof.
  revert st. induction ls as [|l ls IH]; intros st; simpl; [done|].
  by rewrite IH, fold_left_app.
Qed.

Lemma collect_first_by_code {A} (code_of : A -> str) l seen all :
  snd (fold_left (collect_course code_of) l (seen, all))
  = all ++ List.filter (fun y => negb (bool_decide (code_of y ∈ seen)))
             (first_by_code code_of l).
Proof.
  revert seen all. induction l as [|x l IH]; intros seen all; simpl.
  - by rewrite app_nil_r.
  - rewrite filter_filter_and. destruct (decide (code_of x ∈ seen)) as [Hx|Hx].
    + rewrite (bool_decide_eq_true_2 _ Hx). simpl. rewrite IH. f_equal.
      apply List.filter_ext. intros y.
      destruct (decide (code_of y ∈ seen)) as [Hy|Hy].
      * by rewrite (bool_decide_eq_true_2 _ Hy).
      * rewrite (bool_decide_eq_false_2 _ Hy). simpl. symmetry.
        apply negb_true_iff, bool_decide_eq_false. congruence.
    + rewrite (bool_decide_eq_false_2 _ Hx). simpl. rewrite IH, <- app_assoc.
      simpl. do 2 f_equal. apply List.filter_ext. intros y.
      rewrite <- negb_orb. f_equal. apply eq_true_iff_eq.
      rewrite orb_true_iff, !bool_decide_eq_true, elem_of_union,
        elem_of_singleton. tauto.
Qed.

Lemma first_by_code_elem {A} (code_of : A -> str) l y :
  y ∈ first_by_code code_of l -> y ∈ l.
Proof.
  induction l as [|x l IH]; simpl; [done|].
  rewrite !elem_of_cons, list_elem_of_In, filter_In, <- list_elem_of_In.
  intuition.
Qed.

Lemma first_by_code_codes {A} (code_of : A -> str) l y :
  y ∈ l -> code_of y ∈ map code_of (first_by_code code_of l).
Proof.
  induction l as [|x l IH]; simpl; [by intros ?%elem_of_nil|].
  intros [-> | Hy]%elem_of_cons; [by left|].
  destruct (decide (code_of y = code_of x)) as [->|Hne]; [by left|right].
  destruct (list_elem_of_fmap_1 _ _ _ (IH Hy)) as (z & Hz & Hzin).
  rewrite Hz. apply list_elem_of_fmap_2, list_elem_of_In, filter_In.
  split; [by apply list_elem_of_In|].
  apply negb_true_iff, bool_decide_eq_false. congruence.
Qed.

Lemma first_by_code_NoDup {A} (code_of : A -> str) l :
  NoDup (map code_of (first_by_code code_of l)).
Proof.
  induction l as [|x l IH]; simpl; constructor.
  - intros (z & Hz & Hzin)%list_elem_of_fmap.
    apply list_elem_of_In, filter_In in Hzin as [_ Hzin].
    apply negb_true_iff, bool_decide_eq_false in Hzin. congruence.
  - clear -IH. induction (first_by_code code_of l) as [|z zs IHz]; simpl; [constructor|].
    simpl in IH. apply NoDup_cons in IH as [Hz IH].
    destruct (negb _); [|by apply IHz].
    simpl. constructor; [|by apply IHz].
    intros (w & Hw & Hwin)%list_elem_of_fmap. apply Hz. rewrite Hw.
    apply list_elem_of_fmap_2. apply list_elem_of_In, filter_In in Hwin as [? _].
    by apply list_elem_of_In.
Qed.

(** X15: the courses collected over all departments are the first course
    of each code, in scraping order: a later course with a code already
    seen is skipped, on the same page or on another. *)
Theorem collected_first_of_each_code {A} (code_of : A -> str)
    (scraped : list (list A)) :
  collect_departments code_of scraped = first_by_code code_of (concat scraped).
Proof.
  unfold collect_departments. rewrite fold_left_concat, collect_first_by_code.
  simpl. apply filter_true. intros y. apply negb_true_iff, bool_decide_eq_false.
  apply not_elem_of_empty.
Qed.

(** X16: the collected courses have pairwise different codes, every
    collected course was scraped, and every scraped code is kept: the
    catalog written by the scraper satisfies the uniqueness the edge
    grouping needs. *)
Theorem collected_codes_unique {A} (code_of : A -> str)
    (scraped : list (list A)) :
  NoDup (map code_of (collect_departments code_of scraped))
  /\ collect_departments code_of scraped ⊆ concat scraped
  /\ map code_of (concat scraped)
     ⊆ map code_of (collect_departments code_of scraped).
Proof.
  unfold collect_departments. rewrite fold_left_concat, collect_first_by_code.
  simpl. rewrite filter_true.
  2:{ intros y. apply negb_true_iff, bool_decide_eq_false.
      apply not_elem_of_empty. }
  split; [apply first_by_code_NoDup|]. split.
  - intros y. apply first_by_code_elem.
  - intros s (y & -> & Hy)%list_elem_of_fmap. by apply first_by_code_codes.
Qed.

(** ** Texts made of words *)

Lemma join_spaced w ws : join [" "%char] (w :: ws) = w ++ spaced_words ws.
Proof.
  revert w. induction ws as [|v ws IH]; intros w.
  - simpl. by rewrite app_nil_r.
  - rewrite join_cons by done. rewrite IH. done.
Qed.

Lemma join_app sep (l1 l2 : list str) :
  l1 <> [] -> l2 <> [] ->
  join sep (l1 ++ l2) = join sep l1 ++ sep ++ join sep l2.
Proof.
  intros H1 H2. induction l1 as [|x l1 IH]; [done|].
  destruct l1 as [|y l1].
  - simpl. by destruct l2.
  - change ((x :: y :: l1) ++ l2) with (x :: (y :: l1) ++ l2).
    rewrite (join_cons sep x ((y :: l1) ++ l2)) by done.
    rewrite IH by done. rewrite (join_cons sep x (y :: l1)) by done.
    list_eq.
Qed.

(** The fields of words joined by single spaces are the words. *)
Lemma py_split_spaced ws :
  Forall is_word ws -> py_split (spaced_words ws) = ws.
Proof.
  induction 1 as [|w ws Hw Hws IH]; [done|].
  change (spaced_words (w :: ws)) with (" "%char :: w ++ spaced_words ws).
  rewrite py_split_space by done. rewrite py_split_word; [by rewrite IH|done|].
  destruct ws as [|v ws']; [by left|right]. by eexists _, _.
Qed.

Lemma py_split_join ws :
  Forall is_word ws -> py_split (join [" "%char] ws) = ws.
Proof.
  intros [|w ws' Hw Hws]; [done|]. rewrite join_spaced.
  rewrite py_split_word; [by rewrite py_split_spaced|done|].
  destruct ws' as [|v ws'']; [by left|right]. by eexists _, _.
Qed.

(** A text of words joined by single spaces is stripped and collapsed. *)
Lemma words_text_fixed ws :
  Forall is_word ws ->
  py_strip (join [" "%char] ws) = join [" "%char] ws
  /\ collapse (join [" "%char] ws) = join [" "%char] ws.
Proof.
  intros Hws.
  assert (normalize (Some (join [" "%char] ws))
          = join [" "%char] (py_split (join [" "%char] ws))) as Hn
    by by rewrite normalize_collapse, join_split_collapse.
  rewrite py_split_join in Hn by done.
  assert (py_strip (join [" "%char] ws) = join [" "%char] ws) as Hstrip.
  { unfold normalize in Hn. by rewrite py_split_join in Hn. }
  split; [done|]. rewrite normalize_collapse, Hstrip in Hn. done.
Qed.

Lemma forallb_join (q : ascii -> bool) sep l :
  forallb q sep = true -> Forall (fun x => forallb q x = true) l ->
  forallb q (join sep l) = true.
Proof.
  intros Hsep. induction 1 as [|x l Hx Hl IH]; [done|].
  destruct l as [|y l]; [done|].
  rewrite join_cons by done. by rewrite !forallb_app, Hx, Hsep, IH.
Qed.

(** ** The parts of a code *)

Lemma extracted_code_parts code :
  extracted_code code ->
  code = dept_prefix code ++ " "%char :: number_part code
  /\ 2 <= length (dept_prefix code) <= 4
  /\ forallb is_upper (dept_prefix code) = true
  /\ is_word (dept_prefix code) /\ is_word (number_part code)
  /\ (exists c t, number_part code = c :: t /\ is_digit c = true)
  /\ forallb (fun c => is_digit c || is_upper c) (number_part code) = true.
Proof.
  intros (d & ds & x & -> & Hd & Hup & Hn & Hds & Hx).
  assert (dept_prefix (d ++ " "%char :: ds ++ x) = d) as Hdept.
  { apply before_first_app. by apply upper_no_blank. }
  assert (number_part (d ++ " "%char :: ds ++ x) = ds ++ x) as Hnum.
  { unfold number_part. rewrite Hdept.
    change (d ++ " "%char :: ds ++ x) with (d ++ [" "%char] ++ ds ++ x).
    rewrite app_assoc.
    replace (S (length d)) with (length (d ++ [" "%char])) by list_len.
    apply drop_app_length. }
  rewrite Hdept, Hnum.
  assert (forallb (fun c => is_digit c || is_upper c) (ds ++ x) = true) as Hall.
  { rewrite forallb_app. apply andb_true_intro. split.
    - revert Hds. apply forallb_impl. by intros c ->.
    - revert Hx. apply forallb_impl. intros c ->. apply orb_true_r. }
  repeat split; try done; try lia.
  - intros ->. simpl in Hd. lia.
  - by apply upper_no_space.
  - intros H. destruct ds; [simpl in Hn; lia|done].
  - revert Hall. apply forallb_impl. intros c [Hc|Hc]%orb_prop.
    + by apply digit_facts in Hc as (-> & _).
    + by apply upper_facts in Hc as (-> & _).
  - destruct ds as [|c ds]; [simpl in Hn; lia|]. exists c, (ds ++ x).
    split; [done|]. simpl in Hds. by apply andb_prop in Hds as [? _].
Qed.

Lemma code_is_words code :
  extracted_code code ->
  code = join [" "%char] (code_words code) /\ Forall is_word (code_words code).
Proof.
  intros (Hc & _ & _ & Hd & Hn & _)%extracted_code_parts. split.
  - unfold code_words. simpl. done.
  - unfold code_words. constructor; [done|]. constructor; [done|]. constructor.
Qed.

Lemma group_words_not_nil g : g <> [] -> group_words g <> [].
Proof. destruct g as [|c [|c' g]]; done. Qed.

Lemma show_group_words g :
  Forall extracted_code g ->
  show_group g = join [" "%char] (group_words g)
  /\ Forall is_word (group_words g).
Proof.
  induction 1 as [|c g Hc Hg [IH1 IH2]]; [done|].
  destruct (code_is_words c Hc) as [Hcw Hww].
  destruct g as [|c' g]; [done|].
  split.
  - unfold show_group in *. rewrite join_cons by done. rewrite IH1.
    change (group_words (c :: c' :: g))
      with (code_words c ++ [lit "or"] ++ group_words (c' :: g)).
    rewrite join_app; [|done|done].
    rewrite join_app; [|done|by apply group_words_not_nil].
    rewrite <- Hcw. list_eq.
  - change (group_words (c :: c' :: g))
      with (code_words c ++ [lit "or"] ++ group_words (c' :: g)).
    apply Forall_app. split; [done|]. apply Forall_app. split; [|done].
    constructor; [|constructor]. split; [done|done].
Qed.

(** ** Splitting a text of words at "and" *)

Lemma and_letter_facts (lower upper c : ascii) :
  (lower, upper) = ("a", "A")%char \/ (lower, upper) = ("n", "N")%char
  \/ (lower, upper) = ("d", "D")%char ->
  is_char_i lower upper c = true ->
  is_space c = false /\ is_digit c = false
  /\ (is_upper c = true -> c = upper).
Proof.
  intros [[= -> ->] | [[= -> ->] | [= -> ->]]]; all_chars c.
Qed.

(** What a match of the "and" pattern is made of. *)
Lemma and_match_inv t n :
  re_match AND_RE t = Some n ->
  exists sp a b d sp2 rest,
    t = sp ++ a :: b :: d :: sp2 ++ rest
    /\ 1 <= length sp /\ forallb is_space sp = true
    /\ is_char_i "a" "A" a = true /\ is_char_i "n" "N" b = true
    /\ is_char_i "d" "D" d = true
    /\ 1 <= length sp2 /\ forallb is_space sp2 = true.
Proof.
  unfold re_match. simpl atoms. simpl dollar.
  intros (sp & r1 & n1 & -> & Hsp & _ & Hws & H1 & ->)%match_atoms_cons.
  apply match_atoms_cons in H1 as (la & r2 & n2 & -> & Ha1 & Ha2 & Ha & H2 & ->).
  apply match_atoms_cons in H2 as (lb & r3 & n3 & -> & Hb1 & Hb2 & Hb & H3 & ->).
  apply match_atoms_cons in H3 as (ld & r4 & n4 & -> & Hd1 & Hd2 & Hd & H4 & ->).
  apply match_atoms_cons in H4 as (sp2 & rest & n5 & -> & Hsp2 & _ & Hws2 & _ & _).
  simpl in *. specialize (Ha2 1 eq_refl). specialize (Hb2 1 eq_refl).
  specialize (Hd2 1 eq_refl).
  destruct la as [|a [|??]]; simpl in *; try lia.
  destruct lb as [|b [|??]]; simpl in *; try lia.
  destruct ld as [|d [|??]]; simpl in *; try lia.
  rewrite andb_true_r in Ha, Hb, Hd.
  by exists sp, a, b, d, sp2, rest.
Qed.

(** After a space, a word that is not "and" starts no match; neither does
    a last word. *)
Lemma and_no_match_word w r :
  is_word w ->
  and_like w = false \/ r = [] ->
  r = [] \/ (exists c r', r = c :: r' /\ is_space c = true) ->
  re_match AND_RE (" "%char :: w ++ r) = None.
Proof.
  intros [Hne Hw] Hand Hr.
  destruct (re_match AND_RE (" "%char :: w ++ r)) as [n|] eqn:E; [exfalso|done].
  apply and_match_inv in E
    as (sp & a & b & d & sp2 & rest & Ht & Hsp & Hws & Ha & Hb & Hd & Hsp2 & Hws2).
  destruct (and_letter_facts "a" "A" a) as (Hsa & _); [by left|done|].
  destruct (and_letter_facts "n" "N" b) as (Hsb & _); [right; by left|done|].
  destruct (and_letter_facts "d" "D" d) as (Hsd & _); [right; by right|done|].
  assert (forall c r', r = c :: r' -> is_space c = true) as Hr'.
  { intros c r' ->. destruct Hr as [? | (? & ? & [= <- <-] & ?)]; done. }
  destruct sp as [|s1 [|s2 sp]]; [simpl in Hsp; lia| |].
  2:{ destruct w as [|c1 w]; [done|]. simpl in Ht, Hws, Hw.
      injection Ht as _ Hc1 _. subst c1.
      apply andb_prop in Hws as [_ [Hs2 _]%andb_prop].
      apply andb_prop in Hw as [Hw _]. apply negb_true_iff in Hw. congruence. }
  destruct sp2 as [|s3 sp2]; [simpl in Hsp2; lia|].
  simpl in Hws2. apply andb_prop in Hws2 as [Hs3 _].
  simpl in Ht. injection Ht as _ Ht.
  destruct w as [|c1 [|c2 [|c3 [|c4 w]]]]; simpl in Ht; try done.
  - injection Ht as -> Ht. apply Hr' in Ht. congruence.
  - injection Ht as -> -> Ht. apply Hr' in Ht. congruence.
  - injection Ht as -> -> -> Ht. destruct Hand as [Hand | ->]; [|done].
    simpl in Hand. by rewrite Ha, Hb, Hd in Hand.
  - injection Ht as -> -> -> -> _. simpl in Hw.
    rewrite Hs3 in Hw. simpl in Hw. by rewrite !andb_false_r in Hw.
Qed.

(** The word "and" between spaces, before a word, is a match. *)
Lemma and_match_word c t :
  is_space c = false ->
  re_match AND_RE (lit " and " ++ c :: t) = Some 5.
Proof.
  intros Hc. unfold re_match. simpl atoms. simpl dollar. cbn [match_atoms].
  assert (greedy (plus is_space) (lit " and " ++ c :: t) = 1) as -> by done.
  apply backtrack_first; [done|].
  change (drop 1 (lit " and " ++ c :: t)) with (lit "and " ++ c :: t).
  rewrite (backtrack_first _ _ 1 4); [done|done|].
  change (drop 1 (lit "and " ++ c :: t)) with (lit "nd " ++ c :: t).
  rewrite (backtrack_first _ _ 1 3); [done|done|].
  change (drop 1 (lit "nd " ++ c :: t)) with (lit "d " ++ c :: t).
  rewrite (backtrack_first _ _ 1 2); [done|done|].
  change (drop 1 (lit "d " ++ c :: t)) with (" "%char :: c :: t).
  assert (greedy (plus is_space) (" "%char :: c :: t) = 1) as ->.
  { unfold greedy. simpl. by rewrite Hc. }
  by rewrite (backtrack_first _ _ 1 1).
Qed.

Lemma re_split_word_app w t :
  forallb (fun c => negb (is_space c)) w = true ->
  re_split AND_RE (w ++ t) = prepend w (re_split AND_RE t).
Proof.
  induction w as [|c w IH]; simpl.
  - intros _. pose proof (re_split_not_nil AND_RE t).
    by destruct (re_split AND_RE t).
  - intros [Hc Hw]%andb_prop. apply negb_true_iff in Hc.
    rewrite re_split_cons_nomatch.
    + rewrite IH by done. pose proof (re_split_not_nil AND_RE t).
      by destruct (re_split AND_RE t).
    + left. by apply (match_atoms_no_start (plus is_space)).
Qed.

Lemma re_split_spaced_words ws t :
  Forall (fun w => is_word w /\ and_like w = false) ws ->
  t = [] \/ (exists c t', t = c :: t' /\ is_space c = true) ->
  re_split AND_RE (spaced_words ws ++ t)
  = prepend (spaced_words ws) (re_split AND_RE t).
Proof.
  intros Hws Ht. induction Hws as [|w ws [Hw Hand] _ IH].
  - simpl. pose proof (re_split_not_nil AND_RE t).
    by destruct (re_split AND_RE t).
  - replace (spaced_words (w :: ws) ++ t)
      with (" "%char :: w ++ (spaced_words ws ++ t))
      by (unfold spaced_words; simpl; list_eq).
    rewrite re_split_cons_nomatch.
    + rewrite re_split_word_app by apply Hw. rewrite IH.
      pose proof (re_split_not_nil AND_RE t).
      destruct (re_split AND_RE t) as [|piece pieces]; [done|].
      simpl. do 2 f_equal. unfold spaced_words. simpl. list_eq.
    + left. apply and_no_match_word; [done|by left|].
      destruct ws as [|v ws]; [done|]. right. by eexists _, _.
Qed.

Lemma re_split_and_word c t :
  is_space c = false ->
  re_split AND_RE (lit " and " ++ c :: t) = [] :: re_split AND_RE (c :: t).
Proof.
  intros Hc.
  change (lit " and " ++ c :: t) with (" "%char :: lit "and " ++ c :: t).
  rewrite (re_split_cons_match _ _ _ 4); [done|].
  by apply (and_match_word c t).
Qed.

(** ** Extracting the codes of a written group *)

(** The code pattern matches a code followed by the end, or by a character
    that is neither an uppercase letter nor a digit. *)
Lemma course_code_match_before d ds x t :
  2 <= length d <= 4 -> forallb is_upper d = true ->
  1 <= length ds -> forallb is_digit ds = true ->
  forallb is_upper x = true ->
  t = [] \/ (exists c t', t = c :: t' /\ is_upper c = false /\ is_digit c = false) ->
  re_match COURSE_CODE_RE ((d ++ " "%char :: ds ++ x) ++ t)
  = Some (length (d ++ " "%char :: ds ++ x)).
Proof.
  intros Hd Hup Hn Hds Hx Ht. unfold re_match. simpl atoms. simpl dollar.
  assert (match x ++ t with c :: _ => is_digit c = false | [] => True end) as Hxt.
  { destruct x as [|c x]; simpl.
    - destruct Ht as [-> | (c & t' & -> & _ & ?)]; done.
    - simpl in Hx. apply andb_prop in Hx as [Hc _].
      by apply upper_facts in Hc as (_ & _ & ? & _). }
  assert (match t with c :: _ => is_upper c = false | [] => True end) as Ht'.
  { destruct Ht as [-> | (c & t' & -> & ? & _)]; done. }
  replace ((d ++ " "%char :: ds ++ x) ++ t)
    with (d ++ " "%char :: ds ++ (x ++ t)) by list_eq.
  assert (run_length is_upper (d ++ " "%char :: ds ++ (x ++ t)) = length d) as Hrun
    by by apply run_length_stop.
  assert (greedy (Atom is_upper 2 (Some 4)) (d ++ " "%char :: ds ++ (x ++ t))
          = length d) as G1.
  { unfold greedy. cbn [hi cls]. rewrite Hrun. lia. }
  assert (greedy (one (is_char " ")) (" "%char :: ds ++ (x ++ t)) = 1) as G2.
  { unfold greedy. cbn [hi cls one]. destruct ds as [|c ds]; [simpl in Hn; lia|].
    simpl in Hds. apply andb_prop in Hds as [Hc _].
    apply digit_facts in Hc as (_ & _ & _ & Hc & _).
    assert (run_length (is_char " ") (" "%char :: (c :: ds) ++ x ++ t) = 1) as ->;
      [|done].
    change (S (run_length (is_char " ") (c :: ds ++ x ++ t)) = 1).
    simpl. unfold is_char. by rewrite Hc. }
  assert (greedy (plus is_digit) (ds ++ (x ++ t)) = length ds) as G3.
  { unfold greedy. cbn [hi cls plus].
    destruct (x ++ t) as [|c xt]; [rewrite app_nil_r; by apply run_length_all_nil|].
    by apply run_length_stop. }
  assert (greedy (star is_upper) (x ++ t) = length x) as G4.
  { unfold greedy. cbn [hi cls star].
    destruct t as [|c t']; [rewrite app_nil_r; by apply run_length_all_nil|].
    by apply run_length_stop. }
  cbn [match_atoms]. rewrite G1.
  apply backtrack_first; [cbn [lo]; lia|].
  rewrite drop_app_length, G2.
  rewrite (backtrack_first _ _ 1 (1 + (length ds + (length x + 0)))); [|done|].
  { cbn [option_map]. f_equal. list_len. }
  change (drop 1 (" "%char :: ds ++ x ++ t)) with (ds ++ x ++ t). rewrite G3.
  rewrite (backtrack_first _ _ (length ds) (length ds + (length x + 0)));
    [done|done|].
  rewrite drop_app_length, G4.
  rewrite (backtrack_first _ _ (length x) (length x + 0));
    [done|cbn [lo star]; lia|done].
Qed.

Lemma finditer_code_app code t :
  extracted_code code ->
  t = [] \/ (exists c t', t = c :: t' /\ is_upper c = false /\ is_digit c = false) ->
  finditer COURSE_CODE_RE (code ++ t) = code :: finditer COURSE_CODE_RE t.
Proof.
  intros (d & ds & x & -> & Hd & Hup & Hn & Hds & Hx) Ht.
  pose proof (course_code_match_before d ds x t Hd Hup Hn Hds Hx Ht) as Hm.
  set (code := d ++ " "%char :: ds ++ x) in *.
  destruct code as [|c code'] eqn:E.
  { subst code. destruct d; [simpl in Hd; lia|done]. }
  cbn [app] in *. rewrite (finditer_cons_match _ _ _ (length code')); [|done].
  f_equal.
  - change (take (S (length code')) (c :: code' ++ t))
      with (take (length (c :: code')) ((c :: code') ++ t)).
    apply take_app_exact.
  - by rewrite drop_app_length.
Qed.

Lemma finditer_or_app t :
  finditer COURSE_CODE_RE (lit " or " ++ t) = finditer COURSE_CODE_RE t.
Proof.
  change (lit " or " ++ t) with (" "%char :: "o"%char :: "r"%char :: " "%char :: t).
  do 4 (rewrite finditer_cons_nomatch
          by (left; apply (match_atoms_no_start (Atom is_upper 2 (Some 4)));
              [simpl; lia|done])).
  done.
Qed.

Lemma finditer_show_group g :
  Forall extracted_code g -> finditer COURSE_CODE_RE (show_group g) = g.
Proof.
  induction 1 as [|c g Hc Hg IH]; [done|]. unfold show_group in *.
  destruct g as [|c' g].
  - simpl. rewrite <- (app_nil_r c) at 1.
    rewrite finditer_code_app; [done|done|by left].
  - rewrite join_cons by done.
    rewrite finditer_code_app; [|done|right; by eexists _, _].
    by rewrite finditer_or_app, IH.
Qed.

Lemma filter_true_on {A} (f : A -> bool) (l : list A) :
  (forall y, y ∈ l -> f y = true) -> List.filter f l = l.
Proof.
  induction l as [|x l IH]; intros H; simpl; [done|].
  rewrite H by left. rewrite IH; [done|]. intros y Hy. apply H. by right.
Qed.

Lemma first_occurrences_id l : NoDup l -> first_occurrences l = l.
Proof.
  induction 1 as [|x l Hx Hl IH]; [done|]. simpl. rewrite IH. f_equal.
  apply filter_true_on. intros y Hy.
  apply negb_true_iff, bool_decide_eq_false. intros ->. by apply Hx.
Qed.

Lemma extract_show_group g :
  Forall extracted_code g -> NoDup g ->
  extract_course_codes (show_group g) = g.
Proof.
  intros Hg Hnd. rewrite extract_first_occurrences. unfold normalized_matches.
  rewrite finditer_show_group by done.
  assert (map normalize_code g = g) as ->.
  { clear Hnd. induction Hg as [|c g Hc _ IH]; [done|]. simpl. rewrite IH.
    unfold normalize_code.
    by destruct (normalize_parsed c (extracted_parsed c Hc)) as [-> ->]. }
  rewrite filter_true_on; [by apply first_occurrences_id|].
  intros c Hc. rewrite Forall_forall in Hg.
  destruct (Hg c Hc) as (d & ? & ? & -> & Hd & _).
  destruct d; [simpl in Hd; lia|done].
Qed.

Lemma show_group_head g :
  g <> [] -> Forall extracted_code g ->
  exists c t, show_group g = c :: t /\ is_upper c = true.
Proof.
  intros Hne Hg. destruct g as [|code g]; [done|].
  apply Forall_cons in Hg as [(d & ds & x & -> & Hd & Hup & _) _].
  destruct d as [|c d]; [simpl in Hd; lia|]. simpl in Hup.
  apply andb_prop in Hup as [Hc _]. unfold show_group.
  destruct g; [by eexists _, _|]. rewrite join_cons by done. by eexists _, _.
Qed.

(** The loop on a written group appends the group. *)
Lemma parse_segment_show_group res ld g :
  g <> [] -> Forall extracted_code g -> NoDup g ->
  exists d, parse_segment (res, ld) (show_group g) = Ok (res ++ [g], Some d).
Proof.
  intros Hne Hg Hnd. unfold parse_segment. cbv zeta.
  destruct (show_group_words g Hg) as [Hshow Hwords].
  destruct (words_text_fixed _ Hwords) as [Hstrip _]. rewrite <- Hshow in Hstrip.
  rewrite Hstrip.
  destruct (show_group_head g Hne Hg) as (c & t & Hhead & _).
  assert (is_nil (show_group g) = false) as -> by by rewrite Hhead.
  rewrite extract_show_group by done.
  destruct g as [|c0 g0] eqn:Eg; [done|]. cbn [is_nil andb]. rewrite <- Eg in *.
  destruct (last g) as [code|] eqn:Hlast.
  2:{ apply last_None in Hlast. congruence. }
  rewrite (index_last_last _ _ Hlast). cbn [mbind result_bind].
  assert (parsed_code code) as Hp.
  { apply extracted_parsed. rewrite Forall_forall in Hg.
    by apply Hg, last_Some_elem_of. }
  apply parsed_code_dept in Hp as (_ & _ & ->). cbn [mbind result_bind].
  by eexists.
Qed.

Lemma for_each_show_groups st res ld :
  Forall (fun g => g <> [] /\ NoDup g /\ Forall extracted_code g) st ->
  exists ld',
    for_each parse_segment (map show_group st) (res, ld) = Ok (res ++ st, ld').
Proof.
  intros Hst. revert res ld.
  induction Hst as [|g st (Hne & Hnd & Hg) _ IH]; intros res ld.
  - exists ld. by rewrite app_nil_r.
  - cbn [map for_each].
    destruct (parse_segment_show_group res ld g Hne Hg Hnd) as (d & ->).
    cbn [mbind result_bind]. destruct (IH (res ++ [g]) (Some d)) as (ld' & ->).
    exists ld'. by rewrite <- app_assoc.
Qed.

Lemma and_like_upper d :
  forallb is_upper d = true -> and_like d = true -> d = lit "AND".
Proof.
  destruct d as [|a [|b [|c [|??]]]]; try done. simpl.
  intros [Ha [Hb [Hc _]%andb_prop]%andb_prop]%andb_prop
         [[Ha' Hb']%andb_prop Hc']%andb_prop.
  destruct (and_letter_facts "a" "A" a) as (_ & _ & Ea); [by left|done|].
  destruct (and_letter_facts "n" "N" b) as (_ & _ & Eb); [right; by left|done|].
  destruct (and_letter_facts "d" "D" c) as (_ & _ & Ec); [right; by right|done|].
  by rewrite (Ea Ha), (Eb Hb), (Ec Hc).
Qed.

Lemma code_words_plain code :
  extracted_code code -> dept_prefix code <> lit "AND" ->
  Forall (fun w => is_word w /\ and_like w = false) (code_words code).
Proof.
  intros (_ & _ & Hup & Hd & Hn & (c & t & Hnum & Hc) & _)%extracted_code_parts Hne.
  unfold code_words. constructor; [|constructor; [|constructor]].
  - split; [done|]. destruct (and_like (dept_prefix code)) eqn:E; [|done].
    by apply and_like_upper in E.
  - split; [done|]. rewrite Hnum. destruct t as [|b [|d [|??]]]; try done.
    simpl. destruct (is_char_i "a" "A" c) eqn:E; [|done].
    destruct (and_letter_facts "a" "A" c) as (_ & ? & _); [by left|done|congruence].
Qed.

Lemma group_words_plain g :
  Forall (fun c => extracted_code c /\ dept_prefix c <> lit "AND") g ->
  Forall (fun w => is_word w /\ and_like w = false) (group_words g).
Proof.
  induction 1 as [|c g [Hc Hne] _ IH]; [constructor|].
  pose proof (code_words_plain c Hc Hne) as Hcw.
  destruct g as [|c' g]; [done|].
  change (group_words (c :: c' :: g))
    with (code_words c ++ [lit "or"] ++ group_words (c' :: g)).
  apply Forall_app. split; [done|]. apply Forall_app. split; [|done].
  constructor; [|constructor]. split; [|done]. split; done.
Qed.

Lemma show_structure_cons g st :
  st <> [] ->
  show_structure (g :: st) = show_group g ++ lit " and " ++ show_structure st.
Proof.
  intros Hst. unfold show_structure. cbn [map]. rewrite join_cons; [done|].
  by destruct st.
Qed.

Lemma show_structure_head st :
  st <> [] -> Forall (fun g => g <> [] /\ Forall extracted_code g) st ->
  exists c t, show_structure st = c :: t /\ is_upper c = true.
Proof.
  intros Hne Hst. destruct st as [|g st]; [done|].
  apply Forall_cons in Hst as [[Hg1 Hg2] _].
  destruct (show_group_head g Hg1 Hg2) as (c & t & Hhead & Hc).
  destruct st as [|g' st].
  - exists c, t. by rewrite <- Hhead.
  - rewrite show_structure_cons by done. rewrite Hhead. by eexists _, _.
Qed.

(** Splitting a written structure at "and" gives its written groups. *)
Lemma re_split_show_structure st :
  st <> [] ->
  Forall (fun g => g <> []
                   /\ Forall (fun c => extracted_code c
                                       /\ dept_prefix c <> lit "AND") g) st ->
  re_split AND_RE (show_structure st) = map show_group st.
Proof.
  intros Hne Hst. induction Hst as [|g st [Hg1 Hg2] Hst IH]; [done|].
  assert (Forall extracted_code g) as Hcodes.
  { eapply Forall_impl; [exact Hg2|]. by intros c [? _]. }
  destruct (show_group_words g Hcodes) as [Hshow _].
  pose proof (group_words_plain g Hg2) as Hplain.
  destruct (group_words g) as [|w ws] eqn:Ew.
  { by apply group_words_not_nil in Ew. }
  apply Forall_cons in Hplain as [[Hw _] Hplain].
  rewrite join_spaced in Hshow.
  destruct st as [|g' st].
  - change (show_structure [g]) with (show_group g). rewrite Hshow.
    rewrite <- (app_nil_r (spaced_words ws)).
    rewrite re_split_word_app by apply Hw.
    rewrite re_split_spaced_words; [|done|by left].
    change (re_split AND_RE []) with [@nil ascii]. cbn [prepend map].
    by rewrite Hshow, !app_nil_r.
  - rewrite show_structure_cons by done.
    destruct (show_structure_head (g' :: st)) as (c & t & Hhead & Hc); [done| |].
    { eapply Forall_impl; [exact Hst|]. intros g0 [? Hg0]. split; [done|].
      eapply Forall_impl; [exact Hg0|]. by intros ? [? _]. }
    rewrite Hshow at 1. rewrite <- app_assoc.
    rewrite re_split_word_app by apply Hw.
    rewrite re_split_spaced_words; [|done|right; by eexists _, _].
    rewrite Hhead, re_split_and_word.
    2:{ by apply upper_facts in Hc as (? & _). }
    rewrite <- Hhead, IH by done. cbn [prepend map].
    by rewrite Hshow, !app_nil_r.
Qed.

Lemma structure_words_not_nil st :
  st <> [] -> Forall (fun g => g <> []) st -> structure_words st <> [].
Proof.
  intros Hne Hst. destruct st as [|g [|g' st]]; [done| |].
  - apply Forall_cons in Hst as [Hg _]. by apply group_words_not_nil.
  - apply Forall_cons in Hst as [Hg _]. simpl.
    pose proof (group_words_not_nil g Hg). by destruct (group_words g).
Qed.

Lemma show_structure_words st :
  Forall (fun g => g <> [] /\ Forall extracted_code g) st ->
  show_structure st = join [" "%char] (structure_words st)
  /\ Forall is_word (structure_words st).
Proof.
  induction 1 as [|g st [Hg1 Hg2] Hst [IH1 IH2]]; [done|].
  destruct (show_group_words g Hg2) as [Hshow Hwords].
  destruct st as [|g' st]; [done|].
  change (structure_words (g :: g' :: st))
    with (group_words g ++ [lit "and"] ++ structure_words (g' :: st)).
  split.
  - rewrite show_structure_cons by done. rewrite IH1, Hshow.
    rewrite join_app; [|by apply group_words_not_nil|done].
    rewrite join_app; [list_eq|done|].
    apply structure_words_not_nil; [done|].
    eapply Forall_impl; [exact Hst|]. by intros ? [? _].
  - apply Forall_app. split; [done|]. apply Forall_app. split; [|done].
    constructor; [|constructor]. split; done.
Qed.

Lemma contains_false_forallb x s :
  forallb (fun c => negb (Ascii.eqb x c)) s = true -> contains x s = false.
Proof.
  induction s as [|c s IH]; [done|].
  change (forallb (fun c0 => negb (Ascii.eqb x c0)) (c :: s))
    with (negb (Ascii.eqb x c) && forallb (fun c0 => negb (Ascii.eqb x c0)) s).
  change (contains x (c :: s)) with (Ascii.eqb x c || contains x s).
  intros [Hc Hs]%andb_prop. apply negb_true_iff in Hc. rewrite Hc. by apply IH.
Qed.

Lemma word_no_semicolon (q : ascii -> bool) w :
  (forall c, q c = true -> Ascii.eqb ";" c = false) ->
  forallb q w = true ->
  forallb (fun c => negb (Ascii.eqb ";" c)) w = true.
Proof.
  intros Hq Hw. apply forallb_forall. intros c Hc.
  rewrite forallb_forall in Hw. by rewrite (Hq c (Hw c Hc)).
Qed.

Lemma code_words_no_semicolon code :
  extracted_code code ->
  Forall (fun w => forallb (fun c => negb (Ascii.eqb ";" c)) w = true)
         (code_words code).
Proof.
  intros (_ & _ & Hd & _ & _ & _ & Hn)%extracted_code_parts.
  unfold code_words. constructor; [|constructor; [|constructor]].
  - apply (word_no_semicolon is_upper); [|done]. intros c. all_chars c.
  - apply (word_no_semicolon (fun c => is_digit c || is_upper c)); [|done].
    intros c. all_chars c.
Qed.

Lemma group_words_no_semicolon g :
  Forall extracted_code g ->
  Forall (fun w => forallb (fun c => negb (Ascii.eqb ";" c)) w = true)
         (group_words g).
Proof.
  induction 1 as [|c g Hc Hg IH]; [constructor|].
  pose proof (code_words_no_semicolon c Hc) as Hw.
  destruct g as [|c' g]; [done|].
  change (group_words (c :: c' :: g))
    with (code_words c ++ lit "or" :: group_words (c' :: g)).
  apply Forall_app. split; [done|]. by constructor.
Qed.

Lemma structure_words_no_semicolon st :
  Forall (fun g => g <> [] /\ Forall extracted_code g) st ->
  Forall (fun w => forallb (fun c => negb (Ascii.eqb ";" c)) w = true)
         (structure_words st).
Proof.
  induction 1 as [|g st [_ Hg] Hst IH]; [constructor|].
  pose proof (group_words_no_semicolon g Hg) as Hw.
  destruct st as [|g' st]; [done|].
  change (structure_words (g :: g' :: st))
    with (group_words g ++ lit "and" :: structure_words (g' :: st)).
  apply Forall_app. split; [done|]. by constructor.
Qed.

Lemma well_formed_extracted st :
  well_formed_structure st ->
  Forall (fun g => g <> [] /\ NoDup g /\ Forall extracted_code g) st
  /\ Forall (fun g => g <> [] /\ Forall extracted_code g) st
  /\ Forall (fun g => g <> []
                      /\ Forall (fun c => extracted_code c
                                          /\ dept_prefix c <> lit "AND") g) st.
Proof.
  intros Hst.
  assert (forall g, Forall plain_code g -> Forall extracted_code g) as Hcodes.
  { intros g Hg. eapply Forall_impl; [exact Hg|]. intros c [Hc _].
    by apply is_course_code_extracted. }
  repeat split.
  - eapply Forall_impl; [exact Hst|]. intros g (? & ? & ?). auto.
  - eapply Forall_impl; [exact Hst|]. intros g (? & ? & ?). auto.
  - eapply Forall_impl; [exact Hst|]. intros g (? & ? & Hg). split; [done|].
    eapply Forall_impl; [exact Hg|]. intros c [Hc ?]. split; [|done].
    by apply is_course_code_extracted.
Qed.

(** X17: a structure whose groups are non-empty lists of distinct course
    codes, none of them of the department spelled AND, is read back by
    [parse_prereq_raw] from its text: the codes of a group joined by
    [" or "], the groups joined by [" and "]. *)
Theorem parse_show_structure st :
  well_formed_structure st ->
  parse_prereq_raw (Some (show_structure st)) = Ok st.
Proof.
  intros Hst. destruct (well_formed_extracted st Hst) as (H1 & H2 & H3).
  destruct (decide (st = [])) as [->|Hne]; [done|].
  destruct (show_structure_words st H2) as [Hshow Hwords].
  destruct (words_text_fixed _ Hwords) as [Hstrip Hcollapse].
  rewrite <- Hshow in Hstrip, Hcollapse.
  destruct (show_structure_head st Hne H2) as (c & t & Hhead & _).
  rewrite parse_prereq_raw_clause, py_strip_nil_or, Hstrip.
  assert (contains ";" (show_structure st) = false) as ->.
  { apply contains_false_forallb. rewrite Hshow. apply forallb_join; [done|].
    by apply structure_words_no_semicolon. }
  assert (is_nil (show_structure st) = false) as -> by by rewrite Hhead.
  unfold parse_clause. cbv zeta.
  rewrite Hcollapse, (re_split_show_structure st Hne H3).
  destruct (for_each_show_groups st [] None H1) as [ld' ->]. done.
Qed.

Lemma parse_show_structure_witness :
  well_formed_structure [[lit "CSE 8B"; lit "CSE 11"]; [lit "MATH 20A"]]
  /\ parse_prereq_raw (Some (lit "CSE 8B or CSE 11 and MATH 20A"))
     = Ok [[lit "CSE 8B"; lit "CSE 11"]; [lit "MATH 20A"]].
Proof.
  assert (well_formed_structure
            [[lit "CSE 8B"; lit "CSE 11"]; [lit "MATH 20A"]]) as Hst.
  { repeat constructor; try done; try (by vm_compute);
      try (by intros ?%elem_of_nil).
    intros H. apply list_elem_of_singleton in H. vm_compute in H. discriminate H. }
  split; [exact Hst|]. exact (parse_show_structure _ Hst).
Defined.

(** A code of the department spelled AND is not read back: the text is
    split at its department, and the number is taken for a shorthand. *)
Example and_department_not_read_back :
  parse_prereq_raw (Some (show_structure [[lit "CSE 1"; lit "AND 1"]]))
  = Ok [[lit "CSE 1"]; [lit "CSE 1"]].
Proof. vm_compute. reflexivity. Qed.

(** ** The matcher with groups *)

Lemma backtrack_complete {R} (try : nat -> option R) lo k j :
  lo <= j <= k -> is_Some (try j) -> is_Some (backtrack try lo k).
Proof.
  intros Hj Hr. destruct (backtrack try lo k) eqn:E; [done|].
  exfalso. induction k as [|k IH].
  - assert (j = 0) as -> by lia. simpl in E.
    destruct (Nat.ltb_spec 0 lo); [lia|]. destruct Hr as [r Hr].
    by rewrite Hr in E.
  - simpl in E. destruct (Nat.ltb_spec (S k) lo); [lia|].
    destruct (try (S k)) eqn:Ek; [done|].
    destruct (decide (j = S k)) as [->|Hne].
    + destruct Hr as [r Hr]. congruence.
    + apply IH; [lia|done].
Qed.

Lemma forward_Some {R} (try : nat -> option R) k n r :
  forward try k n = Some r ->
  exists j, k <= j <= k + n /\ try j = Some r
            /\ forall i, k <= i < j -> try i = None.
Proof.
  revert k. induction n as [|n IH]; intros k; simpl.
  - destruct (try k) eqn:E; [|done]. intros [= ->]. exists k.
    split; [lia|]. split; [done|]. intros i Hi. lia.
  - destruct (try k) eqn:E.
    + intros [= ->]. exists k. split; [lia|]. split; [done|]. intros i Hi. lia.
    + intros (j & Hj & Hr & Hfirst)%IH. exists j. split; [lia|].
      split; [done|]. intros i Hi.
      destruct (decide (i = k)) as [->|Hne]; [done|]. apply Hfirst. lia.
Qed.

Lemma forward_complete {R} (try : nat -> option R) k n j :
  k <= j <= k + n -> is_Some (try j) -> is_Some (forward try k n).
Proof.
  revert k. induction n as [|n IH]; intros k Hj Hr; simpl.
  - assert (j = k) as -> by lia. destruct Hr as [r ->]. done.
  - destruct (try k) eqn:E; [done|]. apply IH; [|done].
    destruct (decide (j = k)) as [->|Hne]; [|lia].
    destruct Hr as [r Hr]. congruence.
Qed.

Lemma greedy_length a s : greedy a s <= length s.
Proof.
  pose proof (greedy_le_run a s) as H.
  assert (run_length (cls a) s <= length s) as H'; [|lia].
  clear H. induction s as [|c s IH]; simpl; [lia|].
  destruct (cls a c); simpl; lia.
Qed.

Lemma run_length_app_le p s t : run_length p s <= run_length p (s ++ t).
Proof.
  induction s as [|c s IH]; simpl; [lia|]. destruct (p c); lia.
Qed.

Lemma greedy_app_le a s t : greedy a s <= greedy a (s ++ t).
Proof.
  unfold greedy. pose proof (run_length_app_le (cls a) s t).
  destruct (hi a); lia.
Qed.

(** The characters a quantified class takes. *)
Lemma in_range_prefix a k s :
  lo a <= k <= greedy a s ->
  s = take k s ++ drop k s /\ length (take k s) = k
  /\ forallb (cls a) (take k s) = true
  /\ (forall h, hi a = Some h -> k <= h).
Proof.
  intros [Hlo Hhi]. pose proof (greedy_le_run a s) as Hrun.
  destruct (run_length_take (cls a) s k) as [Hall Hlen]; [lia|].
  rewrite take_drop. repeat split; try done.
  intros h Hh. pose proof (greedy_le_hi a s h Hh). lia.
Qed.

Lemma match_then_Some {R} (r : list atom) n s (k : nat -> str -> option R) x :
  match_then r n s k = Some x ->
  exists ks, atoms_fit r ks s
             /\ k (n + sum_list ks) (drop (sum_list ks) s) = Some x.
Proof.
  revert n s. induction r as [|a r IH]; intros n s; simpl.
  - intros H. exists []. simpl. by rewrite Nat.add_0_r.
  - intros (j & Hj & (ks & Hks & Hk)%IH)%backtrack_Some.
    exists (j :: ks). simpl. split; [done|].
    by rewrite drop_drop, Nat.add_assoc in *.
Qed.

Lemma match_then_complete {R} (r : list atom) n s
    (k : nat -> str -> option R) ks :
  atoms_fit r ks s ->
  is_Some (k (n + sum_list ks) (drop (sum_list ks) s)) ->
  is_Some (match_then r n s k).
Proof.
  revert n s ks. induction r as [|a r IH]; intros n s [|j ks]; simpl; try done.
  - by rewrite Nat.add_0_r.
  - intros [Hj Hks] Hk. apply (backtrack_complete _ _ _ j); [done|].
    apply (IH _ _ ks); [done|]. by rewrite drop_drop, Nat.add_assoc in *.
Qed.

(** The matcher returns admissible repetitions, and finds a match
    whenever there are some. *)
Lemma match_items_fits r s lens :
  match_items r s = Some lens -> fits r lens s.
Proof.
  revert s lens. induction r as [|[a|a|body] r IH]; intros s lens; simpl.
  - by intros [= <-].
  - intros (k & Hk & Hr)%backtrack_Some.
    destruct (match_items r (drop k s)) as [lens'|] eqn:E; [|done].
    injection Hr as <-. split; [done|]. by apply IH.
  - destruct (Nat.ltb_spec (greedy a s) (lo a)); [done|].
    intros (k & Hk & Hr & _)%forward_Some.
    destruct (match_items r (drop k s)) as [lens'|] eqn:E; [|done].
    injection Hr as <-. split; [lia|]. by apply IH.
  - destruct (match_then body 0 s _) as [lens'|] eqn:E.
    + intros [= <-]. apply match_then_Some in E as (ks & Hks & Hr).
      destruct (match_items r (drop (sum_list ks) s)) as [lens''|] eqn:E';
        [|done].
      injection Hr as <-. simpl. split; [right; by exists ks|]. by apply IH.
    + destruct (match_items r s) as [lens''|] eqn:E'; [|done].
      intros [= <-]. split; [by left|]. by apply IH.
Qed.

Lemma match_items_complete r s lens :
  fits r lens s -> is_Some (match_items r s).
Proof.
  revert s lens.
  induction r as [|[a|a|body] r IH]; intros s [|k lens]; simpl; try done.
  - intros [Hk Hr]. apply (backtrack_complete _ _ _ k); [done|].
    destruct (IH _ _ Hr) as [l ->]. done.
  - intros [Hk Hr]. destruct (Nat.ltb_spec (greedy a s) (lo a)); [lia|].
    apply (forward_complete _ _ _ k); [lia|].
    destruct (IH _ _ Hr) as [l ->]. done.
  - intros [Hk Hr].
    destruct (match_then body 0 s _) as [lens'|] eqn:E; [done|].
    destruct Hk as [->|(ks & Hks & ->)].
    + change (drop 0 s) with s in Hr. destruct (IH _ _ Hr) as [l ->]. done.
    + exfalso.
      assert (is_Some (match_then body 0 s
                (fun n s' => cons n <$> match_items r s'))) as [x Hx];
        [|congruence].
      apply (match_then_complete _ _ _ _ ks); [done|].
      destruct (IH _ _ Hr) as [l ->]. done.
Qed.

Lemma atoms_fit_length r ks s : atoms_fit r ks s -> sum_list ks <= length s.
Proof.
  revert ks s. induction r as [|a r IH]; intros [|k ks] s; simpl; try done.
  - lia.
  - intros [Hk Hr%IH]. pose proof (greedy_length a s).
    rewrite length_drop in Hr. lia.
Qed.

Lemma fits_length r lens s : fits r lens s -> sum_list lens <= length s.
Proof.
  revert lens s.
  induction r as [|[a|a|body] r IH]; intros [|k lens] s; simpl; try done.
  - lia.
  - intros [Hk Hr%IH]. pose proof (greedy_length a s).
    rewrite length_drop in Hr. lia.
  - intros [Hk Hr%IH]. pose proof (greedy_length a s).
    rewrite length_drop in Hr. lia.
  - intros [Hk Hr%IH]. rewrite length_drop in Hr.
    destruct Hk as [->|(ks & Hks%atoms_fit_length & ->)]; lia.
Qed.

(** A match does not depend on what follows it. *)
Lemma atoms_fit_app r ks s t : atoms_fit r ks s -> atoms_fit r ks (s ++ t).
Proof.
  revert ks s. induction r as [|a r IH]; intros [|k ks] s; simpl; try done.
  intros [Hk Hr]. pose proof (greedy_app_le a s t).
  pose proof (greedy_length a s). split; [lia|].
  rewrite drop_app_le by lia. by apply IH.
Qed.

Lemma fits_app r lens s t : fits r lens s -> fits r lens (s ++ t).
Proof.
  revert lens s.
  induction r as [|[a|a|body] r IH]; intros [|k lens] s; simpl; try done.
  - intros [Hk Hr]. pose proof (greedy_app_le a s t).
    pose proof (greedy_length a s). split; [lia|].
    rewrite drop_app_le by lia. by apply IH.
  - intros [Hk Hr]. pose proof (greedy_app_le a s t).
    pose proof (greedy_length a s). split; [lia|].
    rewrite drop_app_le by lia. by apply IH.
  - intros [Hk Hr]. split.
    + destruct Hk as [->|(ks & Hks & ->)]; [by left|right].
      exists ks. split; [|done]. by apply atoms_fit_app.
    + assert (k <= length s) as Hlen.
      { destruct Hk as [->|(ks & Hks%atoms_fit_length & ->)]; lia. }
      rewrite drop_app_le by lia. by apply IH.
Qed.

(** [re.search] returns the leftmost position with a match. *)
Lemma search_from_Some r i s p lens :
  search_from r i s = Some (p, lens) ->
  exists j, p = i + j /\ j <= length s
            /\ match_items r (drop j s) = Some lens
            /\ forall j', j' < j -> match_items r (drop j' s) = None.
Proof.
  revert i. induction s as [|c s IH]; intros i; simpl.
  - destruct (match_items r []) eqn:E; [|done]. intros [= <- <-].
    exists 0. repeat split; [lia|done|done|]. intros j' Hj'. lia.
  - destruct (match_items r (c :: s)) eqn:E.
    + intros [= <- <-]. exists 0. repeat split; [lia|lia|done|].
      intros j' Hj'. lia.
    + intros (j & -> & Hj & Hm & Hfirst)%IH. exists (S j).
      repeat split; [lia|lia|done|]. intros [|j'] Hj'; [done|].
      apply Hfirst. lia.
Qed.

Lemma search_from_None r i s :
  search_from r i s = None <-> forall j, match_items r (drop j s) = None.
Proof.
  revert i. induction s as [|c s IH]; intros i; simpl.
  - destruct (match_items r []) eqn:E.
    + split; [done|]. intros H. specialize (H 0). simpl in H. congruence.
    + split; [|done]. intros _ j. by rewrite drop_nil.
  - destruct (match_items r (c :: s)) eqn:E.
    + split; [done|]. intros H. specialize (H 0). simpl in H. congruence.
    + rewrite IH. split.
      * intros H [|j]; [done|]. apply H.
      * intros H j. apply (H (S j)).
Qed.

Lemma fits_greedy_cons a r lens s :
  fits (Greedy a :: r) lens s ->
  exists pre rest lens',
    s = pre ++ rest /\ lens = length pre :: lens'
    /\ lo a <= length pre /\ (forall h, hi a = Some h -> length pre <= h)
    /\ forallb (cls a) pre = true /\ fits r lens' rest.
Proof.
  destruct lens as [|k lens]; [done|]. cbn [fits]. intros [Hk Hr].
  destruct (in_range_prefix a k s Hk) as (Hs & Hlen & Hall & Hhi).
  exists (take k s), (drop k s), lens. rewrite Hlen.
  repeat split; try done. lia.
Qed.

(** ** The header of a course *)

(** What the first group of a match of the header pattern is. *)
Lemma header_fits_code s lens :
  fits scrape_catalog.HEADER_RE lens s ->
  exists d ds x rest lens',
    s = (d ++ " "%char :: ds ++ x) ++ "."%char :: rest
    /\ lens = length d :: 1 :: length ds :: length x :: lens'
    /\ 2 <= length d <= 4 /\ forallb is_upper d = true
    /\ 1 <= length ds /\ forallb is_digit ds = true
    /\ forallb is_upper x = true /\ length x <= 1.
Proof.
  unfold scrape_catalog.HEADER_RE.
  intros (d & r1 & l1 & -> & -> & Hd1 & Hd2 & Hd & H1)%fits_greedy_cons.
  apply fits_greedy_cons in H1 as (sp & r2 & l2 & -> & -> & Hs1 & Hs2 & Hsp & H2).
  apply fits_greedy_cons in H2 as (ds & r3 & l3 & -> & -> & Hn1 & _ & Hds & H3).
  apply fits_greedy_cons in H3 as (x & r4 & l4 & -> & -> & _ & Hx2 & Hx & H4).
  apply fits_greedy_cons in H4 as (dot & r5 & l5 & -> & -> & Hp1 & Hp2 & Hdot & _).
  simpl in *. specialize (Hd2 4 eq_refl). specialize (Hs2 1 eq_refl).
  specialize (Hx2 1 eq_refl). specialize (Hp2 1 eq_refl).
  apply forallb_one_char in Hsp as ->; [|lia].
  apply forallb_one_char in Hdot as ->; [|lia].
  exists d, ds, x, r5, (1 :: l5). repeat split; try done; try lia. list_eq.
Qed.

Lemma group_text_prefix (m rest : str) (k1 k2 k3 k4 : nat) (lens : list nat) :
  length m = k1 + k2 + k3 + k4 ->
  group_text (m ++ rest) 0 (k1 :: k2 :: k3 :: k4 :: lens) 0 4 = m.
Proof.
  intros Hm. unfold group_text.
  change (take 4 (drop 0 (k1 :: k2 :: k3 :: k4 :: lens))) with [k1; k2; k3; k4].
  change (drop (0 + sum_list (take 0 (k1 :: k2 :: k3 :: k4 :: lens))) (m ++ rest))
    with (m ++ rest).
  apply take_app_length'. simpl. lia.
Qed.

Lemma suffix_letters_parts d ds x :
  1 <= length d -> forallb is_upper d = true ->
  forallb is_digit ds = true -> forallb is_upper x = true ->
  suffix_letters (d ++ " "%char :: ds ++ x) = x.
Proof.
  intros Hd1 Hd Hds Hx. unfold suffix_letters, number_part.
  destruct (dept_of_code d (ds ++ x) Hd1 Hd) as [-> _].
  change (S (length d)) with (1 + length d). rewrite Nat.add_comm.
  rewrite <- drop_drop, drop_app_length. change (drop 1 (" "%char :: ds ++ x))
    with (ds ++ x).
  rewrite lstrip_blank_app by done. apply lstrip_id.
  by apply upper_head_not_digit.
Qed.

(** The code of a parsed header. *)
Lemma header_code_extracted block_text h :
  scrape_catalog.parse_course_header block_text
  = scrape_catalog.Return (Some h) ->
  exists d ds x rest,
    scrape_catalog.code h = d ++ " "%char :: ds ++ x
    /\ py_strip block_text = scrape_catalog.code h ++ "."%char :: rest
    /\ 2 <= length d <= 4 /\ forallb is_upper d = true
    /\ 1 <= length ds /\ forallb is_digit ds = true
    /\ forallb is_upper x = true /\ length x <= 1.
Proof.
  unfold scrape_catalog.parse_course_header. cbv zeta.
  destruct (match_items _ _) as [lens|] eqn:E; [|done].
  apply match_items_fits, header_fits_code in E
    as (d & ds & x & rest & lens' & Hs & -> & Hd1 & Hd & Hn1 & Hds & Hx & Hx1).
  rewrite Hs. rewrite group_text_prefix by list_len.
  assert (parsed_code (d ++ " "%char :: ds ++ x)) as Hcode.
  { exists d, ds, x. repeat split; try done; try lia. by left. }
  apply normalize_parsed in Hcode as [-> _].
  destruct (scrape_catalog.py_int _) as [n|]; [|done]. simpl.
  intros [= <-]. simpl. exists d, ds, x, rest. repeat split; try done; lia.
Qed.

(** X18: for a paragraph of code points below 256, the code of a header
    that [parse_course_header] returns is a code of the CourseCode
    grammar, with digits 0-9, that has at most one letter after the
    digits, and the paragraph starts with it and a period.  Beyond this
    range the [\d] of the pattern also matches the other decimal digits
    of Unicode. *)
Theorem header_code_grammar (block_text : str) (h : scrape_catalog.course) :
  scrape_catalog.parse_course_header block_text
  = scrape_catalog.Return (Some h) ->
  is_course_code (scrape_catalog.code h) = true
  /\ length (suffix_letters (scrape_catalog.code h)) <= 1
  /\ exists rest,
       py_strip block_text = scrape_catalog.code h ++ "."%char :: rest.
Proof.
  intros (d & ds & x & rest & Hc & Ht & Hd1 & Hd & Hn1 & Hds & Hx & Hx1)
    %header_code_extracted.
  split; [|split].
  - apply extracted_is_course_code. rewrite Hc. exists d, ds, x.
    repeat split; try done; lia.
  - rewrite Hc, suffix_letters_parts by (done || lia). done.
  - by exists rest.
Qed.

Lemma header_code_grammar_witness :
  is_course_code (lit "CSE 3") = true
  /\ length (suffix_letters (lit "CSE 3")) <= 1
  /\ exists rest,
       py_strip (lit "CSE 3. Fluency in Information Technology (4)")
       = lit "CSE 3" ++ "."%char :: rest.
Proof.
  apply (header_code_grammar
           (lit "CSE 3. Fluency in Information Technology (4)")
           (scrape_catalog.Build_course
              (lit "CSE 3") (lit "Fluency in Information Technology") 4
              [] None)).
  vm_compute. reflexivity.
Defined.

(** The parts of a code of the grammar are determined by the text that
    starts with it. *)
Lemma code_parts_unique d ds x d' ds' x' :
  forallb is_upper d = true -> forallb is_digit ds = true ->
  match x with c :: _ => is_digit c = false | [] => True end ->
  forallb is_upper d' = true -> forallb is_digit ds' = true ->
  match x' with c :: _ => is_digit c = false | [] => True end ->
  d ++ " "%char :: ds ++ x = d' ++ " "%char :: ds' ++ x' ->
  d = d' /\ ds = ds' /\ x = x'.
Proof.
  intros Hd Hds Hx Hd' Hds' Hx' E.
  destruct (code_shape d ds x Hd Hds Hx) as (R1 & _ & R2 & _).
  destruct (code_shape d' ds' x' Hd' Hds' Hx') as (R1' & _ & R2' & _).
  rewrite E, R1' in R1.
  destruct (app_inj_1 _ _ _ _ (eq_sym R1) E) as [<- [= E2]].
  rewrite E2, R2' in R2.
  destruct (app_inj_1 _ _ _ _ (eq_sym R2) E2) as [<- <-]. done.
Qed.

Lemma py_strip_code_app d ds x1 x2 x rest :
  1 <= length d -> forallb is_upper d = true ->
  is_upper x1 = true -> is_upper x2 = true ->
  exists t, py_strip ((d ++ " "%char :: ds ++ x1 :: x2 :: x) ++ rest)
            = d ++ " "%char :: ds ++ x1 :: x2 :: t.
Proof.
  intros Hd1 Hd Hu1 Hu2. unfold py_strip. rewrite lstrip_id.
  - exists (rstrip is_space (x ++ rest)).
    replace ((d ++ " "%char :: ds ++ x1 :: x2 :: x) ++ rest)
      with ((d ++ " "%char :: ds ++ [x1]) ++ x2 :: x ++ rest) by list_eq.
    rewrite rstrip_stop by by apply upper_facts in Hu2 as [-> _]. list_eq.
  - destruct d as [|c d]; [simpl in Hd1; lia|]. simpl in Hd.
    apply andb_prop in Hd as [Hc' _]. simpl.
    by apply upper_facts in Hc' as [-> _].
Qed.

(** X19: a paragraph that starts with a code with two or more letters
    after the digits, as MATH 31AH, gives no header: such a course is not
    scraped. *)
Theorem header_rejects_long_suffix (c rest : str) :
  is_course_code c = true -> 2 <= length (suffix_letters c) ->
  scrape_catalog.parse_course_header (c ++ rest) = scrape_catalog.Return None.
Proof.
  intros (d & ds & x & -> & Hd1 & Hd & Hn1 & Hds & Hx)%is_course_code_extracted.
  rewrite suffix_letters_parts by (done || lia). intros Hx2.
  unfold scrape_catalog.parse_course_header. cbv zeta.
  destruct (match_items _ _) as [lens|] eqn:E; [exfalso|done].
  apply match_items_fits, header_fits_code in E
    as (d' & ds' & x' & rest' & _ & Ht & _ & _ & Hd' & _ & Hds' & Hx' & Hx1).
  destruct x as [|x1 [|x2 x]]; [simpl in Hx2; lia..|].
  simpl in Hx. apply andb_prop in Hx as [Hu1 [Hu2 _]%andb_prop].
  assert (forall c, is_upper c = true -> c <> "."%char) as Hdot
    by (intros c; all_chars c).
  destruct (py_strip_code_app d ds x1 x2 x rest) as [t Hstrip];
    [lia|done..|].
  rewrite Hstrip in Ht.
  replace ((d' ++ " "%char :: ds' ++ x') ++ "."%char :: rest')
    with (d' ++ " "%char :: ds' ++ (x' ++ "."%char :: rest')) in Ht
    by list_eq.
  apply code_parts_unique in Ht as (_ & _ & Ht); try done.
  - destruct x' as [|u [|??]]; [| |simpl in Hx1; lia].
    + injection Ht as -> _. by apply (Hdot _ Hu1).
    + injection Ht as _ -> _. by apply (Hdot _ Hu2).
  - simpl. by apply upper_facts in Hu1 as (_ & _ & -> & _).
  - destruct x' as [|u x']; [done|]. simpl in Hx'.
    apply andb_prop in Hx' as [Hu _]. simpl.
    by apply upper_facts in Hu as (_ & _ & -> & _).
Qed.

Lemma header_rejects_long_suffix_witness :
  scrape_catalog.parse_course_header
    (lit "MATH 31AH" ++ lit ". Honors Linear Algebra (4)")
  = scrape_catalog.Return None.
Proof.
  apply (header_rejects_long_suffix
           (lit "MATH 31AH") (lit ". Honors Linear Algebra (4)")).
  - vm_compute. reflexivity.
  - vm_compute. lia.
Defined.

(** ** The body of a course *)

(** A text that matches a pattern with a literal character holds it. *)
Lemma fits_has_char x r lens s :
  In (Greedy (one (is_char x))) r -> fits r lens s -> contains x s = true.
Proof.
  revert lens s. induction r as [|it r IH]; intros lens s; [done|].
  assert (forall k lens', fits r lens' (drop k s) ->
            In (Greedy (one (is_char x))) r -> contains x s = true) as Hrest.
  { intros k lens' Hr Hin. specialize (IH _ _ Hin Hr).
    rewrite <- (take_drop k s), contains_app, IH. apply orb_true_r. }
  intros [->|Hin].
  - intros (pre & rest & lens' & -> & _ & Hlo & _ & Hall & _)%fits_greedy_cons.
    destruct pre as [|c pre]; [simpl in Hlo; lia|]. simpl in Hall.
    apply andb_prop in Hall as [Hc _]. unfold is_char in Hc.
    apply Ascii.eqb_eq in Hc as ->. simpl. by rewrite Ascii.eqb_refl.
  - destruct it as [a|a|body], lens as [|k lens]; simpl; try done.
    + intros [_ Hr]. by apply (Hrest k lens).
    + intros [_ Hr]. by apply (Hrest k lens).
    + intros [_ Hr]. by apply (Hrest k lens).
Qed.

Lemma contains_drop x k s : contains x s = false -> contains x (drop k s) = false.
Proof.
  intros H. rewrite <- (take_drop k s), contains_app in H.
  by apply orb_false_elim in H as [_ ?].
Qed.

(** X20: a paragraph without a colon has no prerequisite line: the
    description is the stripped text and [prereq_raw] is [None]. *)
Theorem body_without_colon (block_text : str) :
  contains ":" block_text = false ->
  scrape_catalog.parse_course_body block_text = (py_strip block_text, None).
Proof.
  intros Hc. unfold scrape_catalog.parse_course_body. cbv zeta.
  assert (re_search scrape_catalog.PREREQ_RE (py_strip block_text) = None) as ->;
    [|done].
  apply search_from_None. intros j.
  destruct (match_items _ _) as [lens|] eqn:E; [exfalso|done].
  apply match_items_fits, (fits_has_char ":") in E.
  - rewrite contains_drop in E; [done|].
    by apply contains_rstrip, contains_lstrip.
  - unfold scrape_catalog.PREREQ_RE. cbn [map].
    do 14 right. by left.
Qed.

Lemma body_without_colon_witness :
  scrape_catalog.parse_course_body (lit " Fluency in computing. ")
  = (py_strip (lit " Fluency in computing. "), None).
Proof.
  apply (body_without_colon (lit " Fluency in computing. ")).
  vm_compute. reflexivity.
Defined.

(** The match of the last items of a pattern is the matcher's own. *)
Lemma match_items_app r1 r2 s lens :
  match_items (r1 ++ r2) s = Some lens ->
  exists l1 l2,
    lens = l1 ++ l2 /\ length l1 = length r1 /\ fits r1 l1 s
    /\ match_items r2 (drop (sum_list l1) s) = Some l2.
Proof.
  revert s lens. induction r1 as [|[a|a|body] r1 IH]; intros s lens.
  - intros H. by exists [], lens.
  - cbn [app match_items]. intros (k & Hk & Hr)%backtrack_Some.
    destruct (match_items (r1 ++ r2) (drop k s)) as [lens'|] eqn:E; [|done].
    injection Hr as <-. apply IH in E as (l1 & l2 & -> & Hlen & Hfit & Hm).
    exists (k :: l1), l2. cbn [length sum_list fits]. rewrite <- drop_drop.
    repeat split; try done; lia.
  - cbn [app match_items].
    destruct (Nat.ltb_spec (greedy a s) (lo a)); [done|].
    intros (k & Hk & Hr & _)%forward_Some.
    destruct (match_items (r1 ++ r2) (drop k s)) as [lens'|] eqn:E; [|done].
    injection Hr as <-. apply IH in E as (l1 & l2 & -> & Hlen & Hfit & Hm).
    exists (k :: l1), l2. cbn [length sum_list fits]. rewrite <- drop_drop.
    repeat split; try done; lia.
  - cbn [app match_items].
    destruct (match_then body 0 s _) as [lens'|] eqn:E.
    + intros [= <-]. apply match_then_Some in E as (ks & Hks & Hr).
      destruct (match_items (r1 ++ r2) (drop (sum_list ks) s))
        as [lens''|] eqn:E'; [|done].
      injection Hr as <-. apply IH in E' as (l1 & l2 & -> & Hlen & Hfit & Hm).
      exists (sum_list ks :: l1), l2. cbn [length sum_list fits].
      rewrite <- drop_drop. repeat split; try done.
      * by rewrite Hlen.
      * right. by exists ks.
    + destruct (match_items (r1 ++ r2) s) as [lens''|] eqn:E'; [|done].
      intros [= <-]. apply IH in E' as (l1 & l2 & -> & Hlen & Hfit & Hm).
      exists (0 :: l1), l2. cbn [length sum_list fits].
      repeat split; try done.
      * by rewrite Hlen.
      * by left.
Qed.

Lemma rstrip_fixed_drop p k s : rstrip p s = s -> rstrip p (drop k s) = drop k s.
Proof.
  revert k. induction s as [|c s IH]; intros [|k]; try done.
  rewrite rstrip_cons. destruct (forallb p (c :: s)); [done|].
  intros [= H]. by apply IH.
Qed.

Lemma rstrip_fixed_not_blank p s :
  rstrip p s = s -> forallb p s = true -> s = [].
Proof.
  destruct s as [|c s]; [done|]. rewrite rstrip_cons. intros H Hall.
  by rewrite Hall in H.
Qed.

Lemma run_length_drop p s :
  match drop (run_length p s) s with
  | c :: _ => p c = false
  | [] => forallb p s = true
  end.
Proof.
  induction s as [|c s IH]; [done|]. simpl. destruct (p c) eqn:Hc; simpl.
  - destruct (drop (run_length p s) s); [done|done].
  - done.
Qed.

Lemma space_not_newline c : is_space c = false -> not_newline c = true.
Proof. all_chars c. Qed.

(** The last two items of the pattern of the body, [\s*(.+)], on a text
    that does not end in whitespace: the group starts at the first
    character that is not whitespace and runs to the end of the line. *)
Lemma prereq_tail_match s lens :
  match_items [Greedy (star is_space); Greedy (plus not_newline)] s
  = Some lens ->
  rstrip is_space s = s ->
  exists k15 k16 c g,
    lens = [k15; k16] /\ take k16 (drop k15 s) = c :: g
    /\ is_space c = false /\ forallb not_newline (c :: g) = true.
Proof.
  intros Hm Hs.
  assert (exists c t, drop (run_length is_space s) s = c :: t
                      /\ is_space c = false) as (c & t & Hdrop & Hc).
  { pose proof (run_length_drop is_space s) as Hrun.
    destruct (drop (run_length is_space s) s) as [|c t] eqn:E; [|by eauto].
    exfalso. rewrite (rstrip_fixed_not_blank _ _ Hs Hrun) in Hm.
    by vm_compute in Hm. }
  set (m := run_length not_newline (c :: t)).
  assert (1 <= m) as Hm1.
  { unfold m. simpl. rewrite (space_not_newline c Hc). lia. }
  assert (match_items [Greedy (star is_space); Greedy (plus not_newline)] s
          = Some [run_length is_space s; m]) as Hfirst.
  { cbn [match_items]. apply backtrack_first.
    - simpl. lia.
    - change (greedy (star is_space) s) with (run_length is_space s).
      rewrite Hdrop.
      change (greedy (plus not_newline) (c :: t)) with m.
      by rewrite (backtrack_first _ _ _ [m]). }
  rewrite Hfirst in Hm. injection Hm as <-.
  destruct (run_length_take not_newline (c :: t) m) as [Hall Hlen]; [done|].
  exists (run_length is_space s), m, c, (take (m - 1) t).
  rewrite Hdrop. destruct m as [|m]; [lia|].
  replace (S m - 1) with m by lia. done.
Qed.

Lemma group_text_last text start (l1 : list nat) k15 k16 n :
  length l1 = n ->
  group_text text start (l1 ++ [k15; k16]) (S n) 1
  = take k16 (drop k15 (drop (sum_list l1) (drop start text))).
Proof.
  intros Hn. unfold group_text.
  replace (l1 ++ [k15; k16]) with ((l1 ++ [k15]) ++ [k16]) by list_eq.
  rewrite drop_app_length' by (list_len; lia).
  rewrite take_app_length' by (list_len; lia).
  rewrite sum_list_with_app. simpl. rewrite !drop_drop. f_equal; [lia|].
  f_equal. lia.
Qed.

Lemma py_strip_fixed s : rstrip is_space (py_strip s) = py_strip s.
Proof. unfold py_strip. apply rstrip_idem. Qed.

Lemma py_strip_head c g :
  is_space c = false -> py_strip (c :: g) = c :: rstrip is_space g.
Proof.
  intros Hc. unfold py_strip. rewrite lstrip_id by done.
  rewrite rstrip_cons. simpl. by rewrite Hc.
Qed.

Lemma not_newline_contains s :
  forallb not_newline s = true -> contains "010" s = false.
Proof.
  intros H. apply contains_false_forallb. revert H. apply forallb_impl.
  intros c. unfold not_newline. by rewrite Ascii.eqb_sym.
Qed.

(** The pattern of the body, cut before its last two items. *)
Lemma prereq_re_cut :
  scrape_catalog.PREREQ_RE
  = take 15 scrape_catalog.PREREQ_RE
    ++ [Greedy (star is_space); Greedy (plus not_newline)].
Proof. done. Qed.

(** X21: a prerequisite text that [parse_course_body] finds is never
    blank: it is not empty, it has no whitespace at either end, and it
    holds no line feed, where the [.] of the pattern stops.  The other
    line separators are kept, as the example after the theorem shows
    for the carriage return. *)
Theorem body_prereq_line (block_text d r : str) :
  scrape_catalog.parse_course_body block_text = (d, Some r) ->
  r <> [] /\ py_strip r = r /\ contains "010" r = false
  /\ is_blank (Some r) = false.
Proof.
  unfold scrape_catalog.parse_course_body. cbv zeta.
  destruct (re_search _ _) as [[start lens]|] eqn:E; [|done].
  intros [= _ <-].
  apply search_from_Some in E as (j & -> & _ & Hm & _).
  rewrite prereq_re_cut in Hm.
  apply match_items_app in Hm as (l1 & l2 & -> & Hlen & _ & Hm).
  apply prereq_tail_match in Hm as (k15 & k16 & c & g & -> & Hg & Hc & Hline).
  2:{ do 2 apply rstrip_fixed_drop. apply py_strip_fixed. }
  change (0 + j) with j.
  rewrite (group_text_last _ _ _ _ _ 15), Hg by done.
  assert (py_strip (c :: g) <> []) as Hne by by rewrite py_strip_head.
  repeat split.
  - done.
  - apply py_strip_idem.
  - by apply not_newline_contains, py_strip_forall.
  - rewrite py_strip_head in * by done. simpl. by rewrite Hc.
Qed.

Lemma body_prereq_line_witness :
  lit "CSE 8B or CSE 11." <> []
  /\ py_strip (lit "CSE 8B or CSE 11.") = lit "CSE 8B or CSE 11."
  /\ contains "010" (lit "CSE 8B or CSE 11.") = false
  /\ is_blank (Some (lit "CSE 8B or CSE 11.")) = false.
Proof.
  apply (body_prereq_line
           (lit " Intro to Java.  Prerequisites:  CSE 8B or CSE 11.  ")
           (lit "Intro to Java.") (lit "CSE 8B or CSE 11.")).
  vm_compute. reflexivity.
Defined.

(** A carriage return does not end the prerequisite text. *)
Example body_keeps_carriage_return :
  scrape_catalog.parse_course_body
    (lit "Prerequisites: CSE 8A" ++ ["013"%char] ++ lit "CSE 11.")
  = ([], Some (lit "CSE 8A" ++ ["013"%char] ++ lit "CSE 11.")).
Proof. vm_compute. reflexivity. Qed.

Lemma py_strip_infix s : exists w1 w2, s = w1 ++ py_strip s ++ w2.
Proof.
  destruct (lstrip_suffix is_space s) as [w1 H1].
  destruct (rstrip_prefix is_space (lstrip is_space s)) as [w2 H2].
  exists w1, w2. unfold py_strip. by rewrite <- H2.
Qed.

(** A match of the pattern of the body takes at least one character. *)
Lemma prereq_fits_nonempty lens s :
  fits scrape_catalog.PREREQ_RE lens s -> 1 <= length s.
Proof.
  intros H. pose proof (fits_length _ _ _ H) as Hlen.
  unfold scrape_catalog.PREREQ_RE in H. cbn [map] in H.
  apply fits_greedy_cons in H as (pre & rest & lens' & -> & -> & Hlo & _).
  simpl in *. rewrite length_app. lia.
Qed.

(** No match of the pattern in a piece of the text before the leftmost
    match. *)
Lemma no_match_before_first text start w1 d w2 i :
  (forall j', j' < start ->
     match_items scrape_catalog.PREREQ_RE (drop j' text) = None) ->
  take start text = w1 ++ d ++ w2 ->
  match_items scrape_catalog.PREREQ_RE (drop i d) = None.
Proof.
  intros Hfirst Hd.
  destruct (match_items _ (drop i d)) as [lens|] eqn:E; [exfalso|done].
  apply match_items_fits in E.
  pose proof (prereq_fits_nonempty _ _ E) as Hi. rewrite length_drop in Hi.
  assert (length w1 + i < start) as Hlt.
  { apply (f_equal length) in Hd. rewrite length_take, !length_app in Hd. lia. }
  specialize (Hfirst _ Hlt).
  assert (drop (length w1 + i) text
          = drop i d ++ w2 ++ drop start text) as Hdrop.
  { rewrite <- (take_drop start text) at 1. rewrite Hd.
    rewrite <- !app_assoc, <- drop_drop, drop_app_length.
    by rewrite drop_app_le by lia. }
  apply (fits_app _ _ _ (w2 ++ drop start text)) in E.
  rewrite <- Hdrop in E. apply match_items_complete in E as [x Hx].
  congruence.
Qed.

(** X22: the description holds no prerequisite label any more: given
    back to [parse_course_body] it is returned as it is, without a
    prerequisite line. *)
Theorem body_description_fixed (block_text : str) :
  scrape_catalog.parse_course_body
    (fst (scrape_catalog.parse_course_body block_text))
  = (fst (scrape_catalog.parse_course_body block_text), None).
Proof.
  assert (forall d, py_strip d = d ->
            (forall i, match_items scrape_catalog.PREREQ_RE (drop i d) = None) ->
            scrape_catalog.parse_course_body d = (d, None)) as Hfixed.
  { intros d Hd Hnone. unfold scrape_catalog.parse_course_body. cbv zeta.
    rewrite Hd. unfold re_search.
    by rewrite (proj2 (search_from_None _ 0 d) Hnone). }
  unfold scrape_catalog.parse_course_body at 2 3. cbv zeta.
  destruct (re_search _ _) as [[start lens]|] eqn:E; cbn [fst].
  - apply search_from_Some in E as (j & -> & _ & _ & Hfirst).
    apply Hfixed; [apply py_strip_idem|]. intros i.
    destruct (py_strip_infix (take (0 + j) (py_strip block_text)))
      as (w1 & w2 & Hd).
    by apply (no_match_before_first (py_strip block_text) (0 + j) w1 _ w2).
  - apply Hfixed; [apply py_strip_idem|].
    by apply (search_from_None _ 0).
Qed.

(** ** The loop of [scrape_department] *)

(** The three cases of an iteration. *)
Lemma scrape_block_name cs cur p :
  is_name p = true ->
  scrape_catalog.scrape_block (cs, cur) p
  = h ← scrape_catalog.parse_course_header (scrape_catalog.get_text p);
    scrape_catalog.Return (cs, h).
Proof.
  unfold is_name, has_class, scrape_catalog.scrape_block. cbv zeta.
  by intros ->.
Qed.

Lemma scrape_block_description cs h p :
  is_description p = true ->
  scrape_catalog.scrape_block (cs, Some h) p
  = scrape_catalog.Return (cs ++ [complete h p], None).
Proof.
  unfold is_description, is_name, has_class, scrape_catalog.scrape_block.
  cbv zeta. intros [Hn Hd]%andb_prop. apply negb_true_iff in Hn.
  rewrite Hn, Hd. unfold complete.
  by destruct (scrape_catalog.parse_course_body _).
Qed.

Lemma scrape_block_other cs cur p :
  is_name p = false -> cur = None \/ is_description p = false ->
  scrape_catalog.scrape_block (cs, cur) p = scrape_catalog.Return (cs, cur).
Proof.
  unfold is_description, is_name, has_class, scrape_catalog.scrape_block.
  cbv zeta. intros ->. cbn [negb andb].
  intros [-> | ->]; [done|]. by destruct cur.
Qed.

Lemma scrape_blocks_app ps1 ps2 st :
  scrape_catalog.scrape_blocks (ps1 ++ ps2) st
  = st' ← scrape_catalog.scrape_blocks ps1 st;
    scrape_catalog.scrape_blocks ps2 st'.
Proof.
  revert st. induction ps1 as [|p ps1 IH]; intros st; [done|].
  cbn [app scrape_catalog.scrape_blocks].
  destruct (scrape_catalog.scrape_block st p) as [st'|]; [|done].
  apply IH.
Qed.

(** Paragraphs of other classes leave the state as it is. *)
Lemma scrape_blocks_others mid st :
  forallb (fun p => negb (is_name p) && negb (is_description p)) mid = true ->
  scrape_catalog.scrape_blocks mid st = scrape_catalog.Return st.
Proof.
  revert st. induction mid as [|p mid IH]; intros [cs cur]; [done|].
  cbn [forallb scrape_catalog.scrape_blocks].
  intros [[Hn Hd]%andb_prop Hmid]%andb_prop.
  apply negb_true_iff in Hn, Hd.
  rewrite scrape_block_other by auto. by apply IH.
Qed.

(** The courses are only appended to. *)
Lemma scrape_block_grows cs cur p cs' cur' :
  scrape_catalog.scrape_block (cs, cur) p = scrape_catalog.Return (cs', cur') ->
  exists more, cs' = cs ++ more.
Proof.
  destruct (is_name p) eqn:Hn.
  - rewrite scrape_block_name by done.
    destruct (scrape_catalog.parse_course_header _) as [h|]; [|done].
    intros [= <- <-]. exists []. by rewrite app_nil_r.
  - destruct cur as [h|], (is_description p) eqn:Hd.
    + rewrite scrape_block_description by done. intros [= <- <-]. by eexists.
    + rewrite scrape_block_other by auto. intros [= <- <-]. exists [].
      by rewrite app_nil_r.
    + rewrite scrape_block_other by auto. intros [= <- <-]. exists [].
      by rewrite app_nil_r.
    + rewrite scrape_block_other by auto. intros [= <- <-]. exists [].
      by rewrite app_nil_r.
Qed.

Lemma scrape_blocks_grows ps cs cur cs' cur' :
  scrape_catalog.scrape_blocks ps (cs, cur) = scrape_catalog.Return (cs', cur') ->
  exists more, cs' = cs ++ more.
Proof.
  revert cs cur. induction ps as [|p ps IH]; intros cs cur.
  - intros [= <- <-]. exists []. by rewrite app_nil_r.
  - cbn [scrape_catalog.scrape_blocks].
    destruct (scrape_catalog.scrape_block (cs, cur) p) as [[cs1 cur1]|] eqn:E;
      [|done].
    apply scrape_block_grows in E as [m1 ->]. intros [m2 ->]%IH.
    exists (m1 ++ m2). by rewrite app_assoc.
Qed.

Lemma paired_app ps q c : paired ps c -> paired (ps ++ q) c.
Proof.
  intros (ps1 & pn & mid & pd & ps2 & h & -> & H).
  exists ps1, pn, mid, pd, (ps2 ++ q), h. split; [list_eq|done].
Qed.

(** The invariant of the loop, [ps] being the paragraphs seen so far:
    the courses are pairs of [ps], and [current_header] is the header of
    a name paragraph that no name or description paragraph follows. *)
Lemma scrape_block_inv ps cs cur p cs' cur' :
  Forall (paired ps) cs ->
  (forall h, cur = Some h ->
     exists ps1 pn mid, ps = ps1 ++ pn :: mid /\ open_header pn mid h) ->
  scrape_catalog.scrape_block (cs, cur) p = scrape_catalog.Return (cs', cur') ->
  Forall (paired (ps ++ [p])) cs'
  /\ (forall h, cur' = Some h ->
        exists ps1 pn mid, ps ++ [p] = ps1 ++ pn :: mid /\ open_header pn mid h).
Proof.
  intros Hcs Hcur.
  assert (Forall (paired (ps ++ [p])) cs) as Hcs'.
  { eapply Forall_impl; [exact Hcs|]. intros c. apply paired_app. }
  assert (is_name p = false -> is_description p = false ->
          forall h, cur = Some h ->
            exists ps1 pn mid,
              ps ++ [p] = ps1 ++ pn :: mid /\ open_header pn mid h) as Hkeep.
  { intros Hn Hd h (ps1 & pn & mid & -> & H1 & H2 & H3)%Hcur.
    exists ps1, pn, (mid ++ [p]). split; [list_eq|].
    split; [done|]. split; [done|]. rewrite forallb_app, H3. simpl.
    by rewrite Hn, Hd. }
  destruct (is_name p) eqn:Hn.
  - rewrite scrape_block_name by done.
    destruct (scrape_catalog.parse_course_header _) as [h|] eqn:Hh; [|done].
    intros [= <- <-]. split; [done|]. intros h' ->.
    exists ps, p, []. split; [done|]. by split.
  - destruct cur as [h|], (is_description p) eqn:Hd.
    + rewrite scrape_block_description by done. intros [= <- <-].
      split; [|done]. apply Forall_app. split; [done|].
      constructor; [|constructor].
      destruct (Hcur h eq_refl) as (ps1 & pn & mid & -> & Hopen).
      exists ps1, pn, mid, p, [], h. split; [list_eq|done].
    + rewrite scrape_block_other by auto. intros [= <- <-]. split; [done|].
      by apply Hkeep.
    + rewrite scrape_block_other by auto. intros [= <- <-]. by split.
    + rewrite scrape_block_other by auto. intros [= <- <-]. by split.
Qed.

Lemma scrape_blocks_inv ps2 ps cs cur cs' cur' :
  Forall (paired ps) cs ->
  (forall h, cur = Some h ->
     exists ps1 pn mid, ps = ps1 ++ pn :: mid /\ open_header pn mid h) ->
  scrape_catalog.scrape_blocks ps2 (cs, cur)
  = scrape_catalog.Return (cs', cur') ->
  Forall (paired (ps ++ ps2)) cs'.
Proof.
  revert ps cs cur. induction ps2 as [|p ps2 IH]; intros ps cs cur Hcs Hcur.
  - intros [= <- <-]. by rewrite app_nil_r.
  - cbn [scrape_catalog.scrape_blocks].
    destruct (scrape_catalog.scrape_block (cs, cur) p) as [[cs1 cur1]|] eqn:E;
      [|done].
    destruct (scrape_block_inv ps cs cur p cs1 cur1 Hcs Hcur E) as [H1 H2].
    intros H. replace (ps ++ p :: ps2) with ((ps ++ [p]) ++ ps2) by list_eq.
    by apply (IH _ cs1 cur1).
Qed.

(** A pair of the page is a course of the result. *)
Lemma paired_scraped ps c st :
  paired ps c ->
  scrape_catalog.scrape_blocks ps ([], None) = scrape_catalog.Return st ->
  c ∈ fst st.
Proof.
  intros (ps1 & pn & mid & pd & ps2 & h & -> & (Hn & Hh & Hmid) & Hd & ->).
  rewrite scrape_blocks_app.
  destruct (scrape_catalog.scrape_blocks ps1 _) as [[cs1 cur1]|]; [|done].
  cbn [mbind scrape_catalog.raising_bind scrape_catalog.scrape_blocks].
  rewrite scrape_block_name, Hh by done.
  cbn [mbind scrape_catalog.raising_bind].
  rewrite scrape_blocks_app, scrape_blocks_others by done.
  cbn [mbind scrape_catalog.raising_bind scrape_catalog.scrape_blocks].
  rewrite scrape_block_description by done.
  cbn [mbind scrape_catalog.raising_bind]. destruct st as [cs' cur'].
  intros [more ->]%scrape_blocks_grows. cbn [fst].
  apply elem_of_app. left. apply elem_of_app. right. by apply list_elem_of_singleton.
Qed.

(** X23: the courses [scrape_department] returns are exactly the parsed
    headers of the page, each completed by the first description
    paragraph after it, when no other name paragraph comes in between: a
    header without such a paragraph and a description without a header
    give no course. *)
Theorem scraped_courses_paired (ps : list scrape_catalog.block)
    (cs : list scrape_catalog.course) :
  scrape_catalog.scrape_department ps = scrape_catalog.Return cs ->
  forall c, c ∈ cs <-> paired ps c.
Proof.
  unfold scrape_catalog.scrape_department.
  destruct (scrape_catalog.scrape_blocks ps _) as [[cs' cur']|] eqn:E; [|done].
  intros [= <-] c. cbn [fst]. split.
  - intros Hc.
    assert (Forall (paired ([] ++ ps)) cs') as Hall.
    { by apply (scrape_blocks_inv ps [] [] None cs' cur'). }
    rewrite Forall_forall in Hall. by apply Hall.
  - intros Hp. by apply (paired_scraped ps c (cs', cur')).
Qed.

Lemma scraped_courses_paired_witness :
  scrape_catalog.Build_course
    (lit "CSE 3") (lit "Fluency in Information Technology") 4
    (lit "Introduces the concepts.") (Some (lit "none."))
  ∈ [scrape_catalog.Build_course
       (lit "CSE 3") (lit "Fluency in Information Technology") 4
       (lit "Introduces the concepts.") (Some (lit "none."))]
  <-> paired
        [scrape_catalog.Build_block (Some [lit "course-descriptions"])
           (lit "A description without a header.");
         scrape_catalog.Build_block (Some [lit "course-name"])
           (lit "CSE 3. Fluency in Information Technology (4)");
         scrape_catalog.Build_block None (lit "A note.");
         scrape_catalog.Build_block (Some [lit "course-descriptions"])
           (lit "Introduces the concepts. Prerequisites: none.");
         scrape_catalog.Build_block (Some [lit "course-name"])
           (lit "CSE 4GS. Mathematical Beauty in Rome (4)")]
        (scrape_catalog.Build_course
           (lit "CSE 3") (lit "Fluency in Information Technology") 4
           (lit "Introduces the concepts.") (Some (lit "none."))).
Proof.
  apply (scraped_courses_paired
           [scrape_catalog.Build_block (Some [lit "course-descriptions"])
              (lit "A description without a header.");
            scrape_catalog.Build_block (Some [lit "course-name"])
              (lit "CSE 3. Fluency in Information Technology (4)");
            scrape_catalog.Build_block None (lit "A note.");
            scrape_catalog.Build_block (Some [lit "course-descriptions"])
              (lit "Introduces the concepts. Prerequisites: none.");
            scrape_catalog.Build_block (Some [lit "course-name"])
              (lit "CSE 4GS. Mathematical Beauty in Rome (4)")]).
  vm_compute. reflexivity.
Defined.

(** ** From the scraped pages to the graph *)

Lemma scrape_departments_spec pages scraped :
  scrape_catalog.scrape_departments pages = scrape_catalog.Return scraped ->
  Forall2 (fun ps cs => scrape_catalog.scrape_department ps
                        = scrape_catalog.Return cs) pages scraped.
Proof.
  revert scraped. induction pages as [|ps pages IH]; intros scraped.
  - intros [= <-]. constructor.
  - cbn [scrape_catalog.scrape_departments].
    destruct (scrape_catalog.scrape_department ps) as [cs|] eqn:E; [|done].
    destruct (scrape_catalog.scrape_departments pages) as [rest|]; [|done].
    intros [= <-]. constructor; [done|]. by apply IH.
Qed.

(** The courses of a page have the code of a parsed header. *)
Lemma paired_code ps c :
  paired ps c ->
  exists block_text h,
    scrape_catalog.parse_course_header block_text
    = scrape_catalog.Return (Some h)
    /\ scrape_catalog.code c = scrape_catalog.code h.
Proof.
  intros (ps1 & pn & mid & pd & ps2 & h & _ & (_ & Hh & _) & _ & ->).
  by exists (scrape_catalog.get_text pn), h.
Qed.

Lemma header_code_short block_text h :
  scrape_catalog.parse_course_header block_text
  = scrape_catalog.Return (Some h) ->
  is_course_code (scrape_catalog.code h) = true
  /\ length (suffix_letters (scrape_catalog.code h)) <= 1.
Proof.
  intros (d & ds & x & rest & Hc & Ht & Hd1 & Hd & Hn1 & Hds & Hx & Hx1)
    %header_code_extracted.
  split.
  - apply extracted_is_course_code. rewrite Hc. exists d, ds, x.
    repeat split; try done; lia.
  - rewrite Hc, suffix_letters_parts by (done || lia). done.
Qed.

(** What [main] collects. *)
Lemma main_collected pages all :
  scrape_catalog.main pages = scrape_catalog.Return all ->
  NoDup (map scrape_catalog.code all)
  /\ Forall (fun c => exists ps, ps ∈ pages /\ paired ps c) all.
Proof.
  unfold scrape_catalog.main.
  destruct (scrape_catalog.scrape_departments pages) as [scraped|] eqn:E;
    [|done].
  intros [= <-]. apply scrape_departments_spec in E.
  unfold collect_departments. rewrite fold_left_concat, collect_first_by_code.
  simpl. rewrite filter_true.
  2:{ intros y. apply negb_true_iff, bool_decide_eq_false.
      apply not_elem_of_empty. }
  split; [apply first_by_code_NoDup|].
  apply Forall_forall. intros c Hc%first_by_code_elem.
  apply list_elem_of_In, in_concat in Hc as (cs & Hcs & Hc).
  apply list_elem_of_In in Hcs, Hc.
  induction E as [|ps cs' pages scraped Hps _ IH].
  - by apply elem_of_nil in Hcs.
  - apply elem_of_cons in Hcs as [->|Hcs].
    + exists ps. split; [left|].
      unfold scrape_catalog.scrape_department in Hps.
      destruct (scrape_catalog.scrape_blocks ps _) as [[cs1 cur1]|] eqn:E1;
        [|done].
      injection Hps as <-.
      assert (Forall (paired ([] ++ ps)) cs1) as Hall.
      { by apply (scrape_blocks_inv ps [] [] None cs1 cur1). }
      rewrite Forall_forall in Hall. by apply Hall.
    + destruct (IH Hcs) as (ps' & Hps' & Hp). exists ps'. split; [by right|done].
Qed.

(** X24: the catalog that [main] collects from department pages of
    code points below 256 has pairwise different codes, and each of its
    courses is a pair of one of the pages, with a code of the CourseCode
    grammar, with digits 0-9, that has at most one letter after the
    digits. *)
Theorem scraped_catalog_codes (pages : list (list scrape_catalog.block))
    (all : list scrape_catalog.course) :
  scrape_catalog.main pages = scrape_catalog.Return all ->
  NoDup (map scrape_catalog.code all)
  /\ Forall (fun c =>
               is_course_code (scrape_catalog.code c) = true
               /\ length (suffix_letters (scrape_catalog.code c)) <= 1
               /\ exists ps, ps ∈ pages /\ paired ps c) all.
Proof.
  intros [Hnd Hall]%main_collected. split; [done|].
  eapply Forall_impl; [exact Hall|]. intros c (ps & Hps & Hp).
  destruct (paired_code ps c Hp) as (t & h & Hh%header_code_short & ->).
  destruct Hh as [H1 H2]. repeat split; try done. by exists ps.
Qed.

Lemma scraped_catalog_codes_witness :
  NoDup (map scrape_catalog.code
           [scrape_catalog.Build_course
              (lit "CSE 3") (lit "Fluency") 4 (lit "Concepts.") None])
  /\ Forall (fun c =>
               is_course_code (scrape_catalog.code c) = true
               /\ length (suffix_letters (scrape_catalog.code c)) <= 1
               /\ exists ps,
                    ps ∈ [[scrape_catalog.Build_block (Some [lit "course-name"])
                             (lit "CSE 3. Fluency (4)");
                           scrape_catalog.Build_block
                             (Some [lit "course-descriptions"])
                             (lit "Concepts.")];
                          [scrape_catalog.Build_block (Some [lit "course-name"])
                             (lit "CSE 3. Fluency, again (2)");
                           scrape_catalog.Build_block
                             (Some [lit "course-descriptions"])
                             (lit "Listed twice.")]]
                    /\ paired ps c)
       [scrape_catalog.Build_course
          (lit "CSE 3") (lit "Fluency") 4 (lit "Concepts.") None].
Proof.
  apply (scraped_catalog_codes
           [[scrape_catalog.Build_block (Some [lit "course-name"])
               (lit "CSE 3. Fluency (4)");
             scrape_catalog.Build_block (Some [lit "course-descriptions"])
               (lit "Concepts.")];
            [scrape_catalog.Build_block (Some [lit "course-name"])
               (lit "CSE 3. Fluency, again (2)");
             scrape_catalog.Build_block (Some [lit "course-descriptions"])
               (lit "Listed twice.")]]).
  vm_compute. reflexivity.
Defined.

Lemma enrich_all_codes cs cs' :
  enrich_all cs = Ok cs' -> map code cs' = map code cs.
Proof.
  destruct (enrich_all_spec cs) as (cs'' & -> & H). intros [= <-].
  induction H as [|c c' cs cs'' (Hc & _) _ IH]; [done|].
  simpl. by rewrite Hc, IH.
Qed.

(** X25: for department pages of code points below 256, in the graph
    that [parse_prereqs.main] builds from the catalog that the scraper
    wrote, both ends of every edge are codes of the CourseCode grammar,
    with digits 0-9, that have at most one letter after the digits: a
    code as MATH 31AH, which the parser does extract from a prerequisite
    text, is the code of no scraped course and so never an end of an
    edge. *)
Theorem pipeline_edges_short_suffix (pages : list (list scrape_catalog.block))
    (all : list scrape_catalog.course) :
  scrape_catalog.main pages = scrape_catalog.Return all ->
  exists enriched edges,
    main_outputs (map load_course all) = Ok (enriched, edges)
    /\ Forall (fun e =>
                 (is_course_code (source e) = true
                  /\ length (suffix_letters (source e)) <= 1)
                 /\ (is_course_code (target e) = true
                     /\ length (suffix_letters (target e)) <= 1)) edges.
Proof.
  intros [_ Hall]%main_collected.
  assert (forall s, s ∈ map scrape_catalog.code all ->
            is_course_code s = true /\ length (suffix_letters s) <= 1) as Hcode.
  { intros s (c & -> & Hc)%list_elem_of_fmap.
    rewrite Forall_forall in Hall. destruct (Hall c Hc) as (ps & _ & Hp).
    destruct (paired_code ps c Hp) as (t & h & Hh%header_code_short & ->).
    done. }
  unfold main_outputs.
  destruct (enrich_all_spec (map load_course all)) as (enriched & He & _).
  rewrite He. exists enriched, (build_prereq_edges enriched).
  split; [done|]. apply enrich_all_codes in He.
  assert (map code enriched = map scrape_catalog.code all) as Hcodes.
  { rewrite He, map_map. done. }
  apply Forall_forall. intros e He'.
  apply in_build_prereq_edges in He' as (c & g & Hc & Ht & _ & _ & Hs).
  apply is_key_target in Hc. rewrite <- Ht in Hc.
  unfold is_key in Hs, Hc. apply bool_decide_eq_true in Hs, Hc.
  rewrite Hcodes in Hs, Hc. split; by apply Hcode.
Qed.

Lemma pipeline_edges_short_suffix_witness :
  exists enriched edges,
    main_outputs
      (map load_course
         [scrape_catalog.Build_course
            (lit "MATH 20A") (lit "Calculus") 4 (lit "Limits.") None;
          scrape_catalog.Build_course
            (lit "MATH 20B") (lit "Calculus") 4 (lit "Integrals.")
            (Some (lit "MATH 20A or MATH 31AH."))])
    = Ok (enriched, edges)
    /\ Forall (fun e =>
                 (is_course_code (source e) = true
                  /\ length (suffix_letters (source e)) <= 1)
                 /\ (is_course_code (target e) = true
                     /\ length (suffix_letters (target e)) <= 1)) edges.
Proof.
  apply (pipeline_edges_short_suffix
           [[scrape_catalog.Build_block (Some [lit "course-name"])
               (lit "MATH 20A. Calculus (4)");
             scrape_catalog.Build_block (Some [lit "course-descriptions"])
               (lit "Limits.");
             scrape_catalog.Build_block (Some [lit "course-name"])
               (lit "MATH 20B. Calculus (4)");
             scrape_catalog.Build_block (Some [lit "course-descriptions"])
               (lit "Integrals. Prerequisites: MATH 20A or MATH 31AH.");
             scrape_catalog.Build_block (Some [lit "course-name"])
               (lit "MATH 31AH. Honors Linear Algebra (4)");
             scrape_catalog.Build_block (Some [lit "course-descriptions"])
               (lit "Vectors.")]]).
  vm_compute. reflexivity.
Defined.

(** ** Matching a text of known parts *)

Lemma forward_first {R} (try : nat -> option R) k n j r :
  k <= j <= k + n -> (forall i, k <= i < j -> try i = None) ->
  try j = Some r -> forward try k n = Some r.
Proof.
  revert k. induction n as [|n IH]; intros k Hj Hnone Hr; simpl.
  - assert (j = k) as -> by lia. by rewrite Hr.
  - destruct (decide (j = k)) as [->|Hne]; [by rewrite Hr|].
    rewrite Hnone by lia. apply IH; [lia| |done].
    intros i Hi. apply Hnone. lia.
Qed.

(** The number of characters a quantifier takes first, when the text
    after [pre] starts outside the class or [pre] has the largest length
    allowed. *)
Lemma greedy_exact a pre rest :
  forallb (cls a) pre = true ->
  (forall h, hi a = Some h -> length pre <= h) ->
  match rest with c :: _ => cls a c = false | [] => True end
  \/ hi a = Some (length pre) ->
  greedy a (pre ++ rest) = length pre.
Proof.
  intros Hall Hhi Hstop. unfold greedy. rewrite run_length_all by done.
  destruct Hstop as [Hstop|Hh].
  - assert (run_length (cls a) rest = 0) as ->.
    { destruct rest as [|c rest]; [done|]. simpl. by rewrite Hstop. }
    destruct (hi a) as [h|]; [|lia]. specialize (Hhi h eq_refl). lia.
  - rewrite Hh. lia.
Qed.

Lemma match_items_greedy_exact a r pre rest lens :
  lo a <= length pre -> forallb (cls a) pre = true ->
  (forall h, hi a = Some h -> length pre <= h) ->
  match rest with c :: _ => cls a c = false | [] => True end
  \/ hi a = Some (length pre) ->
  match_items r rest = Some lens ->
  match_items (Greedy a :: r) (pre ++ rest) = Some (length pre :: lens).
Proof.
  intros Hlo Hall Hhi Hstop Hr. cbn [match_items].
  rewrite greedy_exact by done. apply backtrack_first; [done|].
  by rewrite drop_app_length, Hr.
Qed.

(** A literal character. *)
Lemma match_items_char (p : ascii -> bool) r c rest lens :
  p c = true -> match_items r rest = Some lens ->
  match_items (Greedy (one p) :: r) (c :: rest) = Some (1 :: lens).
Proof.
  intros Hc Hr.
  apply (match_items_greedy_exact (one p) r [c] rest lens); simpl; try done.
  - by rewrite Hc.
  - intros h [= <-]. done.
  - by right.
Qed.

(** A lazy quantifier stops at the first length after which the rest of
    the pattern matches. *)
Lemma match_items_lazy_exact a r pre rest lens :
  lo a <= length pre -> forallb (cls a) pre = true -> hi a = None ->
  (forall i, lo a <= i < length pre ->
     match_items r (drop i (pre ++ rest)) = None) ->
  match_items r rest = Some lens ->
  match_items (Lazy a :: r) (pre ++ rest) = Some (length pre :: lens).
Proof.
  intros Hlo Hall Hhi Hnone Hr. cbn [match_items].
  assert (length pre <= greedy a (pre ++ rest)) as Hg.
  { unfold greedy. rewrite Hhi, run_length_all by done. lia. }
  destruct (Nat.ltb_spec (greedy a (pre ++ rest)) (lo a)); [lia|].
  apply (forward_first _ _ _ (length pre)); [lia| |].
  - intros i Hi. by rewrite Hnone.
  - by rewrite drop_app_length, Hr.
Qed.

(** The text of a group between known parts. *)
Lemma group_text_at (before m after : str) (lens : list nat) i n :
  sum_list (take i lens) = length before ->
  sum_list (take n (drop i lens)) = length m ->
  group_text (before ++ m ++ after) 0 lens i n = m.
Proof.
  intros H1 H2. unfold group_text. rewrite H1, H2. simpl.
  by rewrite drop_app_length, take_app_length.
Qed.

Lemma py_strip_lstrip_fixed s : lstrip is_space (py_strip s) = py_strip s.
Proof. unfold py_strip. by rewrite lstrip_rstrip_comm, lstrip_idem. Qed.

(** A stripped text that is not empty starts and ends outside the
    whitespace. *)
Lemma stripped_head s :
  s <> [] -> py_strip s = s ->
  rstrip is_space s = s /\ exists c t, s = c :: t /\ is_space c = false.
Proof.
  intros Hne Hs. split.
  - rewrite <- Hs. apply py_strip_fixed.
  - destruct s as [|c t]; [done|]. exists c, t. split; [done|].
    apply (lstrip_head_stop is_space (c :: t) c t).
    rewrite <- Hs at 1. rewrite py_strip_lstrip_fixed. by rewrite Hs.
Qed.

Lemma space_no_char x ws :
  is_space x = false -> forallb is_space ws = true -> contains x ws = false.
Proof.
  intros Hx Hws. apply contains_false_forallb. revert Hws.
  apply forallb_impl. intros c Hc.
  destruct (Ascii.eqb_spec x c) as [->|]; [congruence|done].
Qed.

(** The pattern of the header after the title: [\s+\((\d+)(?:-\d+)?\)]. *)
Lemma header_tail_match ds rest :
  1 <= length ds -> forallb is_digit ds = true ->
  match_items (drop 7 scrape_catalog.HEADER_RE)
    (" "%char :: "("%char :: ds ++ ")"%char :: rest)
  = Some [1; 1; length ds; 0; 1].
Proof.
  intros Hds1 Hds. cbn [drop scrape_catalog.HEADER_RE skipn].
  apply (match_items_greedy_exact (plus is_space) _ [" "%char]);
    [done|done|done|by left|].
  apply match_items_char; [done|].
  apply (match_items_greedy_exact (plus is_digit) _ ds);
    [done|done|done|by left|].
  done.
Qed.

Lemma header_tail_no_match t rest :
  t <> [] -> rstrip is_space t = t -> contains "(" t = false ->
  match_items (drop 7 scrape_catalog.HEADER_RE)
    (t ++ " "%char :: "("%char :: rest) = None.
Proof.
  intros Hne Ht Hpar.
  destruct (match_items _ _) as [lens|] eqn:E; [exfalso|done].
  apply match_items_fits in E. cbn [drop scrape_catalog.HEADER_RE skipn] in E.
  apply fits_greedy_cons in E as (ws & r1 & l1 & Hs & -> & _ & _ & Hws & E).
  apply fits_greedy_cons in E as (par & r2 & l2 & -> & -> & Hp1 & Hp2 & Hp & _).
  simpl in Hp1, Hp2, Hp. specialize (Hp2 1 eq_refl).
  apply forallb_one_char in Hp as ->; [|lia].
  apply (f_equal (before_first "(")) in Hs.
  replace (t ++ " "%char :: "("%char :: rest)
    with ((t ++ [" "%char]) ++ "("%char :: rest) in Hs by list_eq.
  rewrite before_first_app in Hs by (rewrite contains_app, Hpar; done).
  change (ws ++ ["("%char] ++ r2) with (ws ++ "("%char :: r2) in Hs.
  rewrite before_first_app in Hs by by apply space_no_char.
  rewrite <- Hs, forallb_app in Hws. apply andb_prop in Hws as [Hws _].
  by apply Hne, (rstrip_fixed_not_blank is_space).
Qed.

Lemma contains_not_newline s :
  contains "010" s = false -> forallb not_newline s = true.
Proof.
  induction s as [|c s IH]; [done|].
  change (contains "010" (c :: s)) with (Ascii.eqb "010" c || contains "010" s).
  change (forallb not_newline (c :: s))
    with (negb (Ascii.eqb c "010") && forallb not_newline s).
  intros [Hc Hs]%orb_false_elim. rewrite Ascii.eqb_sym, Hc. by apply IH.
Qed.

(** The match of the header pattern on a header of known parts. *)
Lemma header_match d dg x title ds rest :
  2 <= length d <= 4 -> forallb is_upper d = true ->
  1 <= length dg -> forallb is_digit dg = true ->
  forallb is_upper x = true -> length x <= 1 ->
  title <> [] -> py_strip title = title ->
  contains "010" title = false -> contains "(" title = false ->
  1 <= length ds -> forallb is_digit ds = true ->
  match_items scrape_catalog.HEADER_RE
    (d ++ " "%char :: dg ++ x ++ "."%char :: " "%char :: title
       ++ " "%char :: "("%char :: ds ++ ")"%char :: rest)
  = Some [length d; 1; length dg; length x; 1; 1; length title;
          1; 1; length ds; 0; 1].
Proof.
  intros Hd1 Hd Hg1 Hdg Hx Hx1 Hne Hstrip Hnl Hpar Hds1 Hds.
  destruct (stripped_head title Hne Hstrip) as (Hr & c & t & Ht & Hc).
  assert (forall u, is_upper u = true -> is_digit u = false) as Hud
    by (intros u; all_chars u).
  unfold scrape_catalog.HEADER_RE.
  apply (match_items_greedy_exact (Atom is_upper 2 (Some 4)) _ d);
    [simpl; lia|done|intros h [= <-]; lia|by left|].
  apply match_items_char; [done|].
  apply (match_items_greedy_exact (plus is_digit) _ dg); [done|done|done| |].
  { left. destruct x as [|u x]; [done|]. simpl in Hx.
    apply andb_prop in Hx as [Hu _]. simpl. by apply Hud. }
  apply (match_items_greedy_exact (opt is_upper) _ x);
    [simpl; lia|done|by intros h [= <-]|by left|].
  apply match_items_char; [done|].
  apply (match_items_greedy_exact (plus is_space) _ [" "%char]);
    [done|done|done|left; by rewrite Ht|].
  apply (match_items_lazy_exact (plus not_newline) _ title);
    [destruct title; [done|simpl; lia]| |done| |].
  - by apply contains_not_newline.
  - intros i Hi. simpl in Hi. rewrite drop_app_le by lia.
    apply header_tail_no_match.
    + intros E. apply (f_equal length) in E. rewrite length_drop in E.
      simpl in E. lia.
    + by apply rstrip_fixed_drop.
    + by apply contains_drop.
  - by apply header_tail_match.
Qed.

(** X26: a header written as the code, a period, the title, and the
    units in parentheses is read back by [parse_course_header]: for a
    code with at most one letter after the digits, a stripped,
    non-empty title on one line without an opening parenthesis, and at
    most 4300 digits of units.  Text after the closing parenthesis is
    ignored. *)
Theorem header_round_trip (code title ds rest : str) :
  is_course_code code = true -> length (suffix_letters code) <= 1 ->
  title <> [] -> py_strip title = title ->
  contains "010" title = false -> contains "(" title = false ->
  ds <> [] -> forallb is_digit ds = true -> length ds <= 4300 ->
  exists n,
    scrape_catalog.py_int ds = scrape_catalog.Return n
    /\ scrape_catalog.parse_course_header
         (code ++ lit ". " ++ title ++ lit " (" ++ ds ++ lit ")" ++ rest)
       = scrape_catalog.Return
           (Some {| scrape_catalog.code := code;
                    scrape_catalog.title := title;
                    scrape_catalog.units := n;
                    scrape_catalog.description := [];
                    scrape_catalog.prereq_raw := None |}).
Proof.
  intros Hcode Hsuf Hne Hstrip Hnl Hpar Hds0 Hds Hlen.
  assert (exists n, scrape_catalog.py_int ds = scrape_catalog.Return n)
    as [n Hn].
  { unfold scrape_catalog.py_int.
    destruct (Nat.ltb_spec 4300 (length ds)); [lia|]. by eexists. }
  exists n. split; [done|].
  pose proof (is_course_code_extracted code Hcode) as Hex.
  pose proof (extracted_parsed code Hex) as Hparsed.
  destruct Hex as (d & dg & x & -> & Hd1 & Hd & Hg1 & Hdg & Hx).
  rewrite suffix_letters_parts in Hsuf by (done || lia).
  assert (1 <= length ds) as Hds1 by (destruct ds; [done|simpl; lia]).
  set (code := d ++ " "%char :: dg ++ x) in *.
  assert (exists rest',
            py_strip (code ++ lit ". " ++ title ++ lit " (" ++ ds
                        ++ lit ")" ++ rest)
            = code ++ lit ". " ++ title ++ lit " (" ++ ds ++ lit ")" ++ rest')
    as [rest' Htext].
  { exists (rstrip is_space rest). unfold py_strip. rewrite lstrip_id.
    - replace (code ++ lit ". " ++ title ++ lit " (" ++ ds ++ lit ")" ++ rest)
        with ((code ++ lit ". " ++ title ++ lit " (" ++ ds)
                ++ ")"%char :: rest) by list_eq.
      rewrite rstrip_stop by done. list_eq.
    - unfold code. destruct d as [|c d]; [simpl in Hd1; lia|]. simpl in Hd.
      apply andb_prop in Hd as [Hc _]. simpl.
      by apply upper_facts in Hc as [-> _]. }
  unfold scrape_catalog.parse_course_header. cbv zeta. rewrite Htext.
  replace (code ++ lit ". " ++ title ++ lit " (" ++ ds ++ lit ")" ++ rest')
    with (d ++ " "%char :: dg ++ x ++ "."%char :: " "%char :: title
            ++ " "%char :: "("%char :: ds ++ ")"%char :: rest')
    by (unfold code; list_eq).
  rewrite header_match by done.
  set (text := d ++ " "%char :: dg ++ x ++ "."%char :: " "%char :: title
                 ++ " "%char :: "("%char :: ds ++ ")"%char :: rest').
  set (lens := [length d; 1; length dg; length x; 1; 1; length title;
                1; 1; length ds; 0; 1]).
  assert (group_text text 0 lens 0 4 = code) as ->.
  { replace text
      with ([] ++ code
              ++ (lit ". " ++ title ++ lit " (" ++ ds ++ lit ")" ++ rest'))
      by (unfold text, code; list_eq).
    apply group_text_at; unfold code; simpl; list_len. }
  assert (group_text text 0 lens 6 1 = title) as ->.
  { replace text
      with ((code ++ lit ". ") ++ title
              ++ (lit " (" ++ ds ++ lit ")" ++ rest'))
      by (unfold text, code; list_eq).
    apply group_text_at; unfold code; simpl; list_len. }
  assert (group_text text 0 lens 9 1 = ds) as ->.
  { replace text
      with ((code ++ lit ". " ++ title ++ lit " (") ++ ds
              ++ (lit ")" ++ rest'))
      by (unfold text, code; list_eq).
    apply group_text_at; unfold code; simpl; list_len. }
  rewrite Hn. cbn [mbind scrape_catalog.raising_bind].
  destruct (normalize_parsed code Hparsed) as [-> _]. by rewrite Hstrip.
Qed.

Lemma header_round_trip_witness :
  exists n,
    scrape_catalog.py_int (lit "4") = scrape_catalog.Return n
    /\ scrape_catalog.parse_course_header
         (lit "CSE 3" ++ lit ". " ++ lit "Fluency in Information Technology"
            ++ lit " (" ++ lit "4" ++ lit ")" ++ lit "  Tag: Computing")
       = scrape_catalog.Return
           (Some {| scrape_catalog.code := lit "CSE 3";
                    scrape_catalog.title :=
                      lit "Fluency in Information Technology";
                    scrape_catalog.units := n;
                    scrape_catalog.description := [];
                    scrape_catalog.prereq_raw := None |}).
Proof.
  apply (header_round_trip
           (lit "CSE 3") (lit "Fluency in Information Technology")
           (lit "4") (lit "  Tag: Computing")).
  - vm_compute. reflexivity.
  - vm_compute. lia.
  - discriminate.
  - vm_compute. reflexivity.
  - vm_compute. reflexivity.
  - vm_compute. reflexivity.
  - discriminate.
  - vm_compute. reflexivity.
  - simpl. lia.
Defined.

(** ** The body with its label *)

Lemma fits_char_cons (p : ascii -> bool) r lens s :
  fits (Greedy (one p) :: r) lens s ->
  exists c rest lens',
    s = c :: rest /\ lens = 1 :: lens' /\ p c = true /\ fits r lens' rest.
Proof.
  intros (pre & rest & lens' & -> & -> & Hlo & Hhi & Hall & Hr)%fits_greedy_cons.
  simpl in Hlo, Hhi. specialize (Hhi 1 eq_refl).
  destruct pre as [|c [|??]]; [simpl in Hlo; lia| |simpl in Hhi; lia].
  simpl in Hall. rewrite andb_true_r in Hall. by exists c, rest, lens'.
Qed.

Lemma is_char_i_other x l u c :
  is_char_i l u c = true -> x <> l -> x <> u -> Ascii.eqb x c = false.
Proof.
  unfold is_char_i. intros [->%Ascii.eqb_eq| ->%Ascii.eqb_eq]%orb_prop Hl Hu;
    by apply Ascii.eqb_neq.
Qed.

(** What a match of the pattern of the body starts with: the twelve or
    thirteen letters of the label, whitespace, and the colon. *)
Lemma prereq_fits_label lens s :
  fits scrape_catalog.PREREQ_RE lens s ->
  exists label sp rest,
    s = label ++ sp ++ ":"%char :: rest
    /\ 12 <= length label <= 13
    /\ contains ":" label = false
    /\ forallb is_space sp = true.
Proof.
  unfold scrape_catalog.PREREQ_RE. cbn [map]. intros H.
  apply fits_char_cons in H as (c1 & s1 & l1 & -> & -> & H1 & H).
  apply fits_char_cons in H as (c2 & s2 & l2 & -> & -> & H2 & H).
  apply fits_char_cons in H as (c3 & s3 & l3 & -> & -> & H3 & H).
  apply fits_char_cons in H as (c4 & s4 & l4 & -> & -> & H4 & H).
  apply fits_char_cons in H as (c5 & s5 & l5 & -> & -> & H5 & H).
  apply fits_char_cons in H as (c6 & s6 & l6 & -> & -> & H6 & H).
  apply fits_char_cons in H as (c7 & s7 & l7 & -> & -> & H7 & H).
  apply fits_char_cons in H as (c8 & s8 & l8 & -> & -> & H8 & H).
  apply fits_char_cons in H as (c9 & s9 & l9 & -> & -> & H9 & H).
  apply fits_char_cons in H as (c10 & s10 & l10 & -> & -> & H10 & H).
  apply fits_char_cons in H as (c11 & s11 & l11 & -> & -> & H11 & H).
  apply fits_char_cons in H as (c12 & s12 & l12 & -> & -> & H12 & H).
  apply fits_greedy_cons in H as (ss & s13 & l13 & -> & -> & _ & Hs & Hss & H).
  apply fits_greedy_cons in H as (sp & s14 & l14 & -> & -> & _ & _ & Hsp & H).
  apply fits_char_cons in H as (c & rest & l15 & -> & -> & Hc & _).
  apply Ascii.eqb_eq in Hc as ->. specialize (Hs 1 eq_refl).
  exists ([c1; c2; c3; c4; c5; c6; c7; c8; c9; c10; c11; c12] ++ ss), sp, rest.
  split; [list_eq|]. split; [list_len|]. split; [|done].
  rewrite contains_app. apply orb_false_intro.
  - unfold contains. cbn [existsb].
    rewrite (is_char_i_other ":" _ _ _ H1), (is_char_i_other ":" _ _ _ H2),
      (is_char_i_other ":" _ _ _ H3), (is_char_i_other ":" _ _ _ H4),
      (is_char_i_other ":" _ _ _ H5), (is_char_i_other ":" _ _ _ H6),
      (is_char_i_other ":" _ _ _ H7), (is_char_i_other ":" _ _ _ H8),
      (is_char_i_other ":" _ _ _ H9), (is_char_i_other ":" _ _ _ H10),
      (is_char_i_other ":" _ _ _ H11), (is_char_i_other ":" _ _ _ H12);
      done.
  - apply contains_false_forallb. revert Hss. apply forallb_impl.
    intros c Hc. by rewrite (is_char_i_other ":" _ _ _ Hc).
Qed.

Lemma rstrip_app_fixed p a s :
  s <> [] -> rstrip p s = s -> rstrip p (a ++ s) = a ++ s.
Proof.
  intros Hne Hs. induction a as [|c a IH]; [done|].
  cbn [app]. rewrite rstrip_cons, IH.
  destruct (forallb p (c :: a ++ s)) eqn:E; [|done].
  simpl in E. apply andb_prop in E as [_ E]. rewrite forallb_app in E.
  apply andb_prop in E as [_ E]. exfalso.
  by apply Hne, (rstrip_fixed_not_blank p).
Qed.

(** The leftmost match, found after positions without a match. *)
Lemma search_from_first r i s n lens :
  n <= length s ->
  (forall j, j < n -> match_items r (drop j s) = None) ->
  match_items r (drop n s) = Some lens ->
  search_from r i s = Some (i + n, lens).
Proof.
  revert i s. induction n as [|n IH]; intros i s Hn Hnone Hm.
  - destruct s; simpl in *; rewrite Hm; by rewrite Nat.add_0_r.
  - destruct s as [|c s]; [simpl in Hn; lia|]. cbn [search_from].
    change (c :: s) with (drop 0 (c :: s)) at 1.
    rewrite (Hnone 0) by lia. rewrite (IH (S i) s).
    + f_equal. f_equal. lia.
    + simpl in Hn. lia.
    + intros j Hj. apply (Hnone (S j)). lia.
    + done.
Qed.

(** The match of the pattern of the body on the label and a line. *)
Lemma prereq_label_match line :
  line <> [] -> py_strip line = line -> contains "010" line = false ->
  match_items scrape_catalog.PREREQ_RE (lit "Prerequisites: " ++ line)
  = Some [1; 1; 1; 1; 1; 1; 1; 1; 1; 1; 1; 1; 1; 0; 1; 1; length line].
Proof.
  intros Hne Hstrip Hnl.
  destruct (stripped_head line Hne Hstrip) as (_ & c & t & Ht & Hc).
  unfold scrape_catalog.PREREQ_RE. cbn [map lit list_ascii_of_string app].
  do 12 (apply match_items_char; [done|]).
  apply (match_items_greedy_exact (opt (is_char_i "s" "S")) _ ["s"%char]);
    [simpl; lia|done|by intros h [= <-]|by right|].
  apply (match_items_greedy_exact (star is_space) _ []);
    [simpl; lia|done|done|by left|].
  apply match_items_char; [done|].
  apply (match_items_greedy_exact (star is_space) _ [" "%char]);
    [simpl; lia|done|done|left; by rewrite Ht|].
  rewrite <- (app_nil_r line) at 1.
  apply (match_items_greedy_exact (plus not_newline) _ line);
    [destruct line; [done|simpl; lia]| |done|by left|done].
  by apply contains_not_newline.
Qed.

(** No match before the label, in a text without a colon. *)
Lemma prereq_no_match_before pre line j :
  contains ":" pre = false -> j < length pre ->
  match_items scrape_catalog.PREREQ_RE
    (drop j (pre ++ lit "Prerequisites: " ++ line)) = None.
Proof.
  intros Hpre Hj.
  destruct (match_items _ _) as [lens|] eqn:E; [exfalso|done].
  apply match_items_fits, prereq_fits_label in E
    as (label & sp & rest & Hs & Hlen & Hlabel & Hsp).
  rewrite drop_app_le in Hs by lia.
  apply (f_equal (before_first ":")) in Hs.
  replace (drop j pre ++ lit "Prerequisites: " ++ line)
    with ((drop j pre ++ lit "Prerequisites") ++ ":"%char :: " "%char :: line)
    in Hs by list_eq.
  rewrite before_first_app in Hs.
  2:{ rewrite contains_app, contains_drop by done. done. }
  rewrite app_assoc, before_first_app in Hs.
  2:{ rewrite contains_app, Hlabel. by apply space_no_char. }
  assert (sp = []) as ->.
  { destruct sp as [|c sp _] using rev_ind; [done|]. exfalso.
    rewrite forallb_app in Hsp. apply andb_prop in Hsp as [_ Hc].
    simpl in Hc. rewrite andb_true_r in Hc.
    replace (drop j pre ++ lit "Prerequisites")
      with ((drop j pre ++ lit "Prerequisite") ++ ["s"%char]) in Hs
      by list_eq.
    rewrite (app_assoc label) in Hs.
    apply app_inj_tail in Hs as [_ <-]. done. }
  apply (f_equal length) in Hs. rewrite app_nil_r, length_app, length_drop in Hs.
  simpl in Hs. lia.
Qed.

(** The text after the label, found at the position of the label. *)
Lemma body_of_label pre line :
  contains ":" pre = false ->
  line <> [] -> py_strip line = line -> contains "010" line = false ->
  py_strip (pre ++ lit "Prerequisites: " ++ line)
  = pre ++ lit "Prerequisites: " ++ line ->
  scrape_catalog.parse_course_body (pre ++ lit "Prerequisites: " ++ line)
  = (py_strip pre, Some line).
Proof.
  intros Hpre Hne Hstrip Hnl Htext.
  unfold scrape_catalog.parse_course_body. cbv zeta. rewrite Htext.
  unfold re_search.
  rewrite (search_from_first _ 0 _ (length pre)
             [1; 1; 1; 1; 1; 1; 1; 1; 1; 1; 1; 1; 1; 0; 1; 1; length line]).
  - change [1; 1; 1; 1; 1; 1; 1; 1; 1; 1; 1; 1; 1; 0; 1; 1; length line]
      with ([1; 1; 1; 1; 1; 1; 1; 1; 1; 1; 1; 1; 1; 0; 1]
              ++ [1; length line]).
    rewrite (group_text_last _ _ _ _ _ 15) by done.
    change (0 + length pre) with (length pre).
    rewrite drop_app_length, take_app_length.
    change (drop 1 (drop _ (lit "Prerequisites: " ++ line))) with line.
    by rewrite firstn_all, Hstrip.
  - list_len.
  - intros j Hj. by apply prereq_no_match_before.
  - rewrite drop_app_length. by apply prereq_label_match.
Qed.

(** X27: a description without a colon, the label and a line of
    prerequisites are read back by [parse_course_body]: the description
    and the line, for a stripped description and a stripped, non-empty
    line. *)
Theorem body_round_trip (desc line : str) :
  py_strip desc = desc -> contains ":" desc = false ->
  line <> [] -> py_strip line = line -> contains "010" line = false ->
  scrape_catalog.parse_course_body (desc ++ lit " Prerequisites: " ++ line)
  = (desc, Some line).
Proof.
  intros Hdesc Hcolon Hne Hstrip Hnl.
  destruct (stripped_head line Hne Hstrip) as (Hr & _).
  assert (rstrip is_space (lit "Prerequisites: " ++ line)
          = lit "Prerequisites: " ++ line) as Hlabel
    by by apply rstrip_app_fixed.
  destruct desc as [|c desc].
  - assert (scrape_catalog.parse_course_body
              ([] ++ lit " Prerequisites: " ++ line)
            = scrape_catalog.parse_course_body
                ([] ++ lit "Prerequisites: " ++ line)) as ->.
    { pose proof (py_strip_surrounded [" "%char]
                    (lit "Prerequisites: " ++ line) [] eq_refl eq_refl) as E.
      rewrite app_nil_r in E.
      change ([] ++ lit " Prerequisites: " ++ line)
        with ([" "%char] ++ lit "Prerequisites: " ++ line).
      unfold scrape_catalog.parse_course_body. cbv zeta. by rewrite E. }
    by rewrite body_of_label.
  - destruct (stripped_head (c :: desc)) as (_ & c' & t & [= <- <-] & Hc);
      [done|done|].
    replace ((c :: desc) ++ lit " Prerequisites: " ++ line)
      with (((c :: desc) ++ [" "%char]) ++ lit "Prerequisites: " ++ line)
      by list_eq.
    rewrite body_of_label; try done.
    + pose proof (py_strip_surrounded [] (c :: desc) [" "%char]
                    eq_refl eq_refl) as E.
      change ([] ++ (c :: desc) ++ [" "%char])
        with ((c :: desc) ++ [" "%char]) in E.
      by rewrite E, Hdesc.
    + rewrite contains_app, Hcolon. done.
    + unfold py_strip. rewrite lstrip_id by done.
      by apply rstrip_app_fixed.
Qed.

Lemma body_round_trip_witness :
  scrape_catalog.parse_course_body
    (lit "Introduction to Java." ++ lit " Prerequisites: "
       ++ lit "CSE 8A or CSE 11.")
  = (lit "Introduction to Java.", Some (lit "CSE 8A or CSE 11.")).
Proof.
  apply (body_round_trip (lit "Introduction to Java.")
           (lit "CSE 8A or CSE 11.")).
  - vm_compute. reflexivity.
  - vm_compute. reflexivity.
  - discriminate.
  - vm_compute. reflexivity.
  - vm_compute. reflexivity.
Defined.

(** ** The audit of the scraper's own output *)

Lemma by_code_fold_lookup_other (l : list scrape_catalog.course)
    (m : gmap str scrape_catalog.course) (k : str) :
  k ∉ map scrape_catalog.code l ->
  fold_left (fun m c => <[scrape_catalog.code c := c]> m) l m !! k = m !! k.
Proof.
  revert m. induction l as [|x l IH]; intros m Hk; [done|].
  cbn [fold_left]. rewrite IH.
  - apply lookup_insert_ne. intros E. apply Hk. rewrite <- E. left.
  - intros H. apply Hk. by right.
Qed.

Lemma by_code_fold_lookup (l : list scrape_catalog.course)
    (m : gmap str scrape_catalog.course) (c : scrape_catalog.course) :
  NoDup (map scrape_catalog.code l) -> c ∈ l ->
  fold_left (fun m c => <[scrape_catalog.code c := c]> m) l m
    !! scrape_catalog.code c = Some c.
Proof.
  revert m. induction l as [|x l IH]; intros m Hnd Hc.
  - by apply elem_of_nil in Hc.
  - cbn [map] in Hnd. apply NoDup_cons in Hnd as [Hx Hnd]. cbn [fold_left].
    apply elem_of_cons in Hc as [->|Hc].
    + rewrite by_code_fold_lookup_other by done. apply lookup_insert_eq.
    + by apply IH.
Qed.

Lemma by_code_fold_dom (l : list scrape_catalog.course)
    (m : gmap str scrape_catalog.course) :
  dom (fold_left (fun m c => <[scrape_catalog.code c := c]> m) l m)
  = validate_audit.codes_of l ∪ dom m.
Proof.
  unfold validate_audit.codes_of. revert m.
  induction l as [|x l IH]; intros m; apply set_eq; intros k.
  - rewrite elem_of_union, elem_of_list_to_set. simpl.
    rewrite elem_of_nil. tauto.
  - cbn [fold_left map]. rewrite IH, dom_insert_L.
    rewrite !elem_of_union, !elem_of_list_to_set, elem_of_cons,
      elem_of_singleton. tauto.
Qed.

Lemma by_code_dom (l : list scrape_catalog.course) :
  dom (validate_audit.by_code l) = validate_audit.codes_of l.
Proof.
  unfold validate_audit.by_code. rewrite by_code_fold_dom, dom_empty_L.
  apply set_eq. intros k. rewrite elem_of_union, elem_of_empty. tauto.
Qed.

Lemma codes_of_elem (l : list scrape_catalog.course) (k : str) :
  k ∈ validate_audit.codes_of l
  <-> exists c, c ∈ l /\ k = scrape_catalog.code c.
Proof.
  unfold validate_audit.codes_of.
  rewrite elem_of_list_to_set, list_elem_of_fmap.
  split; intros (c & H1 & H2); exists c; by split.
Qed.

(** The codes of the collected courses are the codes of all the pages. *)
Lemma codes_of_collected (lives : list (list scrape_catalog.course)) :
  validate_audit.codes_of (collect_departments scrape_catalog.code lives)
  = ⋃ (map validate_audit.codes_of lives).
Proof.
  unfold collect_departments. rewrite fold_left_concat, collect_first_by_code.
  simpl. rewrite filter_true.
  2:{ intros y. apply negb_true_iff, bool_decide_eq_false.
      apply not_elem_of_empty. }
  apply set_eq. intros k. rewrite codes_of_elem, elem_of_union_list. split.
  - intros (c & Hc%first_by_code_elem & ->).
    apply list_elem_of_In, in_concat in Hc as (live & Hlive & Hc).
    exists (validate_audit.codes_of live). split.
    + apply list_elem_of_fmap. exists live. split; [done|].
      by apply list_elem_of_In.
    + apply codes_of_elem. exists c. split; [by apply list_elem_of_In|done].
  - intros (X & (live & -> & Hlive)%list_elem_of_fmap & (c & Hc & ->)%codes_of_elem).
    assert (c ∈ concat lives) as Hin.
    { apply list_elem_of_In, in_concat. exists live.
      split; by apply list_elem_of_In. }
    apply (first_by_code_codes scrape_catalog.code) in Hin.
    apply list_elem_of_fmap in Hin as (c' & E & Hc').
    exists c'. by split.
Qed.

Lemma sum_list_zero {A} (f : A -> nat) (l : list A) :
  Forall (fun x => f x = 0) l -> sum_list (map f l) = 0.
Proof. induction 1 as [|x l Hx _ IH]; [done|]. simpl. by rewrite Hx, IH. Qed.

Lemma filter_none {A} (p : A -> bool) (l : list A) :
  Forall (fun x => p x = false) l -> List.filter p l = [].
Proof. induction 1 as [|x l Hx _ IH]; [done|]. simpl. by rewrite Hx. Qed.

Lemma first_by_code_id {A} (code_of : A -> str) (l : list A) :
  NoDup (map code_of l) -> first_by_code code_of l = l.
Proof.
  induction l as [|x l IH]; [done|]. cbn [map first_by_code].
  intros [Hx Hnd]%NoDup_cons. rewrite IH by done. f_equal.
  apply filter_true_on. intros y Hy.
  apply negb_true_iff, bool_decide_eq_false. intros E. apply Hx.
  rewrite <- E. apply list_elem_of_fmap. by exists y.
Qed.

Lemma NoDup_concat_part {A B} (f : A -> B) (ls : list (list A)) (l : list A) :
  NoDup (map f (concat ls)) -> l ∈ ls -> NoDup (map f l).
Proof.
  induction ls as [|l' ls IH]; intros Hnd Hl.
  - by apply elem_of_nil in Hl.
  - cbn [concat] in Hnd. rewrite map_app in Hnd.
    apply NoDup_app in Hnd as (H1 & _ & H2).
    apply elem_of_cons in Hl as [->|Hl]; [done|]. by apply IH.
Qed.

(** A page of the audit when our courses are those of the pages: no
    course is missing, and no field differs when the codes are
    different. *)
Lemma audit_page_missing (our live : list scrape_catalog.course) :
  validate_audit.codes_of live ⊆ validate_audit.codes_of our ->
  validate_audit.missing
    (validate_audit.audit_page (validate_audit.by_code our) live) = 0.
Proof.
  intros Hsub. unfold validate_audit.audit_page. cbv zeta.
  cbn [validate_audit.missing]. rewrite by_code_dom.
  apply size_empty_iff. intros k. rewrite elem_of_difference, elem_of_empty.
  split; [|done]. intros [Hk Hn]. by apply Hn, Hsub.
Qed.

Lemma audit_page_same (our live : list scrape_catalog.course)
    (differs : scrape_catalog.course -> scrape_catalog.course -> bool) :
  (forall c, differs c c = false) ->
  NoDup (map scrape_catalog.code our) -> live ⊆ our ->
  NoDup (map scrape_catalog.code live) ->
  List.filter
    (fun code =>
       match validate_audit.by_code live !! code,
             validate_audit.by_code our !! code with
       | Some e, Some o => differs e o
       | _, _ => false
       end)
    (elements (validate_audit.codes_of live
               ∩ dom (validate_audit.by_code our))) = [].
Proof.
  intros Hsame Hour Hsub Hlive. apply filter_none, Forall_forall.
  intros k [(c & Hc & ->)%codes_of_elem _]%elem_of_elements%elem_of_intersection.
  unfold validate_audit.by_code.
  rewrite (by_code_fold_lookup live) by done.
  rewrite (by_code_fold_lookup our) by auto. apply Hsame.
Qed.

Lemma collected_all (lives : list (list scrape_catalog.course)) :
  NoDup (map scrape_catalog.code (concat lives)) ->
  collect_departments scrape_catalog.code lives = concat lives.
Proof.
  intros Hnd. unfold collect_departments.
  rewrite fold_left_concat, collect_first_by_code. simpl.
  rewrite filter_true.
  - by apply first_by_code_id.
  - intros y. apply negb_true_iff, bool_decide_eq_false.
    apply not_elem_of_empty.
Qed.

Lemma page_codes_collected (lives : list (list scrape_catalog.course))
    (live : list scrape_catalog.course) :
  live ∈ lives ->
  validate_audit.codes_of live
  ⊆ validate_audit.codes_of (collect_departments scrape_catalog.code lives).
Proof.
  intros Hlive k Hk. rewrite codes_of_collected. apply elem_of_union_list.
  exists (validate_audit.codes_of live). split; [|done].
  apply list_elem_of_fmap. by exists live.
Qed.

Lemma self_audit_complete_aux (lives : list (list scrape_catalog.course)) :
  sum_list
    (map validate_audit.missing
       (map (validate_audit.audit_page
               (validate_audit.by_code
                  (collect_departments scrape_catalog.code lives))) lives))
  = 0
  /\ size (dom (validate_audit.by_code
                  (collect_departments scrape_catalog.code lives))
           ∖ ⋃ (map validate_audit.codes_of lives)) = 0.
Proof.
  split.
  - rewrite map_map. apply sum_list_zero, Forall_forall. intros live Hlive.
    by apply audit_page_missing, page_codes_collected.
  - rewrite by_code_dom, codes_of_collected. apply size_empty_iff.
    intros k. rewrite elem_of_difference, elem_of_empty. tauto.
Qed.

(** X28: the audit of the scraper's own catalog against the pages it
    was collected from finds no course missing in ours and no extra
    course in ours, whatever the pages. *)
Theorem self_audit_complete (lives : list (list scrape_catalog.course)) :
  validate_audit.missing
    (fst (validate_audit.totals
            (collect_departments scrape_catalog.code lives) lives)) = 0
  /\ snd (validate_audit.totals
            (collect_departments scrape_catalog.code lives) lives) = 0.
Proof.
  unfold validate_audit.totals. cbv zeta.
  cbn [fst snd validate_audit.missing]. apply self_audit_complete_aux.
Qed.

(** X29: when no code is listed twice on the pages, the audit of the
    scraper's catalog against these pages finds no difference at all,
    and [main] returns 0. *)
Theorem self_audit_passes (lives : list (list scrape_catalog.course)) :
  NoDup (map scrape_catalog.code (concat lives)) ->
  validate_audit.totals (collect_departments scrape_catalog.code lives) lives
  = ({| validate_audit.missing := 0;
        validate_audit.title_mismatch := 0;
        validate_audit.units_mismatch := 0;
        validate_audit.prereq_mismatch := 0 |}, 0)
  /\ validate_audit.main
       (collect_departments scrape_catalog.code lives) lives = 0.
Proof.
  intros Hnd.
  assert (validate_audit.totals
            (collect_departments scrape_catalog.code lives) lives
          = ({| validate_audit.missing := 0;
                validate_audit.title_mismatch := 0;
                validate_audit.units_mismatch := 0;
                validate_audit.prereq_mismatch := 0 |}, 0)) as Htotals.
  { assert (forall (differs : scrape_catalog.course -> scrape_catalog.course
                              -> bool) (live : list scrape_catalog.course),
              (forall c, differs c c = false) -> live ∈ lives ->
              List.filter
                (fun code =>
                   match validate_audit.by_code live !! code,
                         validate_audit.by_code (concat lives) !! code with
                   | Some e, Some o => differs e o
                   | _, _ => false
                   end)
                (elements (validate_audit.codes_of live
                           ∩ dom (validate_audit.by_code (concat lives))))
              = []) as Hsame.
    { intros differs live Hd Hlive. apply audit_page_same; try done.
      - intros c Hc. apply list_elem_of_In, in_concat. exists live.
        split; by apply list_elem_of_In.
      - by apply (NoDup_concat_part _ lives). }
    destruct (self_audit_complete_aux lives) as [Hm He].
    unfold validate_audit.totals. cbv zeta. rewrite Hm, He.
    rewrite collected_all by done. f_equal. f_equal.
    - rewrite map_map. apply sum_list_zero, Forall_forall. intros live Hlive.
      unfold validate_audit.audit_page. cbv zeta.
      cbn [validate_audit.title_mismatch]. rewrite Hsame; [done| |done].
      intros c. unfold validate_audit.title_differs.
      by rewrite bool_decide_eq_true_2.
    - rewrite map_map. apply sum_list_zero, Forall_forall. intros live Hlive.
      unfold validate_audit.audit_page. cbv zeta.
      cbn [validate_audit.units_mismatch]. rewrite Hsame; [done| |done].
      intros c. unfold validate_audit.units_differ.
      by rewrite bool_decide_eq_true_2.
    - rewrite map_map. apply sum_list_zero, Forall_forall. intros live Hlive.
      unfold validate_audit.audit_page. cbv zeta.
      cbn [validate_audit.prereq_mismatch]. rewrite Hsame; [done| |done].
      intros c. unfold validate_audit.prereq_differs.
      by rewrite bool_decide_eq_true_2. }
  split; [done|]. unfold validate_audit.main. by rewrite Htotals.
Qed.

Lemma self_audit_passes_witness :
  validate_audit.totals
    (collect_departments scrape_catalog.code
       [[scrape_catalog.Build_course
           (lit "CSE 3") (lit "Fluency") 4 (lit "Concepts.") None];
        [scrape_catalog.Build_course
           (lit "MATH 20A") (lit "Calculus") 4 (lit "Limits.")
           (Some (lit "none."))]])
    [[scrape_catalog.Build_course
        (lit "CSE 3") (lit "Fluency") 4 (lit "Concepts.") None];
     [scrape_catalog.Build_course
        (lit "MATH 20A") (lit "Calculus") 4 (lit "Limits.")
        (Some (lit "none."))]]
  = ({| validate_audit.missing := 0;
        validate_audit.title_mismatch := 0;
        validate_audit.units_mismatch := 0;
        validate_audit.prereq_mismatch := 0 |}, 0)
  /\ validate_audit.main
       (collect_departments scrape_catalog.code
          [[scrape_catalog.Build_course
              (lit "CSE 3") (lit "Fluency") 4 (lit "Concepts.") None];
           [scrape_catalog.Build_course
              (lit "MATH 20A") (lit "Calculus") 4 (lit "Limits.")
              (Some (lit "none."))]])
       [[scrape_catalog.Build_course
           (lit "CSE 3") (lit "Fluency") 4 (lit "Concepts.") None];
        [scrape_catalog.Build_course
           (lit "MATH 20A") (lit "Calculus") 4 (lit "Limits.")
           (Some (lit "none."))]]
     = 0.
Proof.
  apply (self_audit_passes
           [[scrape_catalog.Build_course
               (lit "CSE 3") (lit "Fluency") 4 (lit "Concepts.") None];
            [scrape_catalog.Build_course
               (lit "MATH 20A") (lit "Calculus") 4 (lit "Limits.")
               (Some (lit "none."))]]).
  apply (bool_decide_unpack _). vm_compute. exact I.
Defined.

(** A code listed twice with two titles: the scraper keeps the first
    course and the audit compares with the last, so the audit of the
    scraper's own catalog reports a title mismatch and fails. *)
Example audit_of_repeated_code :
  validate_audit.main
    (collect_departments scrape_catalog.code
       [[scrape_catalog.Build_course
           (lit "CSE 3") (lit "Fluency") 4 (lit "Concepts.") None;
         scrape_catalog.Build_course
           (lit "CSE 3") (lit "Fluency II") 4 (lit "Concepts.") None]])
    [[scrape_catalog.Build_course
        (lit "CSE 3") (lit "Fluency") 4 (lit "Concepts.") None;
      scrape_catalog.Build_course
        (lit "CSE 3") (lit "Fluency II") 4 (lit "Concepts.") None]]
  = 1.
Proof. vm_compute. reflexivity. Qed.

(** ** Paragraphs of ordinary length *)

Lemma py_strip_length s : length (py_strip s) <= length s.
Proof.
  destruct (py_strip_infix s) as (w1 & w2 & H).
  apply (f_equal length) in H. rewrite !length_app in H. lia.
Qed.

Lemma group_text_length text start lens i n :
  length (group_text text start lens i n) <= length text.
Proof.
  unfold group_text. rewrite length_take, length_drop. lia.
Qed.

Lemma header_returns block_text :
  length block_text <= 4300 ->
  exists r, scrape_catalog.parse_course_header block_text
            = scrape_catalog.Return r.
Proof.
  intros Hlen. unfold scrape_catalog.parse_course_header. cbv zeta.
  destruct (match_items _ _) as [lens|]; [|by eexists].
  unfold scrape_catalog.py_int.
  pose proof (group_text_length (py_strip block_text) 0 lens 9 1).
  pose proof (py_strip_length block_text).
  destruct (Nat.ltb_spec 4300
              (length (group_text (py_strip block_text) 0 lens 9 1)));
    [lia|].
  by eexists.
Qed.

Lemma scrape_block_returns st p :
  length (scrape_catalog.get_text p) <= 4300 ->
  exists st', scrape_catalog.scrape_block st p = scrape_catalog.Return st'.
Proof.
  intros Hlen. destruct st as [cs cur]. destruct (is_name p) eqn:Hn.
  - rewrite scrape_block_name by done.
    destruct (header_returns _ Hlen) as [r ->]. by eexists.
  - destruct cur as [h|], (is_description p) eqn:Hd.
    + rewrite scrape_block_description by done. by eexists.
    + rewrite scrape_block_other by auto. by eexists.
    + rewrite scrape_block_other by auto. by eexists.
    + rewrite scrape_block_other by auto. by eexists.
Qed.

(** X30: [scrape_department] raises nothing on a page whose paragraphs
    have at most 4300 characters each: the only call that can raise is
    [int(units)], on more digits than that. *)
Theorem scrape_department_returns (ps : list scrape_catalog.block) :
  Forall (fun p => length (scrape_catalog.get_text p) <= 4300) ps ->
  exists cs, scrape_catalog.scrape_department ps = scrape_catalog.Return cs.
Proof.
  intros Hps. unfold scrape_catalog.scrape_department.
  assert (forall st, exists st',
            scrape_catalog.scrape_blocks ps st = scrape_catalog.Return st')
    as Hloop.
  { induction Hps as [|p ps Hp _ IH]; intros st; [by eexists|].
    cbn [scrape_catalog.scrape_blocks].
    destruct (scrape_block_returns st p Hp) as [st' ->]. apply IH. }
  destruct (Hloop ([], None)) as [st' ->]. by eexists.
Qed.

Lemma scrape_department_returns_witness :
  exists cs,
    scrape_catalog.scrape_department
      [scrape_catalog.Build_block (Some [lit "course-name"])
         (lit "CSE 3. Fluency in Information Technology (4)");
       scrape_catalog.Build_block (Some [lit "course-descriptions"])
         (lit "Introduces the concepts. Prerequisites: none.")]
    = scrape_catalog.Return cs.
Proof.
  apply (scrape_department_returns
           [scrape_catalog.Build_block (Some [lit "course-name"])
              (lit "CSE 3. Fluency in Information Technology (4)");
            scrape_catalog.Build_block (Some [lit "course-descriptions"])
              (lit "Introduces the concepts. Prerequisites: none.")]).
  repeat constructor; simpl; lia.
Defined.
